(** * birdnet-go: capture engine, level monitor and stream reconfiguration

    A shallow embedding of the parts of
    [internal/httpcontroller/handlers/audio_level_sse.go] (package
    [handlers]) and of the capture file of package [myaudio] that the
    specification speaks about:

    - [calculateAudioLevel]: the signal level of one PCM chunk;
    - [isSourceInactive], [updateAudioLevels], [checkSourceActivity] and
      [initializeLevelsData]: the per-connection level registry;
    - [cleanRTSPUrl]: the display name of a network stream;
    - [ReconfigureRTSPStreams]: the diff of desired against active streams.

    and of what these rest on or are used by:

    - [AudioLevelSSE] and [sendLevelsUpdate]: the handler of one client's
      connection;
    - [ListAudioSources], [SetAudioDevice], [ValidateAudioDevice],
      [selectCaptureSource] and [hexToASCII]: the choice of the capture
      device;
    - [GenerateAuthCode], [ExchangeAuthCode], [ValidateAccessToken] and
      [IsInLocalSubnet] of package [security], on which the access check of
      the handler rests.

    Go [float64] values are Rocq's primitive binary64 floats, so every
    arithmetic step rounds exactly as the compiled program does;
    [math.Log10], which lives in Go's runtime library, is a parameter
    constrained by its documented special cases.  Go maps are [gmap]s,
    [sync.Map]s used as sets are [gset]s, strings are [string]s (one
    [ascii] per byte) and byte slices are lists of [byte]. *)

From Stdlib Require Import ZArith List Lia Bool.
From Stdlib Require Import Floats Uint63.
From Stdlib.Strings Require Import Byte Ascii String.
From stdpp Require Import gmap strings list fin_maps pretty.
Import ListNotations.
Open Scope Z_scope.

#[local] Set Warnings "-clear-no-such-hyp".

(** ** Go [float64] operations that are not primitive in Rocq *)

Module Float64.

(** [float64(n)] for an integer [n]: exact up to 2^53, rounded to nearest
    beyond.  Go's [int] is 64 bits wide; the conversion below is the
    machine's for [|n| < 2^63]. *)
Definition of_int (z : Z) : float :=
  if z <? 0 then PrimFloat.opp (PrimFloat.of_uint63 (Uint63.of_Z (- z)))
  else PrimFloat.of_uint63 (Uint63.of_Z z).

(** [math.Max]: +Inf wins, then NaN is contagious, then the zeros are
    ordered by sign, otherwise the usual comparison. *)
Definition Max (x y : float) : float :=
  if PrimFloat.eqb x PrimFloat.infinity || PrimFloat.eqb y PrimFloat.infinity
  then PrimFloat.infinity
  else if PrimFloat.is_nan x || PrimFloat.is_nan y then PrimFloat.nan
  else if PrimFloat.eqb x PrimFloat.zero && PrimFloat.eqb x y
  then (if PrimFloat.get_sign x then y else x)
  else if PrimFloat.ltb y x then x else y.

(** What the conversion [int(f)] yields when [f] is NaN, infinite or out
    of range.  Go leaves it to the implementation; this is amd64's
    "integer indefinite".  No result below depends on the value. *)
Definition int_indefinite : Z := - 2 ^ 63.

(** [int(f)]: truncation toward zero. *)
Definition to_int (f : float) : Z :=
  match Prim2SF f with
  | S754_zero _ => 0
  | S754_finite s m e =>
      let v := cond_Zopp s (Z.shiftl (Zpos m) e) in
      if (- 2 ^ 63 <=? v) && (v <? 2 ^ 63) then v else int_indefinite
  | S754_infinity _ | S754_nan => int_indefinite
  end.

End Float64.

(** ** [myaudio.AudioLevelData] *)

Record AudioLevelData := mkAudioLevelData {
  Level : Z;          (* 0-100 *)
  Clipping : bool;    (* true if clipping is detected *)
  Source : string;    (* "malgo" for the device, or the RTSP URL *)
  Name : string       (* human-readable name of the source *)
}.

(** ** [calculateAudioLevel] *)

Definition byte_val (b : byte) : Z := Z.of_N (Byte.to_N b).

(** [binary.LittleEndian.Uint16(samples[i : i+2])] *)
Definition LittleEndian_Uint16 (b0 b1 : byte) : Z :=
  Z.lor (byte_val b0) (Z.shiftl (byte_val b1) 8).

(** The conversion [int16(u)] of a 16-bit unsigned value: two's complement. *)
Definition int16 (u : Z) : Z :=
  let w := u mod 65536 in if w <? 32768 then w else w - 65536.

(** The variables the sample loop updates. *)
Record LoopState := mkLoopState {
  sum : float;
  maxSample : float;
  isClipping : bool
}.

Definition loopInit : LoopState :=
  {| sum := PrimFloat.zero; maxSample := PrimFloat.zero; isClipping := false |}.

(** One iteration of the loop body, for the sample made of [b0] and [b1]. *)
Definition sampleStep (b0 b1 : byte) (st : LoopState) : LoopState :=
  let sample := int16 (LittleEndian_Uint16 b0 b1) in
  let sampleAbs := PrimFloat.abs (Float64.of_int sample) in
  {| sum := PrimFloat.add (sum st) (PrimFloat.mul sampleAbs sampleAbs);
     maxSample := if PrimFloat.ltb (maxSample st) sampleAbs
                  then sampleAbs else maxSample st;
     isClipping := if (sample =? 32767) || (sample =? -32768)
                   then true else isClipping st |}.

(** [for i := 0; i < len(samples); i += 2]: the loop ends when the bytes
    are used up, or by [break] when only one byte is left. *)
Fixpoint sampleLoop (samples : list byte) (st : LoopState) : LoopState :=
  match samples with
  | b0 :: b1 :: rest => sampleLoop rest (sampleStep b0 b1 st)
  | _ => st
  end.

(** [scaledLevel := (db + 60) * (100.0 / 50.0)] *)
Definition scaleDecibels (db : float) : float :=
  PrimFloat.mul (PrimFloat.add db 60%float) (PrimFloat.div 100%float 50%float).

(** The clamp of [scaledLevel] to 0..100. *)
Definition clampLevel (scaledLevel : float) : float :=
  if PrimFloat.ltb scaledLevel 0%float then 0%float
  else if PrimFloat.ltb 100%float scaledLevel then 100%float
  else scaledLevel.

(** Everything [calculateAudioLevel] does with the decibel value: scale,
    raise to 95 when clipping, clamp, convert to [int]. *)
Definition levelOfDecibels (db : float) (clipping : bool) : Z :=
  let scaledLevel := scaleDecibels db in
  let scaledLevel :=
    if clipping then Float64.Max scaledLevel 95%float else scaledLevel in
  Float64.to_int (clampLevel scaledLevel).

(** [db := 20 * math.Log10(rms/32768.0)] with
    [rms := math.Sqrt(sum / float64(sampleCount))]. *)
Definition decibels (Log10 : float -> float) (sum : float) (sampleCount : Z)
  : float :=
  let rms := PrimFloat.sqrt (PrimFloat.div sum (Float64.of_int sampleCount)) in
  PrimFloat.mul 20%float (Log10 (PrimFloat.div rms 32768%float)).

Definition calculateAudioLevel (Log10 : float -> float)
    (samples : list byte) (source name : string) : AudioLevelData :=
  if (length samples =? 0)%nat then
    {| Level := 0; Clipping := false; Source := source; Name := name |}
  else
    let samples :=
      if negb (length samples mod 2 =? 0)%nat
      then firstn (length samples - 1) samples   (* samples[:len(samples)-1] *)
      else samples in
    let sampleCount := Z.of_nat (length samples / 2) in
    let st := sampleLoop samples loopInit in
    if sampleCount =? 0 then
      {| Level := 0; Clipping := false; Source := source; Name := name |}
    else
      let db := decibels Log10 (sum st) sampleCount in
      {| Level := levelOfDecibels db (isClipping st);
         Clipping := isClipping st;
         Source := source;
         Name := name |}.

(** The 16-bit samples of a chunk, as the loop reads them: consecutive
    little-endian pairs, a trailing single byte left out. *)
Fixpoint pcmSamples (samples : list byte) : list Z :=
  match samples with
  | b0 :: b1 :: rest => int16 (LittleEndian_Uint16 b0 b1) :: pcmSamples rest
  | _ => []
  end.

(** A sample at the positive or negative end of the 16-bit range. *)
Definition isExtreme (sample : Z) : bool :=
  (sample =? 32767) || (sample =? -32768).

(** ** Classes of float values

    The theorems below follow a float through the computation by the shape
    of its IEEE 754 decoding [Prim2SF]. *)

Definition sf_signed (s : bool) (x : spec_float) : Prop :=
  match x with
  | S754_zero s' | S754_infinity s' | S754_finite s' _ _ => s' = s
  | S754_nan => False
  end.

(** Zero of either sign, a positive number or +Inf. *)
Definition sf_nonneg (x : spec_float) : Prop :=
  match x with
  | S754_zero _ | S754_infinity false | S754_finite false _ _ => True
  | _ => False
  end.

Definition sf_notnan (x : spec_float) : Prop :=
  match x with S754_nan => False | _ => True end.

(** A positive number: finite and not zero. *)
Definition sf_posfin (x : spec_float) : Prop :=
  match x with S754_finite false _ _ => True | _ => False end.

Definition sf_finite (x : spec_float) : Prop :=
  match x with S754_finite _ _ _ => True | _ => False end.

(** Zero of either sign or a positive number. *)
Definition sf_nnfin (x : spec_float) : Prop :=
  match x with S754_zero _ | S754_finite false _ _ => True | _ => False end.

(** Zero or a finite number, of either sign. *)
Definition sf_fz (x : spec_float) : Prop :=
  match x with S754_zero _ | S754_finite _ _ _ => True | _ => False end.

Definition notnan (f : float) : Prop := sf_notnan (Prim2SF f).
Definition nonneg (f : float) : Prop := sf_nonneg (Prim2SF f).

(** A piecewise-linear stand-in for [math.Log10], with the special cases
    the Go documentation lists for it (+Inf for +Inf, -Inf for 0, NaN for a
    negative or NaN argument).  Between powers of two it interpolates the
    binary logarithm linearly.  It serves to run the level computation on
    concrete chunks; the theorems hold for every function with these special
    cases. *)
Definition Log10_pwl (x : float) : float :=
  if PrimFloat.is_nan x then x
  else if PrimFloat.eqb x PrimFloat.infinity then x
  else if PrimFloat.ltb x 0%float then PrimFloat.nan
  else if PrimFloat.eqb x 0%float then PrimFloat.neg_infinity
  else
    let (frac, exp) := FloatOps.Z.frexp x in
    let log2 := PrimFloat.add (Float64.of_int exp)
                  (PrimFloat.sub (PrimFloat.mul 2%float frac) 2%float) in
    (* Ln2 / Ln10 *)
    PrimFloat.mul log2 0x1.34413509f79ffp-2%float.




(** ** Floats against numbers

    The number [m * 2^e] in units of [2^-1200], an integer for every
    exponent a binary64 operation meets. *)
Definition units (m e : Z) : Z := m * 2 ^ (e + 1200).



(** ** [cleanRTSPUrl] *)

(** [for i := start; i < len(url); i++ { if url[i] == c { idx = i; break } }]
    with [fuel] iterations left; [None] stands for the initial [-1]. *)
Fixpoint indexByteLoop (c : ascii) (url : string) (i fuel : nat) : option nat :=
  match fuel with
  | O => None
  | S fuel' =>
      match String.get i url with
      | Some b => if Ascii.eqb b c then Some i
                  else indexByteLoop c url (S i) fuel'
      | None => None
      end
  end.

Definition indexByteFrom (c : ascii) (url : string) (start : nat) : option nat :=
  indexByteLoop c url start (String.length url - start).

Definition cleanRTSPUrl (url : string) : string :=
  (* Find the @ symbol that separates credentials from host *)
  let url :=
    match indexByteFrom "@" url (String.length "rtsp://") with
    | Some atIndex =>
        (* "rtsp://" + url[atIndex+1:] *)
        "rtsp://" +:+
          String.substring (atIndex + 1) (String.length url - (atIndex + 1)) url
    | None => url
    end in
  (* Find the first slash after the host:port *)
  match indexByteFrom "/" url (String.length "rtsp://") with
  | Some slashIndex => String.substring 0 slashIndex url   (* url[:slashIndex] *)
  | None => url
  end.

(** The first position of [c] in [s], by recursion on the string. *)
Fixpoint findByte (c : ascii) (s : string) : option nat :=
  match s with
  | EmptyString => None
  | String a s' => if Ascii.eqb a c then Some O else option_map S (findByte c s')
  end.

(** The part of [s] before its first ['/'], all of [s] if it has none. *)
Definition hostPart (s : string) : string :=
  match findByte "/" s with
  | Some j => String.substring 0 j s
  | None => s
  end.



(** ** The level registry of one SSE connection *)

(** A [time.Time] is an instant in nanoseconds.  A [time.Duration] is a
    signed 64-bit count of nanoseconds, and [Time.Sub] saturates at its
    bounds. *)
Abbreviation Time := Z (only parsing).
Abbreviation Duration := Z (only parsing).

Definition time_Second : Duration := 1000000000.
Definition minDuration : Duration := - 2 ^ 63.
Definition maxDuration : Duration := 2 ^ 63 - 1.

Definition Time_Sub (t u : Time) : Duration :=
  Z.max minDuration (Z.min maxDuration (t - u)).

(** [const inactivityThreshold = 15 * time.Second] in [AudioLevelSSE]. *)
Definition inactivityThreshold : Duration := 15 * time_Second.

(** The fields of [conf.Settings] that the handlers read. *)
Record Settings := mkSettings {
  Audio_Source : string;        (* Realtime.Audio.Source *)
  RTSP_URLs : list string;      (* Realtime.RTSP.URLs *)
  RTSP_Transport : string       (* Realtime.RTSP.Transport *)
}.

(** The three maps [initializeLevelsData] creates. *)
Record Registry := mkRegistry {
  levels : gmap string AudioLevelData;
  lastUpdateTime : gmap string Time;
  lastNonZeroTime : gmap string Time
}.

Definition setLevel (l : Z) (d : AudioLevelData) : AudioLevelData :=
  {| Level := l; Clipping := Clipping d; Source := Source d; Name := Name d |}.

Definition setName (n : string) (d : AudioLevelData) : AudioLevelData :=
  {| Level := Level d; Clipping := Clipping d; Source := Source d; Name := n |}.

(** [fmt.Sprintf("camera-%d", i+1)] *)
Definition cameraName (i : nat) : string := "camera-" +:+ pretty (i + 1)%nat.

(** The body of [for i, url := range h.Settings.Realtime.RTSP.URLs] in
    [initializeLevelsData]; [now] is the reading of [time.Now()] in that
    iteration. *)
Definition addRTSPSource (isAuthenticated : bool) (now : Time)
    (i : nat) (url : string) (r : Registry) : Registry :=
  let displayName :=
    if isAuthenticated then cleanRTSPUrl url else cameraName i in
  {| levels := <[url := {| Level := 0; Clipping := false;
                           Source := url; Name := displayName |}]> (levels r);
     lastUpdateTime := <[url := now]> (lastUpdateTime r);
     lastNonZeroTime := <[url := now]> (lastNonZeroTime r) |}.

Fixpoint addRTSPSources (isAuthenticated : bool) (clock : nat -> Time)
    (i : nat) (urls : list string) (r : Registry) : Registry :=
  match urls with
  | [] => r
  | url :: rest =>
      addRTSPSources isAuthenticated clock (S i) rest
        (addRTSPSource isAuthenticated (clock (S i)) i url r)
  end.

(** [initializeLevelsData].  [clock 0] is what [time.Now()] returns for the
    audio device and [clock (i+1)] what it returns for the [i]-th URL. *)
Definition initializeLevelsData (settings : Settings) (isAuthenticated : bool)
    (clock : nat -> Time) : Registry :=
  let r := {| levels := ∅; lastUpdateTime := ∅; lastNonZeroTime := ∅ |} in
  let r :=
    if negb (String.eqb (Audio_Source settings) "") then
      let sourceName :=
        if negb isAuthenticated then "audio-source-1"%string
        else Audio_Source settings in
      {| levels := <["malgo"%string := {| Level := 0; Clipping := false;
                                 Source := "malgo"; Name := sourceName |}]>
                     (levels r);
         lastUpdateTime := <["malgo"%string := clock O]> (lastUpdateTime r);
         lastNonZeroTime := <["malgo"%string := clock O]> (lastNonZeroTime r) |}
    else r in
  addRTSPSources isAuthenticated clock 0 (RTSP_URLs settings) r.

(** [isSourceInactive] *)
Definition isSourceInactive (source : string) (now : Time)
    (lastUpdateTime lastNonZeroTime : gmap string Time)
    (inactivityThreshold : Duration) : bool :=
  match lastUpdateTime !! source, lastNonZeroTime !! source with
  | Some lastUpdate, Some lastNonZero =>
      let noUpdateTimeout := inactivityThreshold <? Time_Sub now lastUpdate in
      let noActivityTimeout := inactivityThreshold <? Time_Sub now lastNonZero in
      noUpdateTimeout || noActivityTimeout
  | _, _ => false   (* Consider new sources as active initially *)
  end.

(** The loop of [updateAudioLevels] that names a camera by its position
    in the settings; the name is left as it is when no URL matches. *)
Fixpoint cameraNameOf (urls : list string) (i : nat) (source name : string)
  : string :=
  match urls with
  | [] => name
  | url :: rest =>
      if String.eqb url source then cameraName i
      else cameraNameOf rest (S i) source name
  end.

(** [updateAudioLevels]; [now] is the reading of [time.Now()]. *)
Definition updateAudioLevels (settings : Settings) (audioData : AudioLevelData)
    (r : Registry) (isAuthenticated : bool) (inactivityThreshold : Duration)
    (now : Time) : Registry :=
  let name :=
    if String.eqb (Source audioData) "malgo" then
      if isAuthenticated then Audio_Source settings else "audio-source-1"%string
    else
      if isAuthenticated then cleanRTSPUrl (Source audioData)
      else cameraNameOf (RTSP_URLs settings) 0 (Source audioData)
             (Name audioData) in
  let audioData := setName name audioData in
  (* Update activity times *)
  let lastUpdateTime := <[Source audioData := now]> (lastUpdateTime r) in
  let lastNonZeroTime :=
    if 0 <? Level audioData
    then <[Source audioData := now]> (lastNonZeroTime r)
    else lastNonZeroTime r in
  (* Keep the current level unless the source is truly inactive *)
  let levels :=
    if negb (isSourceInactive (Source audioData) now lastUpdateTime
               lastNonZeroTime inactivityThreshold)
    then <[Source audioData := audioData]> (levels r)
    else <[Source audioData := setLevel 0 audioData]> (levels r) in
  {| levels := levels; lastUpdateTime := lastUpdateTime;
     lastNonZeroTime := lastNonZeroTime |}.

(** The body of the loop of [checkSourceActivity] for one entry of the
    map; the accumulator is the map being updated and the [updated] flag. *)
Definition checkSource (now : Time) (lastUpdateTime lastNonZeroTime : gmap string Time)
    (inactivityThreshold : Duration)
    (source : string) (data : AudioLevelData)
    (acc : gmap string AudioLevelData * bool) : gmap string AudioLevelData * bool :=
  if isSourceInactive source now lastUpdateTime lastNonZeroTime inactivityThreshold
     && negb (Level data =? 0)
  then (<[source := setLevel 0 data]> (fst acc), true)
  else acc.

(** [checkSourceActivity]: the updated map and the flag it returns. *)
Definition checkSourceActivity (levels : gmap string AudioLevelData)
    (lastUpdateTime lastNonZeroTime : gmap string Time)
    (inactivityThreshold : Duration) (now : Time)
  : gmap string AudioLevelData * bool :=
  map_fold (checkSource now lastUpdateTime lastNonZeroTime inactivityThreshold)
    (levels, false) levels.







(** One entry of the map after [checkSourceActivity]. *)
Definition checkedEntry (now : Time) (lu lnz : gmap string Time)
    (threshold : Duration) (s : string) (d : AudioLevelData) : AudioLevelData :=
  if isSourceInactive s now lu lnz threshold && negb (Level d =? 0)
  then setLevel 0 d else d.


(** ** [ReconfigureRTSPStreams] *)

(** The buffer constants of package [conf]. *)
Record Conf := mkConf {
  BufferSize : Z;
  SampleRate : Z;
  BitDepth : Z
}.

(** The package-level state [ReconfigureRTSPStreams] works on. *)
Record Streams := mkStreams {
  ffmpegMonitor : bool;              (* [ffmpegMonitor != nil] *)
  activeStreams : gset string;       (* a [sync.Map] from URL to [true] *)
  ffmpegProcesses : gset string;     (* the URLs with a [*FFmpegProcess] *)
  analysisBuffers : gmap string Z;   (* URL to capacity in bytes *)
  captureBuffers : gmap string Z
}.

Inductive BufferError := DuplicateSource | ResourceExhausted | NotFound.

Inductive BufferKind := AnalysisKind | CaptureKind.

(** The lines [ReconfigureRTSPStreams] writes with [log.Printf]. *)
Inductive LogLine :=
| LogStreamRemoved (url : string)
| LogRemoveAnalysisFailed (url : string)
| LogRemoveCaptureFailed (url : string)
| LogInitAnalysisFailed (url : string)
| LogCleanupFailed (url : string)
| LogInitCaptureFailed (url : string).

(** What a call does, in order.  [EvAwaitDrain] is a blocking receive of
    the drain acknowledgment of a stream's writer, the step the
    stop-before-free rule asks for; it is here so that the rule can be
    stated, no function below performs it. *)
Inductive Event :=
| EvMonitorStart
| EvMonitorStop
| EvCleanup (url : string)                  (* [p.Cleanup(url)] *)
| EvSleep (d : Duration)                    (* [time.Sleep(d)] *)
| EvDeactivate (url : string)               (* [activeStreams.Delete(url)] *)
| EvLog (line : LogLine)
| EvRemoveAnalysisBuffer (url : string) (err : option BufferError)
| EvRemoveCaptureBuffer (url : string) (err : option BufferError)
| EvAllocateAnalysisBuffer (url : string) (err : option BufferError)
| EvAllocateCaptureBuffer (url : string) (err : option BufferError)
| EvActivate (url : string)                 (* [activeStreams.Store(url, true)] *)
| EvSpawn (url transport : string)          (* [go CaptureAudioRTSP(url, transport, ...)] *)
| EvAwaitDrain (url : string).

(** A statement: from the state to a result, the new state and the
    events it adds. *)
Definition Prog (A : Type) : Type := Streams -> A * Streams * list Event.

Definition ret {A} (a : A) : Prog A := fun s => (a, s, []).

Definition bind {A B} (m : Prog A) (k : A -> Prog B) : Prog B :=
  fun s =>
    let '(a, s1, t1) := m s in
    let '(b, s2, t2) := k a s1 in
    (b, s2, t1 ++ t2).

Notation "x <- m ;; k" := (bind m (fun x => k))
  (at level 20, m at level 99, k at level 200, only parsing).
Notation "m ;; k" := (bind m (fun _ => k))
  (at level 100, k at level 200, only parsing, right associativity).

Definition emit (e : Event) : Prog unit := fun s => (tt, s, [e]).
Definition gets {A} (f : Streams -> A) : Prog A := fun s => (f s, s, []).

Definition when (b : bool) (m : Prog unit) : Prog unit :=
  if b then m else ret tt.

(** [for _, x := range l { body }] *)
Fixpoint forEach {A} (l : list A) (body : A -> Prog unit) : Prog unit :=
  match l with
  | [] => ret tt
  | x :: rest => body x ;; forEach rest body
  end.

(** [for i, x := range l { body }], [i] counting from [i0]. *)
Fixpoint forEachIndexed {A} (i0 : nat) (l : list A)
    (body : nat -> A -> Prog unit) : Prog unit :=
  match l with
  | [] => ret tt
  | x :: rest => body i0 x ;; forEachIndexed (S i0) rest body
  end.

Definition execProg {A} (m : Prog A) (s : Streams) : Streams := snd (fst (m s)).
Definition traceProg {A} (m : Prog A) (s : Streams) : list Event := snd (m s).

Definition setMonitor (b : bool) (s : Streams) : Streams :=
  {| ffmpegMonitor := b; activeStreams := activeStreams s;
     ffmpegProcesses := ffmpegProcesses s;
     analysisBuffers := analysisBuffers s; captureBuffers := captureBuffers s |}.

Definition setActive (a : gset string) (s : Streams) : Streams :=
  {| ffmpegMonitor := ffmpegMonitor s; activeStreams := a;
     ffmpegProcesses := ffmpegProcesses s;
     analysisBuffers := analysisBuffers s; captureBuffers := captureBuffers s |}.

Definition setProcesses (p : gset string) (s : Streams) : Streams :=
  {| ffmpegMonitor := ffmpegMonitor s; activeStreams := activeStreams s;
     ffmpegProcesses := p;
     analysisBuffers := analysisBuffers s; captureBuffers := captureBuffers s |}.

Definition setAnalysisBuffers (m : gmap string Z) (s : Streams) : Streams :=
  {| ffmpegMonitor := ffmpegMonitor s; activeStreams := activeStreams s;
     ffmpegProcesses := ffmpegProcesses s;
     analysisBuffers := m; captureBuffers := captureBuffers s |}.

Definition setCaptureBuffers (m : gmap string Z) (s : Streams) : Streams :=
  {| ffmpegMonitor := ffmpegMonitor s; activeStreams := activeStreams s;
     ffmpegProcesses := ffmpegProcesses s;
     analysisBuffers := analysisBuffers s; captureBuffers := m |}.

(** [ffmpegMonitor = NewDefaultFFmpegMonitor(); ffmpegMonitor.Start()] *)
Definition monitorStart : Prog unit :=
  fun s => (tt, setMonitor true s, [EvMonitorStart]).

(** [ffmpegMonitor.Stop(); ffmpegMonitor = nil].  The code of
    [FFmpegMonitor.Stop] is not in the sources at hand, and the
    specification has no monitor to take it from: what the call does to
    the streams, their processes and their buffers is the parameter
    [stop].  The assignment of [nil] comes after it. *)
Definition monitorStop (stop : Streams -> Streams) : Prog unit :=
  fun s => (tt, setMonitor false (stop s), [EvMonitorStop]).

Definition activeStreams_Delete (url : string) : Prog unit :=
  fun s => (tt, setActive (activeStreams s ∖ {[url]}) s, [EvDeactivate url]).

Definition activeStreams_Store (url : string) : Prog unit :=
  fun s => (tt, setActive ({[url]} ∪ activeStreams s) s, [EvActivate url]).

Definition time_Sleep (d : Duration) : Prog unit := emit (EvSleep d).
Definition logLine (line : LogLine) : Prog unit := emit (EvLog line).

(** [go CaptureAudioRTSP(url, ...)]: the goroutine runs on its own; the
    call only starts it. *)
Definition spawnCapture (url transport : string) : Prog unit :=
  emit (EvSpawn url transport).

(** Modelled from the spec: [FFmpegProcess.Cleanup], whose code is not in
    the sources at hand.  "Terminates the process and blocks until reaping
    completes": the stream has no decoder process afterwards. *)
Definition FFmpegProcess_Cleanup (url : string) : Prog unit :=
  fun s => (tt, setProcesses (ffmpegProcesses s ∖ {[url]}) s, [EvCleanup url]).

(** Modelled from the spec: [AllocateAnalysisBuffer], whose code is not in
    the sources at hand.  It reserves a buffer for the source; it fails
    with [DuplicateSource] if the source has one already, and with an
    allocation error when the reservation cannot be made ([exhausted], a
    fact of the environment at the time of the call). *)
Definition AllocateAnalysisBuffer (exhausted : bool) (capacity : Z)
    (url : string) : Prog (option BufferError) :=
  fun s =>
    let err :=
      if bool_decide (is_Some (analysisBuffers s !! url)) then Some DuplicateSource
      else if exhausted then Some ResourceExhausted else None in
    (err,
     match err with
     | None => setAnalysisBuffers (<[url := capacity]> (analysisBuffers s)) s
     | Some _ => s
     end,
     [EvAllocateAnalysisBuffer url err]).

(** Modelled from the spec: [AllocateCaptureBuffer], like
    [AllocateAnalysisBuffer]; the capacity is
    [durationSeconds * sampleRate * bytesPerSample]. *)
Definition AllocateCaptureBuffer (exhausted : bool)
    (durationSeconds sampleRate bytesPerSample : Z) (url : string)
  : Prog (option BufferError) :=
  fun s =>
    let err :=
      if bool_decide (is_Some (captureBuffers s !! url)) then Some DuplicateSource
      else if exhausted then Some ResourceExhausted else None in
    (err,
     match err with
     | None =>
         setCaptureBuffers
           (<[url := durationSeconds * sampleRate * bytesPerSample]>
              (captureBuffers s)) s
     | Some _ => s
     end,
     [EvAllocateCaptureBuffer url err]).

(** Modelled from the spec: [RemoveAnalysisBuffer], whose code is not in
    the sources at hand.  It frees the buffer of the source, and fails
    with [NotFound] if the source has none. *)
Definition RemoveAnalysisBuffer (url : string) : Prog (option BufferError) :=
  fun s =>
    let err := if bool_decide (is_Some (analysisBuffers s !! url))
               then None else Some NotFound in
    (err, setAnalysisBuffers (delete url (analysisBuffers s)) s,
     [EvRemoveAnalysisBuffer url err]).

(** Modelled from the spec: [RemoveCaptureBuffer], like
    [RemoveAnalysisBuffer]. *)
Definition RemoveCaptureBuffer (url : string) : Prog (option BufferError) :=
  fun s =>
    let err := if bool_decide (is_Some (captureBuffers s !! url))
               then None else Some NotFound in
    (err, setCaptureBuffers (delete url (captureBuffers s)) s,
     [EvRemoveCaptureBuffer url err]).

Definition isErr (err : option BufferError) : bool :=
  match err with Some _ => true | None => false end.

(** [100 * time.Millisecond] *)
Definition graceSleep : Duration := 100 * 1000000.

(** The inner loop that looks [url] up in the settings:
    [found] after [for _, newURL := range URLs]. *)
Fixpoint foundIn (url : string) (urls : list string) : bool :=
  match urls with
  | [] => false
  | newURL :: rest => if String.eqb url newURL then true else foundIn url rest
  end.

(** The body of [for url := range currentStreams]: stop a stream that is
    no longer in the settings. *)
Definition stopStream (settings : Settings) (url : string) : Prog unit :=
  when (negb (foundIn url (RTSP_URLs settings)))
    (exists_ <- gets (fun s => bool_decide (url ∈ ffmpegProcesses s));;
     when exists_
       ((* Stop the FFmpeg process first *)
        FFmpegProcess_Cleanup url ;;
        (* Wait a short time for the process to fully stop *)
        time_Sleep graceSleep) ;;
     (* Mark stream as inactive before removing buffers *)
     activeStreams_Delete url ;;
     logLine (LogStreamRemoved url) ;;
     (* Wait a short time for any in-flight writes to complete *)
     time_Sleep graceSleep ;;
     (* Now it's safe to remove the buffers *)
     err <- RemoveAnalysisBuffer url;;
     when (isErr err) (logLine (LogRemoveAnalysisFailed url)) ;;
     err <- RemoveCaptureBuffer url;;
     when (isErr err) (logLine (LogRemoveCaptureFailed url))).

(** The body of [for _, url := range settings.Realtime.RTSP.URLs]: start
    a stream that is not active.  [exhausted i kind] tells whether the
    environment refuses the reservation of a buffer of that kind in
    iteration [i].  Each [continue] of the source ends the body. *)
Definition startStream (conf : Conf) (exhausted : nat -> BufferKind -> bool)
    (settings : Settings) (i : nat) (url : string) : Prog unit :=
  (* Check if stream is already active *)
  active <- gets (fun s => bool_decide (url ∈ activeStreams s));;
  if active then ret tt
  else
    abExists <- gets (fun s => bool_decide (is_Some (analysisBuffers s !! url)));;
    cbExists <- gets (fun s => bool_decide (is_Some (captureBuffers s !! url)));;
    (* Initialize analysis buffer if it doesn't exist *)
    errA <- (if negb abExists
             then AllocateAnalysisBuffer (exhausted i AnalysisKind)
                    (BufferSize conf * 3) url
             else ret None);;
    if isErr errA then logLine (LogInitAnalysisFailed url)
    else
      (* Initialize capture buffer if it doesn't exist *)
      errC <- (if negb cbExists
               then AllocateCaptureBuffer (exhausted i CaptureKind)
                      60 (SampleRate conf) (BitDepth conf / 8) url
               else ret None);;
      if isErr errC then
        when (negb abExists)
          (err <- RemoveCaptureBuffer url;;
           when (isErr err) (logLine (LogCleanupFailed url))) ;;
        logLine (LogInitCaptureFailed url)
      else
        (* New stream, start it *)
        activeStreams_Store url ;;
        spawnCapture url (RTSP_Transport settings).

(** The first loop: stop the streams that are no longer in the settings.
    [currentStreams] is a snapshot of the keys of [activeStreams]; Go does
    not say in which order [Range] and the loop over a map visit the keys,
    [visit] is that order. *)
Definition stopRemovedStreams (visit : gset string -> list string)
    (settings : Settings) : Prog unit :=
  currentStreams <- gets (fun s => visit (activeStreams s));;
  forEach currentStreams (stopStream settings).

(** The second loop: start the streams of the settings that are not
    active. *)
Definition startNewStreams (conf : Conf)
    (exhausted : nat -> BufferKind -> bool) (settings : Settings) : Prog unit :=
  forEachIndexed 0 (RTSP_URLs settings) (startStream conf exhausted settings).

Definition ReconfigureRTSPStreams (stop : Streams -> Streams) (conf : Conf)
    (exhausted : nat -> BufferKind -> bool) (visit : gset string -> list string)
    (settings : Settings) : Prog unit :=
  if (length (RTSP_URLs settings) =? 0)%nat then
    (* no RTSP URLs configured: stop the FFmpeg monitor if it is running *)
    running <- gets ffmpegMonitor;;
    when running (monitorStop stop)
  else
    (* Initialize FFmpeg monitor if not already running *)
    running <- gets ffmpegMonitor;;
    when (negb running) monitorStart ;;
    (* Stop streams that are no longer in settings *)
    stopRemovedStreams visit settings ;;
    (* Start new streams *)
    startNewStreams conf exhausted settings.

(** The URL an event is about. *)
Definition eventUrl (e : Event) : option string :=
  match e with
  | EvMonitorStart | EvMonitorStop | EvSleep _ => None
  | EvLog (LogStreamRemoved url) | EvLog (LogRemoveAnalysisFailed url)
  | EvLog (LogRemoveCaptureFailed url) | EvLog (LogInitAnalysisFailed url)
  | EvLog (LogCleanupFailed url) | EvLog (LogInitCaptureFailed url)
  | EvCleanup url | EvDeactivate url
  | EvRemoveAnalysisBuffer url _ | EvRemoveCaptureBuffer url _
  | EvAllocateAnalysisBuffer url _ | EvAllocateCaptureBuffer url _
  | EvActivate url | EvSpawn url _ | EvAwaitDrain url => Some url
  end.

(** The event frees a buffer of [url]. *)
Definition isFree (url : string) (e : Event) : Prop :=
  e = EvRemoveAnalysisBuffer url None \/ e = EvRemoveCaptureBuffer url None.

(** The allocation of a buffer for [url] was attempted. *)
Definition isAllocation (url : string) (e : Event) : Prop :=
  exists err, e = EvAllocateAnalysisBuffer url err \/
              e = EvAllocateCaptureBuffer url err.

(** The allocation of a buffer for [url] failed. *)
Definition isAllocationFailure (url : string) (e : Event) : Prop :=
  exists err, e = EvAllocateAnalysisBuffer url (Some err) \/
              e = EvAllocateCaptureBuffer url (Some err).

(** The failure to set up the buffers of [url] was logged. *)
Definition isFailureLog (url : string) (e : Event) : Prop :=
  e = EvLog (LogInitAnalysisFailed url) \/ e = EvLog (LogInitCaptureFailed url).

(** The stop-before-free rule of the specification, on a trace: whenever
    a buffer of a source is freed, the drain acknowledgment of its writer
    was awaited before. *)
Definition drainAckBeforeFree (trace : list Event) : Prop :=
  forall (i : nat) e url,
    trace !! i = Some e -> isFree url e ->
    exists j, (j < i)%nat /\ trace !! j = Some (EvAwaitDrain url).

(** What the code does instead: whenever a buffer of a source is freed,
    the source was taken out of the active streams before and a sleep of
    100 ms followed. *)
Definition sleepBeforeFree (trace : list Event) : Prop :=
  forall (i : nat) e url,
    trace !! i = Some e -> isFree url e ->
    exists j k, (j < k < i)%nat /\
                trace !! j = Some (EvDeactivate url) /\
                trace !! k = Some (EvSleep graceSleep).

(** What a stream is to the registry: whether it is active, and its two
    buffers. *)
Definition streamView (url : string) (s : Streams)
  : bool * option Z * option Z :=
  (bool_decide (url ∈ activeStreams s),
   analysisBuffers s !! url, captureBuffers s !! url).

(** ** Concrete inputs for the examples *)

(** 48 kHz, 16 bit, and a three-second buffer of it. *)
Definition sampleConf : Conf :=
  {| BufferSize := 288000; SampleRate := 48000; BitDepth := 16 |}.

Definition neverExhausted (i : nat) (kind : BufferKind) : bool := false.

(** The reservation of the analysis buffer fails in the first iteration. *)
Definition firstExhausted (i : nat) (kind : BufferKind) : bool :=
  match i, kind with
  | O, AnalysisKind => true
  | _, _ => false
  end.

(** A [FFmpegMonitor.Stop] that ends the monitor and touches nothing
    else. *)
Definition monitorOnly (s : Streams) : Streams := s.

Definition noStreams : Streams :=
  {| ffmpegMonitor := false; activeStreams := ∅; ffmpegProcesses := ∅;
     analysisBuffers := ∅; captureBuffers := ∅ |}.

(** One stream is running, with its decoder and its two buffers. *)
Definition oneStream : Streams :=
  {| ffmpegMonitor := true;
     activeStreams := {["rtsp://old/live"]};
     ffmpegProcesses := {["rtsp://old/live"]};
     analysisBuffers := {["rtsp://old/live" := 864000]};
     captureBuffers := {["rtsp://old/live" := 5760000]} |}.

Definition twoCameras : Settings :=
  {| Audio_Source := ""; RTSP_URLs := ["rtsp://a/live"; "rtsp://b/live"];
     RTSP_Transport := "tcp" |}.

(** Settings that name the same camera twice; nothing in the handler or
    in [ReconfigureRTSPStreams] removes duplicates from the list. *)
Definition sameCameraTwice : Settings :=
  {| Audio_Source := ""; RTSP_URLs := ["rtsp://a/live"; "rtsp://a/live"];
     RTSP_Transport := "tcp" |}.

(** ** The paths through [startStream]

    The state after each step of the body, named so that the outcome of
    an iteration can be written down case by case. *)

Definition withAnalysisBuffer (conf : Conf) (url : string) (s : Streams) : Streams :=
  setAnalysisBuffers (<[url := BufferSize conf * 3]> (analysisBuffers s)) s.

Definition withCaptureBuffer (conf : Conf) (url : string) (s : Streams) : Streams :=
  setCaptureBuffers
    (<[url := 60 * SampleRate conf * (BitDepth conf / 8)]> (captureBuffers s)) s.

Definition withoutCaptureBuffer (url : string) (s : Streams) : Streams :=
  setCaptureBuffers (delete url (captureBuffers s)) s.

Definition activated (url : string) (s : Streams) : Streams :=
  setActive ({[url]} ∪ activeStreams s) s.

Definition startOutcome (conf : Conf) (exhausted : nat -> BufferKind -> bool)
    (settings : Settings) (i : nat) (url : string) (s : Streams)
  : unit * Streams * list Event :=
  if bool_decide (url ∈ activeStreams s) then (tt, s, [])
  else
    match analysisBuffers s !! url, captureBuffers s !! url with
    | Some _, Some _ =>
        (tt, activated url s, [EvActivate url; EvSpawn url (RTSP_Transport settings)])
    | Some _, None =>
        if exhausted i CaptureKind then
          (tt, s, [EvAllocateCaptureBuffer url (Some ResourceExhausted);
                   EvLog (LogInitCaptureFailed url)])
        else
          (tt, activated url (withCaptureBuffer conf url s),
           [EvAllocateCaptureBuffer url None; EvActivate url; EvSpawn url (RTSP_Transport settings)])
    | None, Some _ =>
        if exhausted i AnalysisKind then
          (tt, s, [EvAllocateAnalysisBuffer url (Some ResourceExhausted);
                   EvLog (LogInitAnalysisFailed url)])
        else
          (tt, activated url (withAnalysisBuffer conf url s),
           [EvAllocateAnalysisBuffer url None; EvActivate url; EvSpawn url (RTSP_Transport settings)])
    | None, None =>
        if exhausted i AnalysisKind then
          (tt, s, [EvAllocateAnalysisBuffer url (Some ResourceExhausted);
                   EvLog (LogInitAnalysisFailed url)])
        else if exhausted i CaptureKind then
          (tt, withoutCaptureBuffer url (withAnalysisBuffer conf url s),
           [EvAllocateAnalysisBuffer url None;
            EvAllocateCaptureBuffer url (Some ResourceExhausted);
            EvRemoveCaptureBuffer url (Some NotFound);
            EvLog (LogCleanupFailed url); EvLog (LogInitCaptureFailed url)])
        else
          (tt, activated url (withCaptureBuffer conf url (withAnalysisBuffer conf url s)),
           [EvAllocateAnalysisBuffer url None; EvAllocateCaptureBuffer url None;
            EvActivate url; EvSpawn url (RTSP_Transport settings)])
    end.

(** The outcome of [stopStream], written down in one piece. *)
Definition stopOutcome (settings : Settings) (url : string) (s : Streams)
  : unit * Streams * list Event :=
  if foundIn url (RTSP_URLs settings) then (tt, s, [])
  else
    let hasProcess := bool_decide (url ∈ ffmpegProcesses s) in
    let errA := match analysisBuffers s !! url with
                | Some _ => None | None => Some NotFound end in
    let errC := match captureBuffers s !! url with
                | Some _ => None | None => Some NotFound end in
    (tt,
     {| ffmpegMonitor := ffmpegMonitor s;
        activeStreams := activeStreams s ∖ {[url]};
        ffmpegProcesses := if hasProcess then ffmpegProcesses s ∖ {[url]}
                           else ffmpegProcesses s;
        analysisBuffers := delete url (analysisBuffers s);
        captureBuffers := delete url (captureBuffers s) |},
     (if hasProcess then [EvCleanup url; EvSleep graceSleep] else []) ++
     [EvDeactivate url; EvLog (LogStreamRemoved url); EvSleep graceSleep;
      EvRemoveAnalysisBuffer url errA] ++
     (if isErr errA then [EvLog (LogRemoveAnalysisFailed url)] else []) ++
     [EvRemoveCaptureBuffer url errC] ++
     (if isErr errC then [EvLog (LogRemoveCaptureFailed url)] else [])).

(** The events of a trace that are about [v]. *)
Definition eventsAbout (v : string) (t : list Event) : list Event :=
  filter (fun e => eventUrl e = Some v) t.

(** The state in which the two loops run: the monitor has been started
    if it was not running. *)
Definition monitorEnsured (s : Streams) : Streams :=
  if ffmpegMonitor s then s else setMonitor true s.

(** The state between the two loops. *)
Definition stoppedState (visit : gset string -> list string)
    (settings : Settings) (s : Streams) : Streams :=
  execProg (forEach (visit (activeStreams s)) (stopStream settings))
    (monitorEnsured s).

(** ** [AudioLevelSSE]: one connection of a client

    The handler registers the client's address, sends the levels as they
    change and takes the registration back when it returns.  The clock,
    the channel, the timers and the socket are the environment: [clock]
    gives the successive readings of [time.Now()], [write] tells for each
    write to the response whether it fails, and the cases the [select]
    takes are a list. *)

(** [connectionTimeout], the duration of the timer whose firing is
    [SelTimeout] below. *)
Definition connectionTimeout : Duration := 65 * time_Second.

Definition time_Millisecond : Duration := 1000000.

(** The lines the handler logs. *)
Inductive SSELog :=
| LogRejectedDuplicate (clientIP : string)
| LogCleanedUp (clientIP : string)
| LogNewConnection (clientIP : string)
| LogInitialUpdateError (err : string)
| LogConnectionTimeout (clientIP : string)
| LogClientDisconnected (clientIP : string)
| LogReceivedAudioData (source : string) (level : Z) (name : string)
| LogUpdateError (err : string)
| LogHeartbeatError (err : string).

(** What the handler writes: log lines and the response. *)
Inductive Output :=
| OutLog (line : SSELog)
| OutNoContent (status : Z)      (* [c.NoContent(status)] *)
| OutHeaders                     (* [initializeSSEHeaders]: SSE headers, status 200 *)
| OutLevels (levels : gmap string AudioLevelData)
      (* [sendLevelsUpdate]: ["data: "], the message of type ["audio-level"]
         with these levels as JSON, a blank line, and a flush *)
| OutHeartbeat (unix : Z).       (* [": heartbeat %d"], a blank line, and a flush *)

(** The errors the handler returns: the error of a write as it is, or
    wrapped by [sendLevelsUpdate] ("error writing to client: %w"). *)
Inductive SSEError :=
| WriteError (cause : string)
| ErrWritingToClient (cause : string).

Definition SSEError_text (err : SSEError) : string :=
  match err with
  | WriteError cause => cause
  | ErrWritingToClient cause => "error writing to client: " +:+ cause
  end.

(** The cases of the [select] of the loop. *)
Inductive Select :=
| SelTimeout                                   (* [<-timeout.C] *)
| SelDone                                      (* [<-c.Request().Context().Done()] *)
| SelAudio (audioData : AudioLevelData) (isAuthenticated : bool)
      (* [<-h.AudioLevelChan], and what [h.Server.IsAccessAllowed(c)] says then *)
| SelActivity                                  (* [<-activityCheck.C] *)
| SelHeartbeat.                                (* [<-heartbeat.C] *)

(** The state outside the handler: the registered connections
    ([activeSSEConnections]), how many readings of the clock and how many
    writes have been made, and what has been written. *)
Record SSEWorld := mkSSEWorld {
  sse_connections : gmap string Time;
  sse_tick : nat;
  sse_writes : nat;
  sse_out : list Output
}.

(** The variables of the handler that the loop changes. *)
Record SSEConn := mkSSEConn {
  conn_registry : Registry;
  conn_lastLogTime : Time;
  conn_lastSentTime : Time
}.

Section Handler.

Variable settings : Settings.
Variable clock : nat -> Time.
Variable write : nat -> option string.

(** [time.Now()] *)
Definition time_Now (w : SSEWorld) : Time * SSEWorld :=
  (clock (sse_tick w),
   {| sse_connections := sse_connections w; sse_tick := S (sse_tick w);
      sse_writes := sse_writes w; sse_out := sse_out w |}).

Definition output (o : list Output) (w : SSEWorld) : SSEWorld :=
  {| sse_connections := sse_connections w; sse_tick := sse_tick w;
     sse_writes := sse_writes w; sse_out := sse_out w ++ o |}.

Definition setConnections (m : gmap string Time) (w : SSEWorld) : SSEWorld :=
  {| sse_connections := m; sse_tick := sse_tick w;
     sse_writes := sse_writes w; sse_out := sse_out w |}.

(** One write to the response: it fails with the error the environment
    gives for it, or puts [o] out. *)
Definition writeResponse (o : Output) (w : SSEWorld) : option string * SSEWorld :=
  let w' := {| sse_connections := sse_connections w; sse_tick := sse_tick w;
               sse_writes := S (sse_writes w); sse_out := sse_out w |} in
  match write (sse_writes w) with
  | Some cause => (Some cause, w')
  | None => (None, output [o] w')
  end.

(** [sendLevelsUpdate].  The message holds strings, integers and
    booleans only, so [json.Marshal] does not fail on it. *)
Definition sendLevelsUpdate (levels : gmap string AudioLevelData) (w : SSEWorld)
  : option SSEError * SSEWorld :=
  match writeResponse (OutLevels levels) w with
  | (Some cause, w') => (Some (ErrWritingToClient cause), w')
  | (None, w') => (None, w')
  end.

(** One turn of the loop: the variables and the world after it, and the
    value the handler returns if the turn ends it. *)
Definition sseTurn (clientIP : string) (ev : Select) (c : SSEConn) (w : SSEWorld)
  : SSEConn * SSEWorld * option (option SSEError) :=
  match ev with
  | SelTimeout =>
      (c, output [OutLog (LogConnectionTimeout clientIP)] w, Some None)
  | SelDone =>
      (c, output [OutLog (LogClientDisconnected clientIP)] w, Some None)
  | SelAudio audioData isAuthenticated =>
      let '(t, w) := time_Now w in
      let '(lastLogTime, w) :=
        if 5 * time_Second <? Time_Sub t (conn_lastLogTime c) then
          time_Now (output [OutLog (LogReceivedAudioData (Source audioData)
                                      (Level audioData) (Name audioData))] w)
        else (conn_lastLogTime c, w) in
      let '(now, w) := time_Now w in
      let r := updateAudioLevels settings audioData (conn_registry c)
                 isAuthenticated inactivityThreshold now in
      let '(t, w) := time_Now w in
      (* Only send updates if enough time has passed (rate limiting) *)
      if 50 * time_Millisecond <=? Time_Sub t (conn_lastSentTime c) then
        match sendLevelsUpdate (levels r) w with
        | (Some err, w) =>
            ({| conn_registry := r; conn_lastLogTime := lastLogTime;
                conn_lastSentTime := conn_lastSentTime c |},
             output [OutLog (LogUpdateError (SSEError_text err))] w,
             Some (Some err))
        | (None, w) =>
            let '(lastSentTime, w) := time_Now w in
            ({| conn_registry := r; conn_lastLogTime := lastLogTime;
                conn_lastSentTime := lastSentTime |}, w, None)
        end
      else
        ({| conn_registry := r; conn_lastLogTime := lastLogTime;
            conn_lastSentTime := conn_lastSentTime c |}, w, None)
  | SelActivity =>
      let '(now, w) := time_Now w in
      let '(lv, updated) :=
        checkSourceActivity (levels (conn_registry c))
          (lastUpdateTime (conn_registry c)) (lastNonZeroTime (conn_registry c))
          inactivityThreshold now in
      let c' := {| conn_registry :=
                     {| levels := lv;
                        lastUpdateTime := lastUpdateTime (conn_registry c);
                        lastNonZeroTime := lastNonZeroTime (conn_registry c) |};
                   conn_lastLogTime := conn_lastLogTime c;
                   conn_lastSentTime := conn_lastSentTime c |} in
      if updated then
        match sendLevelsUpdate lv w with
        | (Some err, w) =>
            (c', output [OutLog (LogUpdateError (SSEError_text err))] w,
             Some (Some err))
        | (None, w) => (c', w, None)
        end
      else (c', w, None)
  | SelHeartbeat =>
      let '(t, w) := time_Now w in
      match writeResponse (OutHeartbeat (t / time_Second)) w with
      | (Some cause, w) =>
          (c, output [OutLog (LogHeartbeatError cause)] w,
           Some (Some (WriteError cause)))
      | (None, w) => (c, w, None)
      end
  end.

(** The loop, over the cases its [select] takes.  [None] for the result
    means that the handler has not returned: it waits in the [select]. *)
Fixpoint sseLoop (clientIP : string) (events : list Select) (c : SSEConn)
    (w : SSEWorld) : SSEConn * SSEWorld * option (option SSEError) :=
  match events with
  | [] => (c, w, None)
  | ev :: rest =>
      match sseTurn clientIP ev c w with
      | (c', w', Some result) => (c', w', Some result)
      | (c', w', None) => sseLoop clientIP rest c' w'
      end
  end.

(** The deferred function of the handler. *)
Definition sseCleanup (clientIP : string) (w : SSEWorld) : SSEWorld :=
  output [OutLog (LogCleanedUp clientIP)]
    (setConnections (delete clientIP (sse_connections w)) w).

(** [AudioLevelSSE] for the client at [clientIP]; [isAuthenticated] is
    what [h.Server.IsAccessAllowed(c)] says when the levels are
    initialised.  The readings of the clock that [initializeLevelsData]
    takes are the next [1 + len(URLs)] ones. *)
Definition AudioLevelSSE (clientIP : string) (isAuthenticated : bool)
    (events : list Select) (w : SSEWorld)
  : SSEWorld * option (option SSEError) :=
  let '(t, w) := time_Now w in
  (* Check for existing connection *)
  match sse_connections w !! clientIP with
  | Some _ =>
      (output [OutLog (LogRejectedDuplicate clientIP); OutNoContent 429] w,
       Some None)
  | None =>
      let w := setConnections (<[clientIP := t]> (sse_connections w)) w in
      let w := output [OutLog (LogNewConnection clientIP); OutHeaders] w in
      let tick := sse_tick w in
      let r := initializeLevelsData settings isAuthenticated
                 (fun i => clock (tick + i)) in
      let w := {| sse_connections := sse_connections w;
                  sse_tick := tick + S (length (RTSP_URLs settings));
                  sse_writes := sse_writes w; sse_out := sse_out w |} in
      let '(lastLogTime, w) := time_Now w in
      let '(lastSentTime, w) := time_Now w in
      (* Send initial empty update to establish connection *)
      match sendLevelsUpdate (levels r) w with
      | (Some err, w) =>
          (sseCleanup clientIP
             (output [OutLog (LogInitialUpdateError (SSEError_text err))] w),
           Some (Some err))
      | (None, w) =>
          match sseLoop clientIP events
                  {| conn_registry := r; conn_lastLogTime := lastLogTime;
                     conn_lastSentTime := lastSentTime |} w with
          | (_, w, Some result) => (sseCleanup clientIP w, Some result)
          | (_, w, None) => (w, None)
          end
      end
  end.

End Handler.

(** The sources of the settings: the audio device if one is configured,
    and the URLs. *)
Definition configuredSource (settings : Settings) (s : string) : Prop :=
  s ∈ RTSP_URLs settings \/ (s = "malgo"%string /\ Audio_Source settings <> "").

(** What the levels of a connection keep: every level is within 0 to
    100, and every configured source has an entry. *)
Definition levelsOk (settings : Settings) (lv : gmap string AudioLevelData) : Prop :=
  (forall s d, lv !! s = Some d -> 0 <= Level d <= 100) /\
  (forall s, configuredSource settings s -> is_Some (lv !! s)).

(** The levels that come from the channel are within 0 to 100. *)
Definition selectInRange (ev : Select) : Prop :=
  match ev with
  | SelAudio audioData _ => 0 <= Level audioData <= 100
  | _ => True
  end.

(** An empty world, and one in which nothing fails. *)
Definition emptyWorld : SSEWorld :=
  {| sse_connections := ∅; sse_tick := 0; sse_writes := 0; sse_out := [] |}.

Definition secondsClock (i : nat) : Time := Z.of_nat i * time_Second.

Definition neverFails (i : nat) : option string := None.

(** ** Audio capture devices (package [myaudio])

    [ListAudioSources], [SetAudioDevice], [ValidateAudioDevice] and
    [selectCaptureSource] ask the audio library [malgo] for its capture
    devices and pick one by the configured name.  The library is the
    environment: what it answers is a parameter of each function. *)

(** *** Library functions of Go the code calls *)

(** [strings.HasPrefix(s, prefix)] *)
Fixpoint strings_HasPrefix (s prefix : string) : bool :=
  match prefix, s with
  | EmptyString, _ => true
  | String _ _, EmptyString => false
  | String a prefix', String b s' => Ascii.eqb a b && strings_HasPrefix s' prefix'
  end.

(** [strings.Contains(s, substr)]: [substr] starts at some position of [s]. *)
Fixpoint strings_Contains (s substr : string) : bool :=
  strings_HasPrefix s substr ||
  match s with
  | EmptyString => false
  | String _ s' => strings_Contains s' substr
  end.

(** [encoding/hex]'s table of digit values: the value of a hexadecimal
    digit of either case, [None] for any other byte. *)
Definition fromHexChar (c : ascii) : option N :=
  let n := N_of_ascii c in
  if ((48 <=? n) && (n <=? 57))%N then Some (n - 48)%N          (* '0'..'9' *)
  else if ((97 <=? n) && (n <=? 102))%N then Some (n - 97 + 10)%N  (* 'a'..'f' *)
  else if ((65 <=? n) && (n <=? 70))%N then Some (n - 65 + 10)%N   (* 'A'..'F' *)
  else None.

Inductive HexError :=
| InvalidByteError (b : ascii)   (* "encoding/hex: invalid byte" *)
| ErrLength.                     (* "encoding/hex: odd length hex string" *)

(** [hex.DecodeString]: two digits make a byte.  It returns the bytes
    decoded before the first invalid byte with the error for that byte; a
    string of odd length whose digits are all valid gives [ErrLength]. *)
Fixpoint hex_DecodeString (src : string) : string * option HexError :=
  match src with
  | EmptyString => (EmptyString, None)
  | String p EmptyString =>
      match fromHexChar p with
      | None => (EmptyString, Some (InvalidByteError p))
      | Some _ => (EmptyString, Some ErrLength)
      end
  | String p (String q rest) =>
      match fromHexChar p, fromHexChar q with
      | None, _ => (EmptyString, Some (InvalidByteError p))
      | Some _, None => (EmptyString, Some (InvalidByteError q))
      | Some a, Some b =>
          let '(out, err) := hex_DecodeString rest in
          (String (ascii_of_N (a * 16 + b)) out, err)
      end
  end.

(** [hex.EncodeToString]: two lower-case digits for each byte. *)
Definition hexDigit (n : N) : ascii :=
  if (n <? 10)%N then ascii_of_N (48 + n) else ascii_of_N (97 + (n - 10)).

Fixpoint hex_EncodeToString (src : string) : string :=
  match src with
  | EmptyString => EmptyString
  | String v rest =>
      String (hexDigit (N_of_ascii v / 16)) (String (hexDigit (N_of_ascii v mod 16))
        (hex_EncodeToString rest))
  end.

(** *** The devices and the library *)

(** What the code reads of a [malgo.DeviceInfo]. *)
Record DeviceInfo := mkDeviceInfo {
  dev_Name : string;       (* [info.Name()] *)
  dev_ID : string;         (* [info.ID.String()], the ID in hexadecimal *)
  dev_Pointer : Z;         (* [info.ID.Pointer()] *)
  dev_IsDefault : Z        (* [info.IsDefault] *)
}.

(** [AudioDeviceInfo] *)
Record AudioDeviceInfo := mkAudioDeviceInfo {
  adi_Index : nat;
  adi_Name : string;
  adi_ID : string
}.

(** [captureSource]; its zero value has a nil pointer, written 0. *)
Record captureSource := mkCaptureSource {
  cs_Name : string;
  cs_ID : string;
  cs_Pointer : Z
}.

Definition noCaptureSource : captureSource :=
  {| cs_Name := ""; cs_ID := ""; cs_Pointer := 0 |}.

(** The backends the code names, and the zero value of the type, which
    is what [var backend malgo.Backend] holds on any other system. *)
Inductive Backend := BackendAlsa | BackendWasapi | BackendCoreaudio | BackendZero.

(** An initialised context: what its calls answer.  An error is given by
    its text. *)
Record AllocatedContext := mkContext {
  ctx_Devices : string + list DeviceInfo;        (* [ctx.Devices(malgo.Capture)] *)
  ctx_InitDevice : DeviceInfo -> option string;  (* [malgo.InitDevice] on the device *)
  ctx_Start : DeviceInfo -> option string;       (* [device.Start()] *)
  ctx_Uninit : option string                     (* [ctx.Uninit()] *)
}.

(** [malgo.InitContext(backends, ...)] *)
Definition Malgo : Type := list Backend -> string + AllocatedContext.

(** The errors the functions make with [fmt.Errorf]. *)
Inductive AudioError :=
| ErrInitializeContext (cause : string)   (* "failed to initialize context: %w" *)
| ErrGetDevices (cause : string)          (* "failed to get devices: %w" *)
| ErrInvalidDeviceIndex                   (* "invalid device index" *)
| ErrInitializeDevice (cause : string)    (* "failed to initialize device: %w" *)
| ErrInitializeAudioContext (cause : string)
                                  (* "failed to initialize audio context: %w" *)
| ErrGetCaptureDevices (cause : string)   (* "failed to get capture devices: %w" *)
| ErrNoHardwareDevices        (* "no hardware audio capture devices found" *)
| ErrHardwareTestFailed (source : string)
                      (* "configured audio device '%s' failed hardware test" *)
| ErrDeviceNotFound (source : string)
                      (* "configured audio device '%s' not found" *)
| ErrContextInitialization (cause : string)
                      (* "audio context initialization failed: %w" *)
| ErrNoWorkingDevice (source : string).
                      (* "no working capture device found matching '%s'" *)

(** The lines written with [log.Printf]. *)
Inductive AudioLog :=
| LogUninitFailed (err : string)       (* "failed to uninitialize context: %v" *)
| LogDecodeFailed (i : nat) (err : HexError).
                                       (* "Error decoding ID for device %d: %v" *)

(** [hexToASCII] *)
Definition hexToASCII (hexStr : string) : string * option HexError :=
  let '(bytes, err) := hex_DecodeString hexStr in
  match err with
  | Some e => (EmptyString, Some e)   (* return the error if hex decoding fails *)
  | None => (bytes, None)
  end.

(** [isHardwareDevice]; [GOOS] is [runtime.GOOS]. *)
Definition isHardwareDevice (GOOS : string) (decodedID : string) : bool :=
  if String.eqb GOOS "linux" then
    strings_Contains decodedID ":" && strings_Contains decodedID ","
  else true.

(** [getHardwareDevices] *)
Fixpoint getHardwareDevices (GOOS : string) (infos : list DeviceInfo)
  : list DeviceInfo :=
  match infos with
  | [] => []
  | info :: rest =>
      match hexToASCII (dev_ID info) with
      | (_, Some _) => getHardwareDevices GOOS rest
      | (decodedID, None) =>
          if isHardwareDevice GOOS decodedID
          then info :: getHardwareDevices GOOS rest
          else getHardwareDevices GOOS rest
      end
  end.

(** [matchesDeviceSettings] *)
Definition matchesDeviceSettings (GOOS : string) (decodedID : string)
    (info : DeviceInfo) (audioSource : string) : bool :=
  if String.eqb GOOS "windows" && String.eqb audioSource "sysdefault" then
    (* On Windows, there is no "sysdefault" device. *)
    dev_IsDefault info =? 1
  else
    String.eqb decodedID audioSource || strings_Contains (dev_Name info) audioSource.

(** [TestCaptureDevice] *)
Definition TestCaptureDevice (ctx : AllocatedContext) (info : DeviceInfo) : bool :=
  match ctx_InitDevice ctx info with
  | Some _ => false
  | None =>
      match ctx_Start ctx info with
      | Some _ => false
      | None => true
      end
  end.

(** The deferred [ctx.Uninit()] of [ListAudioSources] and
    [SetAudioDevice], which logs its error. *)
Definition uninitLog (ctx : AllocatedContext) : list AudioLog :=
  match ctx_Uninit ctx with
  | Some err => [LogUninitFailed err]
  | None => []
  end.

(** The loop of [ListAudioSources] from index [i] on. *)
Fixpoint listDevices (i : nat) (infos : list DeviceInfo)
  : list AudioDeviceInfo * list AudioLog :=
  match infos with
  | [] => ([], [])
  | info :: rest =>
      let '(devices, logs) := listDevices (S i) rest in
      (* Skip the discard/null device *)
      if strings_Contains (dev_Name info) "Discard all samples" then (devices, logs)
      else
        match hexToASCII (dev_ID info) with
        | (_, Some err) => (devices, LogDecodeFailed i err :: logs)
        | (decodedID, None) =>
            ({| adi_Index := i; adi_Name := dev_Name info; adi_ID := decodedID |}
               :: devices, logs)
        end
  end.

(** [ListAudioSources]: the devices, the error, and the lines logged. *)
Definition ListAudioSources (malgo : Malgo)
  : list AudioDeviceInfo * option AudioError * list AudioLog :=
  match malgo [] with
  | inl err => ([], Some (ErrInitializeContext err), [])
  | inr ctx =>
      match ctx_Devices ctx with
      | inl err => ([], Some (ErrGetDevices err), uninitLog ctx)
      | inr infos =>
          let '(devices, logs) := listDevices 0 infos in
          (devices, None, logs ++ uninitLog ctx)
      end
  end.

(** The loop of [SetAudioDevice] from index [i] on: the index it leaves
    in [index], which starts as [index0], and the lines logged. *)
Fixpoint findDeviceIndex (GOOS : string) (deviceName : string) (index0 : nat)
    (i : nat) (infos : list DeviceInfo) : nat * list AudioLog :=
  match infos with
  | [] => (index0, [])
  | info :: rest =>
      match hexToASCII (dev_ID info) with
      | (_, Some err) =>
          let '(index, logs) := findDeviceIndex GOOS deviceName index0 (S i) rest in
          (index, LogDecodeFailed i err :: logs)
      | (decodedID, None) =>
          if matchesDeviceSettings GOOS decodedID info deviceName
          then (i, [])    (* index = i; break *)
          else findDeviceIndex GOOS deviceName index0 (S i) rest
      end
  end.

(** [SetAudioDevice]: the name of the device, the error, and the lines
    logged.  [var index int] starts at 0. *)
Definition SetAudioDevice (GOOS : string) (malgo : Malgo) (deviceName : string)
  : string * option AudioError * list AudioLog :=
  match malgo [] with
  | inl err => (EmptyString, Some (ErrInitializeContext err), [])
  | inr ctx =>
      match ctx_Devices ctx with
      | inl err => (EmptyString, Some (ErrGetDevices err), uninitLog ctx)
      | inr infos =>
          let '(index, logs) := findDeviceIndex GOOS deviceName 0 0 infos in
          (* Check if a valid device was found *)
          match infos !! index with
          | None => (EmptyString, Some ErrInvalidDeviceIndex, logs ++ uninitLog ctx)
          | Some info =>
              match ctx_InitDevice ctx info with
              | Some err =>
                  (EmptyString, Some (ErrInitializeDevice err), logs ++ uninitLog ctx)
              | None => (dev_Name info, None, logs ++ uninitLog ctx)
              end
          end
      end
  end.

(** The [switch runtime.GOOS] of [ValidateAudioDevice] and
    [selectCaptureSource]. *)
Definition backendOf (GOOS : string) : Backend :=
  if String.eqb GOOS "linux" then BackendAlsa
  else if String.eqb GOOS "windows" then BackendWasapi
  else if String.eqb GOOS "darwin" then BackendCoreaudio
  else BackendZero.

Definition setAudioSource (source : string) (settings : Settings) : Settings :=
  {| Audio_Source := source; RTSP_URLs := RTSP_URLs settings;
     RTSP_Transport := RTSP_Transport settings |}.

(** The loop of [ValidateAudioDevice] that looks for the configured
    device and tests it: [None] when the loop ends without a match,
    otherwise whether the first device that matches passed the test. *)
Fixpoint validateLoop (GOOS : string) (ctx : AllocatedContext)
    (audioSource : string) (infos : list DeviceInfo) : option bool :=
  match infos with
  | [] => None
  | info :: rest =>
      match hexToASCII (dev_ID info) with
      | (_, Some _) => validateLoop GOOS ctx audioSource rest
      | (decodedID, None) =>
          if matchesDeviceSettings GOOS decodedID info audioSource
          then Some (TestCaptureDevice ctx info)
          else validateLoop GOOS ctx audioSource rest
      end
  end.

(** [ValidateAudioDevice]: the settings as the call leaves them, and the
    error.  The message of the failed hardware test is formatted after
    the source has been cleared. *)
Definition ValidateAudioDevice (GOOS : string) (malgo : Malgo) (settings : Settings)
  : Settings * option AudioError :=
  if String.eqb (Audio_Source settings) "" then (settings, None)
  else
    match malgo [backendOf GOOS] with
    | inl err =>
        (setAudioSource "" settings, Some (ErrInitializeAudioContext err))
    | inr malgoCtx =>
        match ctx_Devices malgoCtx with
        | inl err => (setAudioSource "" settings, Some (ErrGetCaptureDevices err))
        | inr infos =>
            (* Filter to get only hardware devices to check if any are available *)
            if (length (getHardwareDevices GOOS infos) =? 0)%nat then
              (setAudioSource "" settings, Some ErrNoHardwareDevices)
            else
              match validateLoop GOOS malgoCtx (Audio_Source settings) infos with
              | Some true => (settings, None)
              | Some false =>
                  let settings' := setAudioSource "" settings in
                  (settings', Some (ErrHardwareTestFailed (Audio_Source settings')))
              | None => (settings, Some (ErrDeviceNotFound (Audio_Source settings)))
              end
        end
    end.

(** What [selectCaptureSource] prints for a device. *)
Inductive DeviceMark :=
| MarkSelected        (* "%s (selected)" *)
| MarkTestFailed      (* "%s (device test failed)" *)
| MarkNone.           (* the line alone *)

Inductive Printed :=
| PrintAvailable                         (* "Available Capture Sources:" *)
| PrintDecodeError (i : nat) (err : HexError)
| PrintDevice (output : string) (mark : DeviceMark).

(** [fmt.Sprintf("  %d: %s", i, name)], and on Linux
    [fmt.Sprintf("%s, %s", output, decodedID)]. *)
Definition deviceLine (GOOS : string) (i : nat) (info : DeviceInfo)
    (decodedID : string) : string :=
  let output := "  " +:+ pretty i +:+ ": " +:+ dev_Name info in
  if String.eqb GOOS "linux" then output +:+ ", " +:+ decodedID else output.

(** The loop of [selectCaptureSource] from index [i] on. *)
Fixpoint selectLoop (GOOS : string) (ctx : AllocatedContext)
    (audioSource : string) (i : nat) (infos : list DeviceInfo)
  : option captureSource * list Printed :=
  match infos with
  | [] => (None, [])
  | info :: rest =>
      match hexToASCII (dev_ID info) with
      | (_, Some err) =>
          let '(found, out) := selectLoop GOOS ctx audioSource (S i) rest in
          (found, PrintDecodeError i err :: out)
      | (decodedID, None) =>
          let output := deviceLine GOOS i info decodedID in
          if matchesDeviceSettings GOOS decodedID info audioSource then
            if TestCaptureDevice ctx info then
              (Some {| cs_Name := dev_Name info; cs_ID := decodedID;
                       cs_Pointer := dev_Pointer info |},
               [PrintDevice output MarkSelected])
            else
              let '(found, out) := selectLoop GOOS ctx audioSource (S i) rest in
              (found, PrintDevice output MarkTestFailed :: out)
          else
            let '(found, out) := selectLoop GOOS ctx audioSource (S i) rest in
            (found, PrintDevice output MarkNone :: out)
      end
  end.

(** [selectCaptureSource]: the source, the error and what is printed.
    The callback that prints the library's own messages when
    [settings.Debug] is set is left out: the library of the model has no
    messages of its own. *)
Definition selectCaptureSource (GOOS : string) (malgo : Malgo) (settings : Settings)
  : captureSource * option AudioError * list Printed :=
  match malgo [backendOf GOOS] with
  | inl err => (noCaptureSource, Some (ErrContextInitialization err), [])
  | inr malgoCtx =>
      match ctx_Devices malgoCtx with
      | inl err => (noCaptureSource, Some (ErrGetCaptureDevices err), [])
      | inr infos =>
          match selectLoop GOOS malgoCtx (Audio_Source settings) 0 infos with
          | (Some source, out) => (source, None, PrintAvailable :: out)
          | (None, out) =>
              (noCaptureSource,
               Some (ErrNoWorkingDevice (Audio_Source settings)),
               PrintAvailable :: out)
          end
      end
  end.

(** *** Concrete devices for the examples *)

(** An ALSA card, ID [":0,0"] in hexadecimal. *)
Definition cardDevice : DeviceInfo :=
  {| dev_Name := "USB Audio"; dev_ID := "3a302c30"; dev_Pointer := 4096;
     dev_IsDefault := 0 |}.

(** The ALSA null device, ID ["null"]. *)
Definition nullDevice : DeviceInfo :=
  {| dev_Name := "Discard all samples (playback) or generate zero samples (capture)";
     dev_ID := "6e756c6c"; dev_Pointer := 8192; dev_IsDefault := 0 |}.

(** A device whose ID is not hexadecimal. *)
Definition brokenDevice : DeviceInfo :=
  {| dev_Name := "Broken"; dev_ID := "zz"; dev_Pointer := 12288;
     dev_IsDefault := 0 |}.

Definition sampleContext (infos : list DeviceInfo) : AllocatedContext :=
  {| ctx_Devices := inr infos; ctx_InitDevice := fun _ => None;
     ctx_Start := fun _ => None; ctx_Uninit := None |}.

Definition sampleMalgo (infos : list DeviceInfo) : Malgo :=
  fun _ => inr (sampleContext infos).

(** ** The codes and tokens of [OAuth2Server] (package [security])

    [h.Server.IsAccessAllowed], which the SSE handler asks, rests on the
    access tokens of the server.  A token is obtained for an authorization
    code; both expire. *)

(** [base64.URLEncoding]: the alphabet [A-Z a-z 0-9 - _]. *)
Definition base64url_char (n : N) : ascii :=
  if (n <? 26)%N then ascii_of_N (65 + n)
  else if (n <? 52)%N then ascii_of_N (97 + (n - 26))
  else if (n <? 62)%N then ascii_of_N (48 + (n - 52))
  else if (n =? 62)%N then "-"%char
  else "_"%char.

(** [base64.URLEncoding.EncodeToString]: four characters for each three
    bytes, the last group padded with ['=']. *)
Fixpoint base64_URLEncoding_EncodeToString (src : string) : string :=
  match src with
  | EmptyString => EmptyString
  | String a EmptyString =>
      let a := N_of_ascii a in
      String (base64url_char (a / 4))
        (String (base64url_char (a mod 4 * 16)) "==")
  | String a (String b EmptyString) =>
      let a := N_of_ascii a in
      let b := N_of_ascii b in
      String (base64url_char (a / 4))
        (String (base64url_char (a mod 4 * 16 + b / 16))
           (String (base64url_char (b mod 16 * 4)) "="))
  | String a (String b (String c rest)) =>
      let a := N_of_ascii a in
      let b := N_of_ascii b in
      let c := N_of_ascii c in
      String (base64url_char (a / 4))
        (String (base64url_char (a mod 4 * 16 + b / 16))
           (String (base64url_char (b mod 16 * 4 + c / 64))
              (String (base64url_char (c mod 64))
                 (base64_URLEncoding_EncodeToString rest))))
  end.

(** [t.Add(d)], [t.After(u)] and [t.Before(u)] on instants. *)
Definition Time_Add (t : Time) (d : Duration) : Time := t + d.
Definition Time_After (t u : Time) : bool := u <? t.
Definition Time_Before (t u : Time) : bool := t <? u.

Record AuthCode := mkAuthCode {
  ac_Code : string;
  ac_ExpiresAt : Time
}.

Record AccessToken := mkAccessToken {
  at_Token : string;
  at_ExpiresAt : Time
}.

(** The fields of [OAuth2Server] the functions below use; the two
    durations are [Settings.Security.BasicAuth.AuthCodeExp] and
    [AccessTokenExp]. *)
Record OAuth2Server := mkOAuth2Server {
  authCodes : gmap string AuthCode;
  accessTokens : gmap string AccessToken;
  AuthCodeExp : Duration;
  AccessTokenExp : Duration
}.

Inductive AuthError :=
| ErrInvalidAuthCode          (* "invalid or expired auth code" *)
| ErrRand (cause : string).   (* the error of [rand.Read] *)

Definition setAuthCodes (m : gmap string AuthCode) (s : OAuth2Server) : OAuth2Server :=
  {| authCodes := m; accessTokens := accessTokens s;
     AuthCodeExp := AuthCodeExp s; AccessTokenExp := AccessTokenExp s |}.

Definition setAccessTokens (m : gmap string AccessToken) (s : OAuth2Server)
  : OAuth2Server :=
  {| authCodes := authCodes s; accessTokens := m;
     AuthCodeExp := AuthCodeExp s; AccessTokenExp := AccessTokenExp s |}.

(** [GenerateAuthCode].  [rand] is what [rand.Read] gives for the 32
    bytes asked: an error, or the bytes; [now] is the reading of
    [time.Now()]. *)
Definition GenerateAuthCode (rand : string + string) (now : Time) (s : OAuth2Server)
  : string * option AuthError * OAuth2Server :=
  match rand with
  | inl err => (EmptyString, Some (ErrRand err), s)
  | inr code =>
      let authCode := base64_URLEncoding_EncodeToString code in
      (authCode, None,
       setAuthCodes
         (<[authCode := {| ac_Code := authCode;
                           ac_ExpiresAt := Time_Add now (AuthCodeExp s) |}]>
            (authCodes s)) s)
  end.

(** [ExchangeAuthCode].  [now1] is the reading of the clock for the
    check of the code, [now2] the one for the expiry of the token. *)
Definition ExchangeAuthCode (code : string) (now1 : Time) (rand : string + string)
    (now2 : Time) (s : OAuth2Server)
  : string * option AuthError * OAuth2Server :=
  match authCodes s !! code with
  | None => (EmptyString, Some ErrInvalidAuthCode, s)
  | Some authCode =>
      if Time_After now1 (ac_ExpiresAt authCode) then
        (EmptyString, Some ErrInvalidAuthCode, s)
      else
        let s := setAuthCodes (delete code (authCodes s)) s in
        match rand with
        | inl err => (EmptyString, Some (ErrRand err), s)
        | inr token =>
            let accessToken := base64_URLEncoding_EncodeToString token in
            (accessToken, None,
             setAccessTokens
               (<[accessToken :=
                    {| at_Token := accessToken;
                       at_ExpiresAt := Time_Add now2 (AccessTokenExp s) |}]>
                  (accessTokens s)) s)
        end
  end.

(** [ValidateAccessToken] *)
Definition ValidateAccessToken (token : string) (now : Time) (s : OAuth2Server)
  : bool :=
  match accessTokens s !! token with
  | None => false
  | Some accessToken => Time_Before now (at_ExpiresAt accessToken)
  end.

(** One turn of the loop of [StartAuthCleanup]: the expired codes and
    tokens are deleted. *)
Definition authCleanup (now : Time) (s : OAuth2Server) : OAuth2Server :=
  {| authCodes :=
       filter (fun kv => Time_After now (ac_ExpiresAt (snd kv)) = false) (authCodes s);
     accessTokens :=
       filter (fun kv => Time_After now (at_ExpiresAt (snd kv)) = false)
         (accessTokens s);
     AuthCodeExp := AuthCodeExp s; AccessTokenExp := AccessTokenExp s |}.

(** A server with no code and no token; codes live ten minutes and
    tokens an hour. *)
Definition newServer : OAuth2Server :=
  {| authCodes := ∅; accessTokens := ∅;
     AuthCodeExp := 600 * time_Second; AccessTokenExp := 3600 * time_Second |}.

(** ** [IsInLocalSubnet] (package [security])

    A [net.IP] is a slice of 4 or 16 bytes, here a [string]; the nil slice
    is the empty one. *)

Definition IPv4len : nat := 4.
Definition IPv6len : nat := 16.

Definition zeroByte : ascii := ascii_of_N 0.
Definition ffByte : ascii := ascii_of_N 255.

(** [v4InV6Prefix]: ten zero bytes and two bytes [0xff]. *)
Definition v4InV6Prefix : string :=
  String zeroByte (String zeroByte (String zeroByte (String zeroByte
  (String zeroByte (String zeroByte (String zeroByte (String zeroByte
  (String zeroByte (String zeroByte (String ffByte (String ffByte
  EmptyString))))))))))).

(** [IPv6loopback], the address [::1]. *)
Definition IPv6loopback : string :=
  String zeroByte (String zeroByte (String zeroByte (String zeroByte
  (String zeroByte (String zeroByte (String zeroByte (String zeroByte
  (String zeroByte (String zeroByte (String zeroByte (String zeroByte
  (String zeroByte (String zeroByte (String zeroByte (String (ascii_of_N 1)
  EmptyString))))))))))))))).

(** [ip.To4()]: the four bytes of an IPv4 address, given as such or as
    an IPv4-mapped IPv6 address; nil for any other. *)
Definition IP_To4 (ip : string) : string :=
  if (String.length ip =? IPv4len)%nat then ip
  else if (String.length ip =? IPv6len)%nat &&
          String.eqb (String.substring 0 12 ip) v4InV6Prefix
  then String.substring 12 4 ip
  else EmptyString.

(** The loop of [ip.Mask]: the bytes of [ip] and [mask], and-ed. *)
Fixpoint maskBytes (ip mask : string) : string :=
  match ip, mask with
  | String a ip', String m mask' =>
      String (ascii_of_N (N.land (N_of_ascii a) (N_of_ascii m))) (maskBytes ip' mask')
  | _, _ => EmptyString
  end.

Fixpoint allFF (s : string) : bool :=
  match s with
  | EmptyString => true
  | String a s' => Ascii.eqb a ffByte && allFF s'
  end.

(** [ip.Mask(mask)] *)
Definition IP_Mask (ip mask : string) : string :=
  let mask :=
    if (String.length mask =? IPv6len)%nat && (String.length ip =? IPv4len)%nat &&
       allFF (String.substring 0 12 mask)
    then String.substring 12 4 mask else mask in
  let ip :=
    if (String.length mask =? IPv4len)%nat && (String.length ip =? IPv6len)%nat &&
       String.eqb (String.substring 0 12 ip) v4InV6Prefix
    then String.substring 12 4 ip else ip in
  if (String.length ip =? String.length mask)%nat then maskBytes ip mask
  else EmptyString.

(** [net.CIDRMask(24, 32)]: three bytes [0xff] and a zero byte. *)
Definition CIDRMask_24_32 : string :=
  String ffByte (String ffByte (String ffByte (String zeroByte EmptyString))).

(** [ip.Equal(x)]: the same address, an IPv4 address being equal to its
    IPv4-mapped form. *)
Definition IP_Equal (ip x : string) : bool :=
  if (String.length ip =? String.length x)%nat then String.eqb ip x
  else if (String.length ip =? IPv4len)%nat && (String.length x =? IPv6len)%nat then
    String.eqb (String.substring 0 12 x) v4InV6Prefix &&
    String.eqb ip (String.substring 12 4 x)
  else if (String.length ip =? IPv6len)%nat && (String.length x =? IPv4len)%nat then
    String.eqb (String.substring 0 12 ip) v4InV6Prefix &&
    String.eqb (String.substring 12 4 ip) x
  else false.

(** [ip.IsLoopback()] *)
Definition IP_IsLoopback (ip : string) : bool :=
  match IP_To4 ip with
  | String a _ => (N_of_ascii a =? 127)%N
  | EmptyString => IP_Equal ip IPv6loopback
  end.

(** An address of a network interface: a [*net.IPNet], or an address of
    another type. *)
Inductive Addr :=
| IPNetAddr (ip mask : string)
| OtherAddr.

(** [getIPv4Subnet]: the address with its last byte cleared, nil for an
    address that is not IPv4. *)
Definition getIPv4Subnet (ip : string) : string :=
  match ip with
  | EmptyString => EmptyString
  | _ =>
      match IP_To4 ip with
      | EmptyString => EmptyString
      | ipv4 => IP_Mask ipv4 CIDRMask_24_32
      end
  end.

(** The loop of [IsInLocalSubnet] over the addresses of the interfaces. *)
Fixpoint anyLocalSubnet (clientSubnet : string) (addrs : list Addr) : bool :=
  match addrs with
  | [] => false
  | addr :: rest =>
      match addr with
      | OtherAddr => anyLocalSubnet clientSubnet rest
      | IPNetAddr ip _ =>
          if IP_IsLoopback ip then anyLocalSubnet clientSubnet rest
          else
            match getIPv4Subnet ip with
            | EmptyString => anyLocalSubnet clientSubnet rest
            | serverSubnet =>
                if IP_Equal clientSubnet serverSubnet then true
                else anyLocalSubnet clientSubnet rest
            end
      end
  end.

(** [IsInLocalSubnet]; [interfaceAddrs] is what [net.InterfaceAddrs()]
    returns, an error or the addresses. *)
Definition IsInLocalSubnet (interfaceAddrs : string + list Addr) (clientIP : string)
  : bool :=
  match clientIP with
  | EmptyString => false
  | _ =>
      match interfaceAddrs with
      | inl _ => false
      | inr addrs =>
          (* Get the client's /24 subnet *)
          match getIPv4Subnet clientIP with
          | EmptyString => false
          | clientSubnet => anyLocalSubnet clientSubnet addrs
          end
      end
  end.

(** The address [a.b.c.d], in four bytes. *)
Definition ipv4 (a b c d : N) : string :=
  String (ascii_of_N a) (String (ascii_of_N b) (String (ascii_of_N c)
    (String (ascii_of_N d) EmptyString))).
(** * Facts about binary64 arithmetic *)


Lemma sf_signed_notnan s x : sf_signed s x -> sf_notnan x.
Proof. destruct x; simpl; auto. Qed.

Lemma sf_signed_nonneg x : sf_signed false x -> sf_nonneg x.
Proof. destruct x as [s|s| |s m e]; simpl; intros; subst; auto. Qed.

Lemma sf_nonneg_notnan x : sf_nonneg x -> sf_notnan x.
Proof. destruct x as [s|[]| |[] m e]; simpl; auto. Qed.

Lemma shr_1_nonneg mrs : 0 <= shr_m mrs -> 0 <= shr_m (shr_1 mrs).
Proof.
  destruct mrs as [m r s]; simpl.
  destruct m as [|p|p]; simpl; try lia.
  - destruct p; simpl; lia.
Qed.

Lemma iter_shr_1_nonneg p : forall mrs,
  0 <= shr_m mrs -> 0 <= shr_m (SpecFloat.iter_pos shr_1 p mrs).
Proof.
  induction p; intros mrs H; simpl; auto using shr_1_nonneg.
Qed.

Lemma shr_nonneg mrs e n :
  0 <= shr_m mrs -> 0 <= shr_m (fst (shr mrs e n)).
Proof.
  intros H. destruct n; simpl; auto using iter_shr_1_nonneg.
Qed.

Lemma shr_record_of_loc_m m l : shr_m (shr_record_of_loc m l) = m.
Proof. destruct l as [|[]]; reflexivity. Qed.

Lemma shr_fexp_nonneg m e l :
  0 <= m -> 0 <= shr_m (fst (shr_fexp prec emax m e l)).
Proof.
  intros H. unfold shr_fexp. apply shr_nonneg. now rewrite shr_record_of_loc_m.
Qed.

Lemma round_nearest_even_nonneg m l : 0 <= m -> 0 <= round_nearest_even m l.
Proof.
  intros H. destruct l as [|[]]; simpl; try lia. destruct (Z.even m); lia.
Qed.

Lemma binary_round_aux_signed s m e l :
  0 <= m -> sf_signed s (binary_round_aux prec emax s m e l).
Proof.
  intros H. unfold binary_round_aux.
  pose proof (shr_fexp_nonneg m e l H) as H1.
  destruct (shr_fexp prec emax m e l) as [mrs' e']. simpl in H1.
  pose proof (shr_fexp_nonneg _ e' loc_Exact
                (round_nearest_even_nonneg _ (loc_of_shr_record mrs') H1)) as H2.
  destruct (shr_fexp prec emax _ e' loc_Exact) as [mrs'' e'']. simpl in H2.
  destruct (shr_m mrs'') as [|p|p]; simpl; auto; try lia.
  destruct (_ <=? _); simpl; reflexivity.
Qed.

Lemma binary_round_signed s m e : sf_signed s (binary_round prec emax s m e).
Proof.
  unfold binary_round.
  destruct (shl_align m e _) as [mz ez]. apply binary_round_aux_signed. lia.
Qed.

Lemma binary_normalize_notnan m e sz : sf_notnan (binary_normalize prec emax m e sz).
Proof.
  destruct m; simpl; auto; eapply sf_signed_notnan, binary_round_signed.
Qed.

Lemma SFadd_nonneg x y :
  sf_nonneg x -> sf_nonneg y -> sf_nonneg (SF64add x y).
Proof.
  destruct x as [sx|[]| |[] mx ex]; simpl; try tauto;
  destruct y as [sy|[]| |[] my ey]; simpl; try tauto; intros _ _.
  - destruct sx, sy; simpl; auto.
  - apply sf_signed_nonneg, binary_round_signed.
Qed.

Lemma SFadd_notnan_finite x y :
  sf_notnan x -> sf_finite y -> sf_notnan (SF64add x y).
Proof.
  destruct x as [sx|sx| |sx mx ex]; simpl; try tauto;
  destruct y as [sy|sy| |sy my ey]; simpl; try tauto; intros _ _.
  apply binary_normalize_notnan.
Qed.

Lemma SFmul_notnan_finite_l x y :
  sf_finite x -> sf_notnan y -> sf_notnan (SF64mul x y).
Proof.
  destruct x as [sx|sx| |sx mx ex]; simpl; try tauto;
  destruct y as [sy|sy| |sy my ey]; simpl; try tauto; intros _ _.
  eapply sf_signed_notnan, binary_round_aux_signed. lia.
Qed.

Lemma SFmul_notnan_finite_r x y :
  sf_notnan x -> sf_finite y -> sf_notnan (SF64mul x y).
Proof.
  destruct x as [sx|sx| |sx mx ex]; simpl; try tauto;
  destruct y as [sy|sy| |sy my ey]; simpl; try tauto; intros _ _.
  eapply sf_signed_notnan, binary_round_aux_signed. lia.
Qed.

Lemma SFdiv_nonneg x y :
  sf_nonneg x -> sf_posfin y -> sf_nonneg (SF64div x y).
Proof.
  destruct x as [sx|[]| |[] mx ex]; simpl; try tauto;
 destruct y as [sy|sy| |[] my ey]; simpl; try tauto; intros _ _.
  - unfold SFdiv_core_binary.
    set (s := _ - _ - _). 
    set (m' := match s with 0 => Z.pos mx | Z.pos _ => Z.shiftl (Z.pos mx) s | Z.neg _ => 0 end).
    assert (Hm : 0 <= m').
    { subst m'. destruct s; try lia. apply Z.shiftl_nonneg. lia. }
    pose proof (Z.div_eucl_eq m' (Z.pos my) ltac:(lia)) as Heq.
    pose proof (Z_div_mod m' (Z.pos my) ltac:(lia)) as Hdm.
    destruct (Z.div_eucl m' (Z.pos my)) as [q r].
    apply sf_signed_nonneg, binary_round_aux_signed. nia.
Qed.

Lemma SFsqrt_nonneg x : sf_nonneg x -> sf_nonneg (SF64sqrt x).
Proof.
  destruct x as [sx|[]| |[] mx ex]; simpl; try tauto; intros _.
  unfold SFsqrt_core_binary.
  set (s := _ - _ ).
  set (m' := match s with 0 => Z.pos mx | Z.pos _ => Z.shiftl (Z.pos mx) s | Z.neg _ => 0 end).
  assert (Hm : 0 <= m').
  { subst m'. destruct s; try lia. apply Z.shiftl_nonneg. lia. }
  pose proof (Z.sqrtrem_spec m' Hm) as Hs.
  destruct (Z.sqrtrem m') as [q r].
  apply sf_signed_nonneg, binary_round_aux_signed. lia.
Qed.


Lemma digits2_pos_size p : digits2_pos p = Pos.size p.
Proof. induction p; simpl; congruence. Qed.

Lemma Zdigits2_log2 m : 0 < m -> Zdigits2 m = Z.log2 m + 1.
Proof.
  destruct m as [|p|p]; try lia; intros _. simpl.
  rewrite digits2_pos_size. destruct p; simpl; lia.
Qed.

Lemma shr_1_m mrs : 0 <= shr_m mrs -> shr_m (shr_1 mrs) = Z.div2 (shr_m mrs).
Proof.
  destruct mrs as [m r s]; simpl. destruct m as [|[p|p|]|p]; simpl; try lia; auto.
Qed.

Lemma iter_shr_1_m p : forall mrs, 0 <= shr_m mrs ->
  shr_m (SpecFloat.iter_pos shr_1 p mrs) = Z.shiftr (shr_m mrs) (Z.pos p).
Proof.
  induction p; intros mrs H; simpl SpecFloat.iter_pos.
  - rewrite IHp, IHp, shr_1_m by auto using iter_shr_1_nonneg, shr_1_nonneg.
    rewrite Z.div2_spec, !Z.shiftr_shiftr by lia. f_equal. lia.
  - rewrite IHp, IHp by auto using iter_shr_1_nonneg.
    rewrite !Z.shiftr_shiftr by lia. f_equal. lia.
  - rewrite shr_1_m by auto. apply Z.div2_spec.
Qed.

Lemma shr_spec mrs e n : 0 <= shr_m mrs ->
  shr_m (fst (shr mrs e n)) = Z.shiftr (shr_m mrs) (Z.max 0 n) /\
  snd (shr mrs e n) = e + Z.max 0 n.
Proof.
  intros H. destruct n as [|p|p]; simpl.
  - split; [now rewrite Z.shiftr_0_r | lia].
  - split; [now apply iter_shr_1_m | lia].
  - split; [reflexivity | lia].
Qed.

Lemma shr_fexp_spec m e l : 0 < m ->
  let n := Z.max (Z.log2 m + 1 + e - 53) (-1074) - e in
  shr_m (fst (shr_fexp prec emax m e l)) = Z.shiftr m (Z.max 0 n) /\
  snd (shr_fexp prec emax m e l) = e + Z.max 0 n.
Proof.
  intros H n. unfold shr_fexp. rewrite Zdigits2_log2 by lia.
  replace (fexp prec emax (Z.log2 m + 1 + e) - e) with n
    by (unfold fexp, SpecFloat.emin, prec, emax; lia).
  pose proof (shr_spec (shr_record_of_loc m l) e n) as Hs.
  rewrite shr_record_of_loc_m in Hs. apply Hs. lia.
Qed.

Lemma round_nearest_even_bounds m l :
  m <= round_nearest_even m l <= m + 1.
Proof. destruct l as [|[]]; simpl; try lia. destruct (Z.even m); lia. Qed.

(** A mantissa of at least 53 bits whose exponent is in range rounds to a
    finite non-zero number. *)
Lemma binary_round_aux_finite s m e l :
  0 < m -> 52 <= Z.log2 m -> -1074 <= e -> e + Z.log2 m <= 1022 ->
  exists m' e', binary_round_aux prec emax s m e l = S754_finite s m' e'.
Proof.
  intros Hm Hlog He Hmax. unfold binary_round_aux.
  destruct (shr_fexp_spec m e l Hm) as [Hm1 He1].
  destruct (shr_fexp prec emax m e l) as [mrs1 e1]. simpl in Hm1, He1.
  replace (Z.max 0 (Z.max (Z.log2 m + 1 + e - 53) (-1074) - e))
    with (Z.log2 m - 52) in * by lia.
  set (m1 := shr_m mrs1) in *.
  assert (Hl1 : Z.log2 m1 = 52).
  { rewrite Hm1, Z.log2_shiftr by lia. lia. }
  assert (H1pos : 0 < m1).
  { destruct (Z.lt_ge_cases 0 m1) as [|Hle]; [assumption|].
    rewrite (Z.log2_nonpos m1) in Hl1 by lia. lia. }
  pose proof (Z.log2_spec m1 H1pos) as Hb1. rewrite Hl1 in Hb1.
  pose proof (round_nearest_even_bounds m1 (loc_of_shr_record mrs1)) as Hr.
  set (m2 := round_nearest_even m1 (loc_of_shr_record mrs1)) in *.
  assert (H2pos : 0 < m2) by lia.
  assert (Hl2 : 52 <= Z.log2 m2 <= 53).
  { split.
    - rewrite <- Hl1. apply Z.log2_le_mono. lia.
    - change (Z.succ 52) with 53 in Hb1.
      rewrite <- (Z.log2_pow2 53) by lia. apply Z.log2_le_mono. lia. }
  destruct (shr_fexp_spec m2 e1 loc_Exact H2pos) as [Hm3 He3].
  destruct (shr_fexp prec emax m2 e1 loc_Exact) as [mrs3 e3]. simpl in Hm3, He3.
  replace (Z.max 0 (Z.max (Z.log2 m2 + 1 + e1 - 53) (-1074) - e1))
    with (Z.log2 m2 - 52) in * by lia.
  assert (H3pos : 0 < shr_m mrs3).
  { assert (Hl3 : 51 <= Z.log2 (shr_m mrs3)).
    { rewrite Hm3, Z.log2_shiftr by lia. lia. }
    destruct (Z.lt_ge_cases 0 (shr_m mrs3)) as [|Hle]; [assumption|].
    rewrite (Z.log2_nonpos (shr_m mrs3)) in Hl3 by lia. lia. }
  destruct (shr_m mrs3) as [|p|p]; try lia.
  replace (e3 <=? emax - prec) with true.
  - eauto.
  - symmetry. apply Z.leb_le. unfold emax, prec. lia.
Qed.


Lemma iter_xO_shiftl p d : Z.pos (Pos.iter xO p d) = Z.shiftl (Z.pos p) (Z.pos d).
Proof.
  simpl.
  apply (Pos.iter_swap_gen _ _ Z.pos xO (Z.mul 2)). reflexivity.
Qed.

Lemma shl_align_spec p e e' :
  Z.pos (fst (shl_align p e e')) = Z.shiftl (Z.pos p) (Z.max 0 (e - e')) /\
  snd (shl_align p e e') = Z.min e e'.
Proof.
  unfold shl_align. destruct (e' - e) as [|d|d] eqn:E; simpl fst; simpl snd.
  - replace (Z.max 0 (e - e')) with 0 by lia. rewrite Z.shiftl_0_r. split; lia.
  - replace (Z.max 0 (e - e')) with 0 by lia. rewrite Z.shiftl_0_r. split; lia.
  - replace (Z.max 0 (e - e')) with (Z.pos d) by lia. split; [apply iter_xO_shiftl | lia].
Qed.

Lemma binary_normalize_posfin z :
  0 < z < 2 ^ 63 -> sf_posfin (binary_normalize prec emax z 0 false).
Proof.
  intros [Hz Hlt]. destruct z as [|p|p]; try lia. simpl binary_normalize.
  unfold binary_round.
  assert (Hlog : 0 <= Z.log2 (Z.pos p) <= 62).
  { split; [apply Z.log2_nonneg|].
    assert (Z.log2 (Z.pos p) < 63); [|lia].
    apply Z.log2_lt_pow2; lia. }
  pose proof (Zdigits2_log2 (Z.pos p) Hz) as Hd.
  change (Zdigits2 (Z.pos p)) with (Z.pos (digits2_pos p)) in Hd.
  rewrite Hd.
  replace (fexp prec emax (Z.log2 (Z.pos p) + 1 + 0)) with (Z.log2 (Z.pos p) - 52)
    by (unfold fexp, SpecFloat.emin, prec, emax; lia).
  destruct (shl_align_spec p 0 (Z.log2 (Z.pos p) - 52)) as [Hmz Hez].
  destruct (shl_align p 0 (Z.log2 (Z.pos p) - 52)) as [mz ez].
  cbn [fst snd] in Hmz, Hez.
  assert (Hl : Z.log2 (Z.pos mz) = Z.log2 (Z.pos p) + Z.max 0 (0 - (Z.log2 (Z.pos p) - 52))).
  { rewrite Hmz. apply Z.log2_shiftl; lia. }
  destruct (binary_round_aux_finite false (Z.pos mz) ez loc_Exact)
    as (m' & e' & Heq); [lia .. | rewrite Heq; exact I].
Qed.

Lemma of_uint63_posfin n : 0 < to_Z n -> sf_posfin (Prim2SF (of_uint63 n)).
Proof.
  intros H. rewrite of_uint63_spec. apply binary_normalize_posfin.
  pose proof (to_Z_bounded n) as Hb. change wB with (2 ^ 63) in Hb. lia.
Qed.



Lemma is_nan_false f : PrimFloat.is_nan f = false <-> notnan f.
Proof.
  unfold PrimFloat.is_nan, notnan. rewrite FloatAxioms.eqb_spec. unfold SFeqb.
  destruct (Prim2SF f) as [s|[]| |[] m e] eqn:E; simpl;
    rewrite ?Z.compare_refl, ?Pos.compare_cont_refl; simpl; intuition congruence.
Qed.

Lemma leb_zero_nonneg f : PrimFloat.leb 0%float f = true <-> nonneg f.
Proof.
  unfold nonneg. rewrite FloatAxioms.leb_spec. change (Prim2SF 0%float) with (S754_zero false).
  unfold SFleb. destruct (Prim2SF f) as [s|[]| |[] m e]; simpl; intuition congruence.
Qed.

(** * The level computation *)

(** ** Conversion to [int] after the clamp *)

Lemma Prim2SF_100 : Prim2SF 100%float = S754_finite false 7036874417766400 (-46).
Proof. reflexivity. Qed.

Lemma Prim2SF_95 : Prim2SF 95%float = S754_finite false 6685030696878080 (-46).
Proof. reflexivity. Qed.

Lemma valid_binary_mantissa s m e :
  valid_binary (S754_finite s m e) = true -> Z.pos m < 2 ^ 53.
Proof.
  simpl. unfold bounded, canonical_mantissa. intros H.
  apply andb_prop in H as [H _]. apply Z.eqb_eq in H.
  pose proof (Zdigits2_log2 (Z.pos m) ltac:(lia)) as Hd.
  change (Zdigits2 (Z.pos m)) with (Z.pos (digits2_pos m)) in Hd.
  rewrite Hd in H. unfold fexp, SpecFloat.emin, prec, emax in H.
  apply Z.log2_lt_pow2; lia.
Qed.

Lemma shiftl_neg_div m e : e < 0 -> Z.shiftl m e = m / 2 ^ (- e).
Proof.
  intros H. rewrite <- (Z.opp_involutive e) at 1.
  rewrite Z.shiftl_opp_r. apply Z.shiftr_div_pow2. lia.
Qed.

(** What [to_int] returns on a positive float below 2^63. *)
Lemma to_int_finite_small x m e :
  Prim2SF x = S754_finite false m e -> e < 0 ->
  Float64.to_int x = Z.pos m / 2 ^ (- e).
Proof.
  intros E He. unfold Float64.to_int. rewrite E. simpl cond_Zopp.
  rewrite shiftl_neg_div by assumption.
  pose proof (Prim2SF_valid x) as Hv. rewrite E in Hv.
  apply valid_binary_mantissa in Hv.
  assert (0 <= Z.pos m / 2 ^ (- e) < 2 ^ 53).
  { split; [apply Z.div_pos; lia|].
    apply Z.le_lt_trans with (Z.pos m); [|assumption].
    apply Z.div_le_upper_bound; [lia|].
    assert (1 <= 2 ^ (- e)) by (apply (Z.pow_le_mono_r 2 0); lia). nia. }
  replace ((- 2 ^ 63 <=? _) && (_ <? 2 ^ 63)) with true; [reflexivity|].
  symmetry. apply andb_true_intro. split; [apply Z.leb_le | apply Z.ltb_lt]; lia.
Qed.

(** The shape of a float that the clamp lets through unchanged. *)
Lemma not_above_100 x m e :
  Prim2SF x = S754_finite false m e ->
  PrimFloat.ltb 100%float x = false ->
  e < -46 \/ (e = -46 /\ Z.pos m <= 7036874417766400).
Proof.
  intros E H. rewrite FloatAxioms.ltb_spec, Prim2SF_100, E in H.
  unfold SFltb, SFcompare in H.
  destruct (Z.compare_spec (-46) e) as [He|He|He]; try discriminate; [|lia].
  subst e. right. split; [reflexivity|].
  rewrite Pos.compare_cont_spec in H. unfold Pos.switch_Eq in H.
  change (Pos.compare 7036874417766400 m)
    with (Z.compare 7036874417766400 (Z.pos m)) in H.
  destruct (Z.compare_spec 7036874417766400 (Z.pos m)); try discriminate; lia.
Qed.

Lemma above_95 x :
  PrimFloat.ltb 95%float x = true ->
  Prim2SF x = S754_infinity false \/
  exists m e, Prim2SF x = S754_finite false m e /\
              (-46 < e \/ (e = -46 /\ 6685030696878080 < Z.pos m)).
Proof.
  intros H. rewrite FloatAxioms.ltb_spec, Prim2SF_95 in H. unfold SFltb in H.
  destruct (Prim2SF x) as [s|[]| |[] m e]; unfold SFcompare in H;
    try discriminate; auto.
  right. exists m, e. split; [reflexivity|].
  destruct (Z.compare_spec (-46) e) as [He|He|He]; try discriminate; [|lia].
  subst e. right. split; [reflexivity|].
  rewrite Pos.compare_cont_spec in H. unfold Pos.switch_Eq in H.
  change (Pos.compare 6685030696878080 m)
    with (Z.compare 6685030696878080 (Z.pos m)) in H.
  destruct (Z.compare_spec 6685030696878080 (Z.pos m)); try discriminate; lia.
Qed.

Lemma to_int_clampLevel_range x :
  notnan x -> 0 <= Float64.to_int (clampLevel x) <= 100.
Proof.
  intros Hx. unfold clampLevel.
  destruct (PrimFloat.ltb x 0) eqn:H0; [vm_compute; split; discriminate|].
  destruct (PrimFloat.ltb 100 x) eqn:H100; [vm_compute; split; discriminate|].
  rewrite FloatAxioms.ltb_spec in H0. change (Prim2SF 0%float) with (S754_zero false) in H0.
  unfold SFltb in H0. unfold notnan in Hx.
  destruct (Prim2SF x) as [s|[]| |[] m e] eqn:E; simpl in H0, Hx; try discriminate; try tauto.
  - unfold Float64.to_int. rewrite E. lia.
  - rewrite FloatAxioms.ltb_spec, E in H100. discriminate.
  - destruct (not_above_100 x m e E H100) as [He|[He Hm]].
    + rewrite (to_int_finite_small x m e E) by lia.
      pose proof (Prim2SF_valid x) as Hv. rewrite E in Hv.
      apply valid_binary_mantissa in Hv.
      split; [apply Z.div_pos; lia|].
      assert (Z.pos m / 2 ^ (- e) < 64); [|lia].
      apply Z.div_lt_upper_bound; [lia|].
      assert (2 ^ 47 <= 2 ^ (- e)) by (apply Z.pow_le_mono_r; lia). lia.
    + subst e. rewrite (to_int_finite_small x m (-46) E) by lia.
      split; [apply Z.div_pos; lia|]. apply Z.div_le_upper_bound; lia.
Qed.

Lemma to_int_clampLevel_above_95 x :
  PrimFloat.ltb 95%float x = true -> 95 <= Float64.to_int (clampLevel x) <= 100.
Proof.
  intros H95. unfold clampLevel.
  destruct (PrimFloat.ltb x 0) eqn:H0.
  { exfalso. rewrite FloatAxioms.ltb_spec in H0.
    change (Prim2SF 0%float) with (S754_zero false) in H0.
    destruct (above_95 x H95) as [E|(m & e & E & _)]; rewrite E in H0; discriminate. }
  destruct (PrimFloat.ltb 100 x) eqn:H100; [vm_compute; split; discriminate|].
  destruct (above_95 x H95) as [E|(m & e & E & He)].
  { rewrite FloatAxioms.ltb_spec, E in H100. discriminate. }
  destruct (not_above_100 x m e E H100) as [He'|[He' Hm]]; [lia|].
  destruct He as [He|[_ Hm']]; [lia|]. subst e.
  rewrite (to_int_finite_small x m (-46) E) by lia.
  split; [apply Z.div_le_lower_bound; lia | apply Z.div_le_upper_bound; lia].
Qed.

(** ** Conversion from integers *)

Lemma to_Z_of_Z_small z : 0 <= z < 2 ^ 63 -> Uint63.to_Z (Uint63.of_Z z) = z.
Proof.
  intros H. rewrite Uint63.of_Z_spec. change wB with (2 ^ 63).
  apply Z.mod_small. assumption.
Qed.

Lemma of_int_zero : Float64.of_int 0 = 0%float.
Proof. reflexivity. Qed.

Lemma of_int_pos_posfin z :
  0 < z < 2 ^ 63 -> sf_posfin (Prim2SF (Float64.of_int z)).
Proof.
  intros H. unfold Float64.of_int.
  destruct (Z.ltb_spec z 0); [lia|].
  apply of_uint63_posfin. rewrite to_Z_of_Z_small; lia.
Qed.

Lemma abs_of_int_nnfin z :
  - 2 ^ 63 < z < 2 ^ 63 -> sf_nnfin (Prim2SF (PrimFloat.abs (Float64.of_int z))).
Proof.
  intros H. rewrite FloatAxioms.abs_spec. unfold Float64.of_int.
  destruct (Z.ltb_spec z 0) as [Hn|Hn].
  - rewrite FloatAxioms.opp_spec.
    pose proof (of_uint63_posfin (Uint63.of_Z (- z))) as Hp.
    rewrite to_Z_of_Z_small in Hp by lia. specialize (Hp ltac:(lia)).
    destruct (Prim2SF (of_uint63 (Uint63.of_Z (- z)))) as [s|s| |[] m e];
      simpl in *; tauto.
  - destruct (Z.eq_dec z 0) as [->|Hz]; [exact I|].
    pose proof (of_uint63_posfin (Uint63.of_Z z)) as Hp.
    rewrite to_Z_of_Z_small in Hp by lia. specialize (Hp ltac:(lia)).
    destruct (Prim2SF (of_uint63 (Uint63.of_Z z))) as [s|s| |[] m e];
      simpl in *; tauto.
Qed.

Lemma SFmul_nnfin x y : sf_nnfin x -> sf_nnfin y -> sf_nonneg (SF64mul x y).
Proof.
  destruct x as [sx|sx| |[] mx ex]; simpl; try tauto;
  destruct y as [sy|sy| |[] my ey]; simpl; try tauto; intros _ _.
  apply sf_signed_nonneg, binary_round_aux_signed. lia.
Qed.

(** ** The sample loop *)

Lemma pair_ind {A} (P : list A -> Prop) :
  P [] -> (forall a, P [a]) -> (forall a b l, P l -> P (a :: b :: l)) ->
  forall l, P l.
Proof.
  intros H0 H1 H2.
  assert (H : forall l, P l /\ forall a, P (a :: l)).
  { induction l as [|b l [IH1 IH2]]; split; auto. }
  intros l. apply H.
Qed.

Lemma byte_val_range b : 0 <= byte_val b < 256.
Proof.
  unfold byte_val. pose proof (Byte.to_N_bounded b). lia.
Qed.

Lemma int16_range u : -32768 <= int16 u <= 32767.
Proof.
  unfold int16. pose proof (Z.mod_pos_bound u 65536 ltac:(lia)).
  destruct (Z.ltb_spec (u mod 65536) 32768); lia.
Qed.

Lemma sampleStep_sum_nonneg b0 b1 st :
  nonneg (sum st) -> nonneg (sum (sampleStep b0 b1 st)).
Proof.
  unfold nonneg, sampleStep. simpl sum. intros H.
  rewrite FloatAxioms.add_spec, FloatAxioms.mul_spec. apply SFadd_nonneg; [assumption|].
  pose proof (int16_range (LittleEndian_Uint16 b0 b1)).
  apply SFmul_nnfin; apply abs_of_int_nnfin; lia.
Qed.

Lemma sampleLoop_sum_nonneg samples : forall st,
  nonneg (sum st) -> nonneg (sum (sampleLoop samples st)).
Proof.
  induction samples as [|a|a b l IH] using pair_ind; intros st H; simpl; auto.
  apply IH. now apply sampleStep_sum_nonneg.
Qed.

Lemma sampleLoop_isClipping samples : forall st,
  isClipping (sampleLoop samples st) =
  isClipping st || existsb isExtreme (pcmSamples samples).
Proof.
  induction samples as [|a|a b l IH] using pair_ind; intros st;
    cbn [sampleLoop pcmSamples existsb]; rewrite ?orb_false_r; auto.
  rewrite IH. unfold sampleStep. cbn [isClipping]. fold (isExtreme (int16 (LittleEndian_Uint16 a b))).
  destruct (isExtreme _), (isClipping st); reflexivity.
Qed.

(** Dropping the unpaired last byte changes neither the loop nor the
    number of samples. *)
Lemma sampleLoop_unpaired samples : forall st,
  Nat.odd (length samples) = true ->
  sampleLoop (firstn (length samples - 1) samples) st = sampleLoop samples st.
Proof.
  induction samples as [|a|a b l IH] using pair_ind; intros st H.
  - discriminate.
  - reflexivity.
  - change (length (a :: b :: l)) with (S (S (length l))) in *.
    rewrite Nat.odd_succ_succ in H.
    destruct l as [|c l']; [discriminate|].
    replace (S (S (length (c :: l'))) - 1)%nat
      with (S (S (length (c :: l') - 1))) by (simpl; lia).
    simpl firstn. cbn [sampleLoop]. 
    specialize (IH (sampleStep a b st) H). simpl firstn in IH. exact IH.
Qed.

Lemma pcmSamples_unpaired samples :
  Nat.odd (length samples) = true ->
  pcmSamples (firstn (length samples - 1) samples) = pcmSamples samples.
Proof.
  induction samples as [|a|a b l IH] using pair_ind; intros H.
  - discriminate.
  - reflexivity.
  - change (length (a :: b :: l)) with (S (S (length l))) in *.
    rewrite Nat.odd_succ_succ in H.
    destruct l as [|c l']; [discriminate|].
    replace (S (S (length (c :: l'))) - 1)%nat
      with (S (S (length (c :: l') - 1))) by (simpl; lia).
    simpl firstn. cbn [pcmSamples]. f_equal.
    specialize (IH H). simpl firstn in IH. exact IH.
Qed.

Lemma pcmSamples_length samples :
  length (pcmSamples samples) = (length samples / 2)%nat.
Proof.
  induction samples as [|a|a b l IH] using pair_ind; try reflexivity.
  cbn [pcmSamples length]. rewrite IH.
  change (S (S (length l))) with (1 * 2 + length l)%nat.
  rewrite Nat.div_add_l by lia. reflexivity.
Qed.

Lemma mod2_odd n : (n mod 2)%nat = if Nat.odd n then 1%nat else 0%nat.
Proof.
  assert (H : (n mod 2 = if Nat.odd n then 1 else 0)%nat /\
              (S n mod 2 = if Nat.odd (S n) then 1 else 0)%nat).
  { induction n as [|n [IH1 IH2]]; [split; reflexivity|]. split; [assumption|].
    rewrite Nat.odd_succ_succ, <- IH1.
    replace (S (S n)) with (n + 1 * 2)%nat by lia. apply Nat.Div0.mod_add. }
  apply H.
Qed.

Lemma odd_mod2 n : negb (n mod 2 =? 0)%nat = Nat.odd n.
Proof. rewrite mod2_odd. destruct (Nat.odd n); reflexivity. Qed.

Lemma div2_odd_pred n : Nat.odd n = true -> ((n - 1) / 2 = n / 2)%nat.
Proof.
  intros H. pose proof (mod2_odd n) as Hm. rewrite H in Hm.
  pose proof (Nat.div_mod_eq n 2) as Hn.
  replace (n - 1)%nat with (0 + (n / 2) * 2)%nat by lia.
  rewrite Nat.div_add by lia. reflexivity.
Qed.

(** [calculateAudioLevel] without the case distinction on the parity of
    the length: the loop skips an unpaired last byte by itself. *)
Lemma calculateAudioLevel_unfold Log10 samples source name :
  calculateAudioLevel Log10 samples source name =
  let sampleCount := Z.of_nat (length samples / 2) in
  let st := sampleLoop samples loopInit in
  if sampleCount =? 0 then
    {| Level := 0; Clipping := false; Source := source; Name := name |}
  else
    {| Level := levelOfDecibels (decibels Log10 (sum st) sampleCount)
                  (isClipping st);
       Clipping := isClipping st; Source := source; Name := name |}.
Proof.
  unfold calculateAudioLevel.
  destruct (Nat.eqb_spec (length samples) 0) as [H0|H0].
  { rewrite H0. reflexivity. }
  rewrite odd_mod2. destruct (Nat.odd (length samples)) eqn:Hodd; simpl negb; cbv iota.
  - rewrite length_firstn, Nat.min_l by lia.
    rewrite div2_odd_pred, sampleLoop_unpaired by assumption. reflexivity.
  - reflexivity.
Qed.

(** ** [math.Max] against 95 *)

Lemma Max_95_cases x :
  notnan x ->
  Float64.Max x 95 = infinity \/ Float64.Max x 95 = 95%float \/
  (Float64.Max x 95 = x /\ PrimFloat.ltb 95 x = true).
Proof.
  intros Hx. unfold Float64.Max.
  destruct (PrimFloat.eqb x infinity); [left; reflexivity|].
  change (PrimFloat.eqb 95 infinity) with false. simpl orb.
  apply is_nan_false in Hx. rewrite Hx.
  change (PrimFloat.is_nan 95) with false. simpl orb. cbv iota.
  assert (Hz : PrimFloat.eqb x PrimFloat.zero && PrimFloat.eqb x 95 = false).
  { rewrite !FloatAxioms.eqb_spec, Prim2SF_95.
    change (Prim2SF PrimFloat.zero) with (S754_zero false). unfold SFeqb.
    destruct (Prim2SF x) as [s|[]| |[] m e]; reflexivity. }
  rewrite Hz. destruct (PrimFloat.ltb 95 x); auto.
Qed.

(** ** From the sum of squares to the scaled level *)

Section Decibels.

Variable Log10 : float -> float.

(** [math.Log10] returns NaN only for a negative or NaN argument. *)
Hypothesis Log10_defined :
  forall x, PrimFloat.leb 0 x = true -> PrimFloat.is_nan (Log10 x) = false.

Lemma scaleDecibels_notnan s sampleCount :
  nonneg s -> 0 < sampleCount < 2 ^ 63 ->
  notnan (scaleDecibels (decibels Log10 s sampleCount)).
Proof.
  intros Hs Hc. unfold scaleDecibels, decibels, notnan.
  change (PrimFloat.div 100 50) with 2%float.
  rewrite FloatAxioms.mul_spec, FloatAxioms.add_spec, FloatAxioms.mul_spec.
  apply SFmul_notnan_finite_r; [|exact I].
  apply SFadd_notnan_finite; [|exact I].
  apply SFmul_notnan_finite_l; [exact I|].
  apply is_nan_false, Log10_defined, leb_zero_nonneg.
  unfold nonneg. rewrite FloatAxioms.div_spec, FloatAxioms.sqrt_spec, FloatAxioms.div_spec.
  apply SFdiv_nonneg; [|exact I].
  apply SFsqrt_nonneg, SFdiv_nonneg; [assumption|].
  now apply of_int_pos_posfin.
Qed.

Lemma levelOfDecibels_range s sampleCount clipping :
  nonneg s -> 0 < sampleCount < 2 ^ 63 ->
  0 <= levelOfDecibels (decibels Log10 s sampleCount) clipping <= 100.
Proof.
  intros Hs Hc. pose proof (scaleDecibels_notnan s sampleCount Hs Hc) as Hn.
  unfold levelOfDecibels. destruct clipping.
  - destruct (Max_95_cases _ Hn) as [-> | [-> | [-> H95]]].
    + vm_compute. split; discriminate.
    + vm_compute. split; discriminate.
    + now apply to_int_clampLevel_range.
  - now apply to_int_clampLevel_range.
Qed.

Lemma levelOfDecibels_clipping s sampleCount :
  nonneg s -> 0 < sampleCount < 2 ^ 63 ->
  95 <= levelOfDecibels (decibels Log10 s sampleCount) true <= 100.
Proof.
  intros Hs Hc. pose proof (scaleDecibels_notnan s sampleCount Hs Hc) as Hn.
  unfold levelOfDecibels.
  destruct (Max_95_cases _ Hn) as [-> | [-> | [-> H95]]].
  - vm_compute. split; discriminate.
  - vm_compute. split; discriminate.
  - now apply to_int_clampLevel_above_95.
Qed.

End Decibels.

(** ** The claims about [calculateAudioLevel] *)

Section CalculateAudioLevel.

Variable Log10 : float -> float.

(** The special cases of [math.Log10] the proofs rely on: it is -Inf at
    zero, and it is NaN only for a negative or NaN argument. *)
Hypothesis Log10_zero : Log10 0%float = PrimFloat.neg_infinity.
Hypothesis Log10_defined :
  forall x, PrimFloat.leb 0 x = true -> PrimFloat.is_nan (Log10 x) = false.

Lemma sampleCount_range (samples : list byte) :
  Z.of_nat (length samples) < 2 ^ 63 ->
  (Z.of_nat (length samples / 2) =? 0) = false ->
  0 < Z.of_nat (length samples / 2) < 2 ^ 63.
Proof.
  intros Hlen Hc. apply Z.eqb_neq in Hc.
  pose proof (Nat.Div0.div_le_upper_bound (length samples) 2 (length samples)
                ltac:(lia)). lia.
Qed.

(** C8.  For every PCM chunk (of a length a Go slice can have), the level
    that [calculateAudioLevel] returns lies between 0 and 100 inclusive. *)
Theorem calculateAudioLevel_level_range samples source name :
  Z.of_nat (length samples) < 2 ^ 63 ->
  0 <= Level (calculateAudioLevel Log10 samples source name) <= 100.
Proof.
  intros Hlen. rewrite calculateAudioLevel_unfold. cbv zeta.
  destruct (Z.of_nat (length samples / 2) =? 0) eqn:Hc; cbn [Level]; [lia|].
  apply levelOfDecibels_range; auto using sampleCount_range.
  apply sampleLoop_sum_nonneg. exact I.
Qed.

(** C4.  A chunk with at least one 16-bit sample at 32767 or -32768 is
    reported as clipping, with a level of at least 95. *)
Theorem calculateAudioLevel_clipping samples source name :
  Z.of_nat (length samples) < 2 ^ 63 ->
  Exists (fun sample => sample = 32767 \/ sample = -32768) (pcmSamples samples) ->
  Clipping (calculateAudioLevel Log10 samples source name) = true /\
  95 <= Level (calculateAudioLevel Log10 samples source name).
Proof.
  intros Hlen Hex. rewrite calculateAudioLevel_unfold. cbv zeta.
  assert (Hclip : isClipping (sampleLoop samples loopInit) = true).
  { rewrite sampleLoop_isClipping. cbn [isClipping loopInit orb].
    apply List.existsb_exists. apply List.Exists_exists in Hex as (s & Hin & Hs).
    exists s. split; [assumption|]. unfold isExtreme.
    destruct Hs as [-> | ->]; reflexivity. }
  destruct (Z.of_nat (length samples / 2) =? 0) eqn:Hc.
  { exfalso. apply Z.eqb_eq in Hc. rewrite <- pcmSamples_length in Hc.
    destruct (pcmSamples samples); [inversion Hex | discriminate]. }
  cbn [Level Clipping]. rewrite Hclip. split; [reflexivity|].
  apply levelOfDecibels_clipping; auto using sampleCount_range.
  apply sampleLoop_sum_nonneg. exact I.
Qed.

Lemma sampleLoop_silence samples :
  Forall (fun sample => sample = 0) (pcmSamples samples) ->
  sampleLoop samples loopInit = loopInit.
Proof.
  induction samples as [|a|a b l IH] using pair_ind; intros H;
    [reflexivity | reflexivity |].
  cbn [pcmSamples] in H. inversion H as [|s ss Hs Hss]; subst.
  cbn [sampleLoop]. unfold sampleStep. rewrite Hs.
  change (sampleLoop l loopInit = loopInit). auto.
Qed.

Lemma div_zero_posfin y : sf_posfin (Prim2SF y) -> PrimFloat.div 0 y = 0%float.
Proof.
  intros H. apply Prim2SF_inj. rewrite FloatAxioms.div_spec.
  change (Prim2SF 0%float) with (S754_zero false).
  destruct (Prim2SF y) as [s|s| |[] m e]; simpl in H;
    first [contradiction | reflexivity].
Qed.

(** C5.  A chunk whose 16-bit samples are all zero has level 0 and is not
    reported as clipping. *)
Theorem calculateAudioLevel_silence samples source name :
  Z.of_nat (length samples) < 2 ^ 63 ->
  Forall (fun sample => sample = 0) (pcmSamples samples) ->
  Level (calculateAudioLevel Log10 samples source name) = 0 /\
  Clipping (calculateAudioLevel Log10 samples source name) = false.
Proof.
  intros Hlen Hz. rewrite calculateAudioLevel_unfold. cbv zeta.
  rewrite sampleLoop_silence by assumption.
  destruct (Z.of_nat (length samples / 2) =? 0) eqn:Hc; cbn [Level Clipping];
    [split; reflexivity|].
  split; [|reflexivity]. unfold decibels. cbn [sum loopInit].
  rewrite div_zero_posfin by (apply of_int_pos_posfin; auto using sampleCount_range).
  change (PrimFloat.div (PrimFloat.sqrt 0) 32768) with 0%float.
  rewrite Log10_zero. reflexivity.
Qed.

(** C9.  On a byte slice of odd length [calculateAudioLevel] returns what
    it returns on the slice without its last byte. *)
Theorem calculateAudioLevel_odd_length samples source name :
  Nat.odd (length samples) = true ->
  calculateAudioLevel Log10 samples source name =
  calculateAudioLevel Log10 (removelast samples) source name.
Proof.
  intros Hodd. rewrite !calculateAudioLevel_unfold. cbv zeta.
  rewrite removelast_firstn_len, <- Nat.sub_1_r.
  rewrite sampleLoop_unpaired by assumption.
  rewrite length_firstn, Nat.min_l by lia.
  rewrite div2_odd_pred by assumption. reflexivity.
Qed.

End CalculateAudioLevel.

(** ** The stand-in [Log10_pwl] has the special cases of [math.Log10] *)

Lemma SFadd_fz_notnan x y : sf_fz x -> sf_notnan y -> sf_notnan (SF64add x y).
Proof.
  destruct x as [sx|sx| |sx mx ex]; simpl; try tauto;
  destruct y as [sy|sy| |sy my ey]; simpl; try tauto; intros _ _.
  - destruct sx, sy; exact I.
  - apply binary_normalize_notnan.
Qed.

Lemma SFsub_notnan_finite x y :
  sf_notnan x -> sf_finite y -> sf_notnan (SF64sub x y).
Proof.
  destruct x as [sx|sx| |sx mx ex]; simpl; try tauto;
  destruct y as [sy|sy| |sy my ey]; simpl; try tauto; intros _ _.
  apply binary_normalize_notnan.
Qed.

Lemma of_int_fz z : - 2 ^ 63 < z < 2 ^ 63 -> sf_fz (Prim2SF (Float64.of_int z)).
Proof.
  intros H. unfold Float64.of_int. destruct (Z.ltb_spec z 0) as [Hn|Hn].
  - rewrite FloatAxioms.opp_spec.
    pose proof (of_uint63_posfin (Uint63.of_Z (- z))) as Hp.
    rewrite to_Z_of_Z_small in Hp by lia. specialize (Hp ltac:(lia)).
    destruct (Prim2SF (of_uint63 (Uint63.of_Z (- z)))) as [s|s| |[] m e];
      simpl in *; tauto.
  - destruct (Z.eq_dec z 0) as [->|Hz]; [exact I|].
    pose proof (of_uint63_posfin (Uint63.of_Z z)) as Hp.
    rewrite to_Z_of_Z_small in Hp by lia. specialize (Hp ltac:(lia)).
    destruct (Prim2SF (of_uint63 (Uint63.of_Z z))) as [s|s| |[] m e];
      simpl in *; tauto.
Qed.

Lemma valid_binary_exponent s m e :
  valid_binary (S754_finite s m e) = true -> -1074 <= e <= 971.
Proof.
  simpl. unfold bounded, canonical_mantissa. intros H.
  apply andb_prop in H as [H1 H2]. apply Z.eqb_eq in H1. apply Z.leb_le in H2.
  unfold fexp, SpecFloat.emin, prec, emax in *. lia.
Qed.

Lemma frexp_finite x m e :
  Prim2SF x = S754_finite false m e ->
  sf_finite (Prim2SF (fst (FloatOps.Z.frexp x))) /\
  -1074 <= snd (FloatOps.Z.frexp x) <= 1024.
Proof.
  intros E. pose proof (Z_frexp_spec x) as Hs.
  pose proof (Prim2SF_valid x) as Hv. rewrite E in Hv.
  pose proof (valid_binary_exponent _ _ _ Hv) as He.
  pose proof (valid_binary_mantissa _ _ _ Hv) as Hm.
  destruct (FloatOps.Z.frexp x) as [frac exp]. rewrite E in Hs.
  cbn [fst snd]. unfold SFfrexp in Hs.
  assert (Hd : 1 <= Z.pos (digits2_pos m) <= 53).
  { pose proof (Zdigits2_log2 (Z.pos m) ltac:(lia)) as Hd.
    change (Zdigits2 (Z.pos m)) with (Z.pos (digits2_pos m)) in Hd.
    assert (Z.log2 (Z.pos m) < 53) by (apply Z.log2_lt_pow2; lia). lia. }
  destruct (prec <=? Z.pos (digits2_pos m));
    injection Hs as -> ->; unfold prec; split; try exact I; lia.
Qed.

Lemma Log10_pwl_zero : Log10_pwl 0%float = PrimFloat.neg_infinity.
Proof. reflexivity. Qed.

Lemma Log10_pwl_defined x :
  PrimFloat.leb 0 x = true -> PrimFloat.is_nan (Log10_pwl x) = false.
Proof.
  intros H. apply leb_zero_nonneg in H.
  pose proof (sf_nonneg_notnan _ H) as Hn. apply is_nan_false in Hn.
  unfold Log10_pwl. rewrite Hn.
  destruct (PrimFloat.eqb x infinity) eqn:Hinf; [assumption|].
  destruct (PrimFloat.ltb x 0) eqn:Hlt.
  { exfalso. rewrite FloatAxioms.ltb_spec in Hlt. unfold nonneg in H.
    change (Prim2SF 0%float) with (S754_zero false) in Hlt.
    destruct (Prim2SF x) as [s|[]| |[] m e]; simpl in H; try tauto; discriminate. }
  destruct (PrimFloat.eqb x 0) eqn:Hz; [reflexivity|].
  assert (E : exists m e, Prim2SF x = S754_finite false m e).
  { rewrite FloatAxioms.eqb_spec in Hinf, Hz. unfold nonneg in H.
    change (Prim2SF 0%float) with (S754_zero false) in Hz.
    change (Prim2SF infinity) with (S754_infinity false) in Hinf.
    destruct (Prim2SF x) as [s|[]| |[] m e]; simpl in H; try tauto;
      try discriminate. eauto. }
  destruct E as (m & e & E). destruct (frexp_finite x m e E) as [Hf He].
  destruct (FloatOps.Z.frexp x) as [frac exp]. cbn [fst snd] in Hf, He.
  apply is_nan_false. unfold notnan.
  rewrite FloatAxioms.mul_spec, FloatAxioms.add_spec, FloatAxioms.sub_spec,
    FloatAxioms.mul_spec.
  apply SFmul_notnan_finite_r; [|exact I].
  apply SFadd_fz_notnan; [apply of_int_fz; lia|].
  apply SFsub_notnan_finite; [|exact I].
  apply SFmul_notnan_finite_l; [exact I|].
  destruct (Prim2SF frac); simpl in Hf; tauto.
Qed.

(** * The scale from decibels to the level

    How the additions, multiplications and comparisons of binary64 treat
    a number that lies at, above or below a number they represent
    exactly; [calculateAudioLevel] adds 60 to the decibel value, doubles
    the sum and compares the result with 0 and 100. *)

(** ** Rounding against a threshold *)
















(** ** The order of two valid floats is the order of their numbers *)




(** ** From the scaled level to the level *)

Lemma units_0 t : units t 0 = t * 2 ^ 1200.
Proof. reflexivity. Qed.

Lemma units_neg_exp m e :
  -1200 <= e <= 0 -> units m e * 2 ^ (- e) = m * 2 ^ 1200.
Proof.
  intros He. unfold units. rewrite <- Z.mul_assoc, <- Z.pow_add_r by lia.
  f_equal. f_equal. lia.
Qed.








(** ** Doubling *)






(** ** Adding 60 *)























Lemma calculateAudioLevel_level_range_witness :
  Z.of_nat (length [x00; x01]) < 2 ^ 63 /\
  0 <= Level (calculateAudioLevel Log10_pwl [x00; x01] "malgo" "mic") <= 100.
Proof.
  split; [reflexivity|].
  apply (calculateAudioLevel_level_range Log10_pwl Log10_pwl_defined).
  reflexivity.
Defined.

Lemma calculateAudioLevel_clipping_witness :
  Clipping (calculateAudioLevel Log10_pwl [x00; x00; xff; x7f] "malgo" "mic") = true /\
  95 <= Level (calculateAudioLevel Log10_pwl [x00; x00; xff; x7f] "malgo" "mic").
Proof.
  apply (calculateAudioLevel_clipping Log10_pwl Log10_pwl_defined).
  - reflexivity.
  - apply Exists_cons_tl, Exists_cons_hd. left. reflexivity.
Defined.

Lemma calculateAudioLevel_silence_witness :
  Level (calculateAudioLevel Log10_pwl [x00; x00; x00; x00; x07] "malgo" "mic") = 0 /\
  Clipping (calculateAudioLevel Log10_pwl [x00; x00; x00; x00; x07] "malgo" "mic") = false.
Proof.
  apply (calculateAudioLevel_silence Log10_pwl Log10_pwl_zero).
  - reflexivity.
  - repeat constructor.
Defined.

Lemma calculateAudioLevel_odd_length_witness :
  calculateAudioLevel Log10_pwl [x00; x01; x07] "malgo" "mic" =
  calculateAudioLevel Log10_pwl [x00; x01] "malgo" "mic".
Proof.
  apply (calculateAudioLevel_odd_length Log10_pwl [x00; x01; x07]).
  reflexivity.
Defined.

(** ** The level at, above and below a decibel value *)




(** * [cleanRTSPUrl] *)

Lemma append_nil_l (b : string) : "" +:+ b = b.
Proof. reflexivity. Qed.

Lemma append_cons c (a b : string) : String c a +:+ b = String c (a +:+ b).
Proof. reflexivity. Qed.

Ltac str_simpl := simpl; rewrite ?append_cons, ?append_nil_l; simpl.

Lemma length_append (a b : string) :
  String.length (a +:+ b) = (String.length a + String.length b)%nat.
Proof. induction a as [|c a IH]; str_simpl; congruence. Qed.

Lemma append_assoc (a b c : string) : (a +:+ b) +:+ c = a +:+ (b +:+ c).
Proof. induction a as [|x a IH]; str_simpl; congruence. Qed.

Lemma get_append_length (pre : string) a s :
  String.get (String.length pre) (pre +:+ String a s) = Some a.
Proof. induction pre as [|c pre IH]; str_simpl; auto. Qed.

Lemma indexByteLoop_append c s : forall pre,
  indexByteLoop c (pre +:+ s) (String.length pre) (String.length s) =
  option_map (Nat.add (String.length pre)) (findByte c s).
Proof.
  induction s as [|a s IH]; intros pre; [reflexivity|].
  cbn [String.length indexByteLoop findByte].
  rewrite get_append_length. destruct (Ascii.eqb a c).
  - simpl. f_equal. lia.
  - specialize (IH (pre +:+ String a EmptyString)).
    rewrite append_assoc, length_append in IH.
    rewrite append_cons, append_nil_l in IH. simpl in IH.
    replace (String.length pre + 1)%nat with (S (String.length pre)) in IH by lia.
    rewrite IH. destruct (findByte c s); simpl; [f_equal; lia | reflexivity].
Qed.

Lemma indexByteFrom_append c (pre s : string) :
  indexByteFrom c (pre +:+ s) (String.length pre) =
  option_map (Nat.add (String.length pre)) (findByte c s).
Proof.
  unfold indexByteFrom. rewrite length_append.
  replace (String.length pre + String.length s - String.length pre)%nat
    with (String.length s) by lia.
  apply indexByteLoop_append.
Qed.


Lemma substring_append_keep (a b : string) j :
  String.substring 0 (String.length a + j) (a +:+ b) = a +:+ String.substring 0 j b.
Proof. induction a as [|c a IH]; str_simpl; congruence. Qed.








(** * The level registry *)


Lemma checkSourceActivity_fold now lu lnz threshold
    (base m : gmap string AudioLevelData) (s : string) :
  fst (map_fold (checkSource now lu lnz threshold) (base, false) m) !! s =
  match m !! s with
  | Some d =>
      if isSourceInactive s now lu lnz threshold && negb (Level d =? 0)
      then Some (setLevel 0 d) else base !! s
  | None => base !! s
  end.
Proof.
  revert s.
  apply (map_fold_weak_ind (fun (r : gmap string AudioLevelData * bool) m =>
    forall s, fst r !! s =
      match m !! s with
      | Some d =>
          if isSourceInactive s now lu lnz threshold && negb (Level d =? 0)
          then Some (setLevel 0 d) else base !! s
      | None => base !! s
      end)).
  - intros s. rewrite lookup_empty. reflexivity.
  - intros i x m' r Hi IH s. unfold checkSource.
    destruct (decide (i = s)) as [->|Hne].
    + rewrite lookup_insert_eq.
      destruct (isSourceInactive s now lu lnz threshold && negb (Level x =? 0)).
      * cbn [fst]. apply lookup_insert_eq.
      * rewrite IH, Hi. reflexivity.
    + rewrite (lookup_insert_ne m') by assumption.
      destruct (isSourceInactive i now lu lnz threshold && negb (Level x =? 0)).
      * cbn [fst]. rewrite lookup_insert_ne by assumption. apply IH.
      * apply IH.
Qed.

Lemma checkSourceActivity_lookup lv lu lnz threshold now (s : string) :
  fst (checkSourceActivity lv lu lnz threshold now) !! s =
  checkedEntry now lu lnz threshold s <$> lv !! s.
Proof.
  unfold checkSourceActivity. rewrite checkSourceActivity_fold.
  unfold checkedEntry. destruct (lv !! s) as [d|] eqn:E; [|reflexivity].
  cbn [fmap option_fmap option_map].
  destruct (_ && _); congruence.
Qed.



(** ** The invariant of the registry *)



Lemma is_Some_insert {A} (m : gmap string A) (k s : string) (x : A) :
  is_Some (<[k := x]> m !! s) <-> k = s \/ is_Some (m !! s).
Proof.
  destruct (decide (k = s)) as [->|Hne].
  - rewrite lookup_insert_eq. split; eauto.
  - rewrite lookup_insert_ne by assumption. split; [auto | intros [?|?]; tauto].
Qed.








Lemma setLevel_same d : Level d = 0 -> setLevel 0 d = d.
Proof. destruct d; simpl; intros ->; reflexivity. Qed.







(** * [ReconfigureRTSPStreams] *)

(** ** Sequencing *)

Lemma traceProg_bind {A B} (m : Prog A) (k : A -> Prog B) s :
  traceProg (bind m k) s =
  traceProg m s ++ traceProg (k (fst (fst (m s)))) (execProg m s).
Proof.
  unfold traceProg, execProg, bind.
  destruct (m s) as [[a s1] t1]. simpl. destruct (k a s1) as [[b s2] t2].
  reflexivity.
Qed.

Lemma execProg_bind {A B} (m : Prog A) (k : A -> Prog B) s :
  execProg (bind m k) s = execProg (k (fst (fst (m s)))) (execProg m s).
Proof.
  unfold execProg, bind.
  destruct (m s) as [[a s1] t1]. simpl. destruct (k a s1) as [[b s2] t2].
  reflexivity.
Qed.

Lemma forEach_cons {A} (x : A) l body s :
  traceProg (forEach (x :: l) body) s =
    traceProg (body x) s ++ traceProg (forEach l body) (execProg (body x) s) /\
  execProg (forEach (x :: l) body) s =
    execProg (forEach l body) (execProg (body x) s).
Proof. simpl forEach. now rewrite traceProg_bind, execProg_bind. Qed.

Lemma forEachIndexed_cons {A} i (x : A) l body s :
  traceProg (forEachIndexed i (x :: l) body) s =
    traceProg (body i x) s ++
    traceProg (forEachIndexed (S i) l body) (execProg (body i x) s) /\
  execProg (forEachIndexed i (x :: l) body) s =
    execProg (forEachIndexed (S i) l body) (execProg (body i x) s).
Proof. simpl forEachIndexed. now rewrite traceProg_bind, execProg_bind. Qed.

(** A property of traces that holds of the empty trace and of a
    concatenation holds of a loop when it holds of every run of its body. *)
Section TraceInvariant.

Variable Q : list Event -> Prop.
Hypothesis Q_nil : Q [].
Hypothesis Q_app : forall t1 t2, Q t1 -> Q t2 -> Q (t1 ++ t2).

Lemma forEach_trace {A} (body : A -> Prog unit) l :
  (forall x s, Q (traceProg (body x) s)) ->
  forall s, Q (traceProg (forEach l body) s).
Proof.
  intros Hb. induction l as [|x l IH]; intros s; [exact Q_nil|].
  rewrite (proj1 (forEach_cons x l body s)). auto.
Qed.

Lemma forEachIndexed_trace {A} (body : nat -> A -> Prog unit) l :
  (forall i x s, Q (traceProg (body i x) s)) ->
  forall i s, Q (traceProg (forEachIndexed i l body) s).
Proof.
  intros Hb. induction l as [|x l IH]; intros i s; [exact Q_nil|].
  rewrite (proj1 (forEachIndexed_cons i x l body s)). auto.
Qed.

End TraceInvariant.

Ltac prog_unfold :=
  unfold traceProg, execProg, startStream, stopStream, bind, gets, when, ret,
    logLine, time_Sleep, spawnCapture, emit, AllocateAnalysisBuffer,
    AllocateCaptureBuffer, RemoveAnalysisBuffer, RemoveCaptureBuffer,
    FFmpegProcess_Cleanup, activeStreams_Delete, activeStreams_Store,
    monitorStart, monitorStop, isErr in *.

(** ** Freeing comes after a sleep, and nothing is awaited *)

Lemma sleepBeforeFree_nil : sleepBeforeFree [].
Proof. intros i e url Hi. rewrite lookup_nil in Hi. discriminate. Qed.

Lemma sleepBeforeFree_app t1 t2 :
  sleepBeforeFree t1 -> sleepBeforeFree t2 -> sleepBeforeFree (t1 ++ t2).
Proof.
  intros H1 H2 i e url Hi Hf.
  destruct (decide (i < length t1)%nat) as [Hlt|Hge].
  - rewrite lookup_app_l in Hi by assumption.
    destruct (H1 i e url Hi Hf) as (j & k & Hjk & Hj & Hk).
    exists j, k. split; [assumption|].
    rewrite !lookup_app_l by lia. auto.
  - rewrite lookup_app_r in Hi by lia.
    destruct (H2 _ e url Hi Hf) as (j & k & Hjk & Hj & Hk).
    exists (length t1 + j)%nat, (length t1 + k)%nat. split; [lia|].
    rewrite !lookup_app_r by lia.
    replace (length t1 + j - length t1)%nat with j by lia.
    replace (length t1 + k - length t1)%nat with k by lia. auto.
Qed.

Lemma sleepBeforeFree_no_free t :
  (forall e url, e ∈ t -> ~ isFree url e) -> sleepBeforeFree t.
Proof.
  intros H i e url Hi Hf. exfalso. apply (H e url); [|assumption].
  eapply list_elem_of_lookup_2, Hi.
Qed.

Lemma stopStream_sleepBeforeFree settings url s :
  sleepBeforeFree (traceProg (stopStream settings url) s).
Proof.
  prog_unfold. destruct (foundIn url (RTSP_URLs settings)); simpl;
    [apply sleepBeforeFree_nil|].
  repeat case_bool_decide; simpl;
    intros i e u Hi [-> | ->];
    repeat (destruct i as [|i]; simpl in Hi; try discriminate);
    injection Hi as <-;
    first [ exists 0%nat, 2%nat; split; [lia|]; split; reflexivity
          | exists 2%nat, 4%nat; split; [lia|]; split; reflexivity ].
Qed.

Lemma Reconfigure_trace_invariant (Q : list Event -> Prop) stop conf exhausted visit settings :
  Q [] -> (forall t1 t2, Q t1 -> Q t2 -> Q (t1 ++ t2)) ->
  Q [EvMonitorStart] -> Q [EvMonitorStop] ->
  (forall url s, Q (traceProg (stopStream settings url) s)) ->
  (forall i url s, Q (traceProg (startStream conf exhausted settings i url) s)) ->
  forall s, Q (traceProg (ReconfigureRTSPStreams stop conf exhausted visit settings) s).
Proof.
  intros Qnil Qapp Qstart Qstop Qs Qn s. unfold ReconfigureRTSPStreams.
  destruct (length (RTSP_URLs settings) =? 0)%nat.
  - rewrite traceProg_bind. apply Qapp; [exact Qnil|].
    unfold gets. cbn [fst]. destruct (ffmpegMonitor s); [exact Qstop | exact Qnil].
  - rewrite traceProg_bind. apply Qapp; [exact Qnil|].
    rewrite traceProg_bind. apply Qapp.
    { unfold gets. cbn [fst]. destruct (ffmpegMonitor s); [exact Qnil | exact Qstart]. }
    rewrite traceProg_bind. apply Qapp.
    + unfold stopRemovedStreams. rewrite traceProg_bind. apply Qapp; [exact Qnil|].
      now apply forEach_trace.
    + unfold startNewStreams. now apply forEachIndexed_trace.
Qed.

Lemma startStream_trace_cases conf exhausted settings i url s :
  let t := traceProg (startStream conf exhausted settings i url) s in
  t = [] \/
  t = [EvAllocateAnalysisBuffer url (Some ResourceExhausted);
       EvLog (LogInitAnalysisFailed url)] \/
  (exists a, t = a ++ [EvActivate url; EvSpawn url (RTSP_Transport settings)] /\
     (a = [] \/ a = [EvAllocateAnalysisBuffer url None] \/
      a = [EvAllocateCaptureBuffer url None] \/
      a = [EvAllocateAnalysisBuffer url None; EvAllocateCaptureBuffer url None])) \/
  t = [EvAllocateCaptureBuffer url (Some ResourceExhausted);
       EvLog (LogInitCaptureFailed url)] \/
  t = [EvAllocateAnalysisBuffer url None;
       EvAllocateCaptureBuffer url (Some ResourceExhausted);
       EvRemoveCaptureBuffer url (Some NotFound);
       EvLog (LogCleanupFailed url); EvLog (LogInitCaptureFailed url)].
Proof.
  prog_unfold. simpl.
  destruct (bool_decide (url ∈ activeStreams s)); simpl; [auto|].
  destruct (bool_decide (is_Some (analysisBuffers s !! url))) eqn:HA;
    destruct (bool_decide (is_Some (captureBuffers s !! url))) eqn:HC;
    simpl; rewrite ?HA, ?HC; simpl;
    destruct (exhausted i AnalysisKind), (exhausted i CaptureKind);
    repeat (first [rewrite HA | rewrite HC | progress simpl]);
    first
      [ left; reflexivity
      | right; left; reflexivity
      | right; right; left; exists []; split; [reflexivity | tauto]
      | right; right; left; exists [EvAllocateAnalysisBuffer url None];
        split; [reflexivity | tauto]
      | right; right; left; exists [EvAllocateCaptureBuffer url None];
        split; [reflexivity | tauto]
      | right; right; left;
        exists [EvAllocateAnalysisBuffer url None; EvAllocateCaptureBuffer url None];
        split; [reflexivity | tauto]
      | right; right; right; left; reflexivity
      | right; right; right; right; reflexivity ].
Qed.

Lemma startStream_event conf exhausted settings i url s e :
  e ∈ traceProg (startStream conf exhausted settings i url) s ->
  eventUrl e = Some url /\ (forall u, ~ isFree u e) /\
  (forall u, e <> EvAwaitDrain u) /\ (forall u, e <> EvDeactivate u).
Proof.
  intros He.
  destruct (startStream_trace_cases conf exhausted settings i url s)
    as [H|[H|[(a & H & Ha)|[H|H]]]];
    [| | destruct Ha as [->|[->|[->| ->]]]; simpl in H | |];
    rewrite H in He;
    repeat (apply elem_of_cons in He as [->|He]);
    try (apply elem_of_nil in He; contradiction);
    (split; [reflexivity|]; split; [intros u [?|?]; discriminate|];
     split; intros u; discriminate).
Qed.

Lemma stopStream_no_await settings url s e :
  e ∈ traceProg (stopStream settings url) s -> forall u, e <> EvAwaitDrain u.
Proof.
  prog_unfold. destruct (foundIn url (RTSP_URLs settings)); simpl.
  { intros He. apply elem_of_nil in He. contradiction. }
  repeat case_bool_decide; simpl; intros He;
    repeat (apply elem_of_cons in He as [->|He]);
    try (apply elem_of_nil in He; contradiction); intros u; discriminate.
Qed.

(** C1, as the code has it.  In every call, a buffer of a source is freed
    only after the source was taken out of the active streams and a fixed
    sleep of 100 ms followed; the call never waits for a drain
    acknowledgment of the writer. *)
Theorem Reconfigure_sleeps_before_free stop conf exhausted visit settings s :
  let trace := traceProg (ReconfigureRTSPStreams stop conf exhausted visit settings) s in
  sleepBeforeFree trace /\ forall url, EvAwaitDrain url ∉ trace.
Proof.
  split.
  - apply Reconfigure_trace_invariant;
      auto using sleepBeforeFree_nil, sleepBeforeFree_app,
                 stopStream_sleepBeforeFree.
    + apply sleepBeforeFree_no_free. intros e url He [-> | ->];
        apply list_elem_of_singleton in He; discriminate.
    + apply sleepBeforeFree_no_free. intros e url He [-> | ->];
        apply list_elem_of_singleton in He; discriminate.
    + intros i url s0. apply sleepBeforeFree_no_free. intros e u He.
      now apply (startStream_event conf exhausted settings i url s0 e He).
  - intros url.
    apply (Reconfigure_trace_invariant (fun t => EvAwaitDrain url ∉ t)).
    + apply not_elem_of_nil.
    + intros t1 t2 H1 H2 Hin. apply elem_of_app in Hin. tauto.
    + intros He. apply list_elem_of_singleton in He. discriminate.
    + intros He. apply list_elem_of_singleton in He. discriminate.
    + intros u s0 He. now apply (stopStream_no_await settings u s0 _ He url).
    + intros i u s0 He.
      destruct (startStream_event conf exhausted settings i u s0 _ He) as (_ & _ & Hn & _).
      now apply (Hn url).
Qed.

(** On the removal of a running stream its analysis buffer is freed by
    event 5 of the trace, and no drain acknowledgment was awaited before. *)
Lemma Reconfigure_frees_without_ack :
  traceProg (ReconfigureRTSPStreams monitorOnly sampleConf neverExhausted elements twoCameras) oneStream
    !! 5%nat = Some (EvRemoveAnalysisBuffer "rtsp://old/live" None) /\
  ~ drainAckBeforeFree
      (traceProg (ReconfigureRTSPStreams monitorOnly sampleConf neverExhausted elements twoCameras)
         oneStream).
Proof.
  split; [vm_compute; reflexivity|].
  intros H.
  destruct (H 5%nat (EvRemoveAnalysisBuffer "rtsp://old/live" None) "rtsp://old/live")
    as (j & Hj & Hev).
  - vm_compute. reflexivity.
  - left. reflexivity.
  - do 5 (destruct j as [|j]; [vm_compute in Hev; discriminate|]). lia.
Qed.

(** ** One iteration of the start loop *)

Lemma bool_decide_is_Some {A} (o : option A) :
  bool_decide (is_Some o) = match o with Some _ => true | None => false end.
Proof.
  destruct o; [apply bool_decide_eq_true; eauto|].
  apply bool_decide_eq_false. intros [x Hx]. discriminate.
Qed.

Lemma startStream_outcome conf exhausted settings i url s :
  startStream conf exhausted settings i url s = startOutcome conf exhausted settings i url s.
Proof.
  unfold startOutcome. prog_unfold. simpl.
  destruct (bool_decide (url ∈ activeStreams s)); simpl; [reflexivity|].
  rewrite !bool_decide_is_Some.
  destruct (analysisBuffers s !! url) eqn:HA, (captureBuffers s !! url) eqn:HC;
    simpl; rewrite ?bool_decide_is_Some, ?HA, ?HC; simpl;
    destruct (exhausted i AnalysisKind), (exhausted i CaptureKind);
    repeat (first [rewrite bool_decide_is_Some | rewrite HA | rewrite HC
                  | progress simpl]);
    reflexivity.
Qed.

Ltac outcome_cases conf exhausted i url s :=
  unfold traceProg, execProg in *;
  rewrite ?startStream_outcome in *; unfold startOutcome in *;
  destruct (bool_decide (url ∈ activeStreams s)) eqn:Hact;
  [| destruct (analysisBuffers s !! url) eqn:HA,
              (captureBuffers s !! url) eqn:HC;
     destruct (exhausted i AnalysisKind) eqn:HeA,
              (exhausted i CaptureKind) eqn:HeC ];
  cbn [fst snd] in *.

Ltac elem_cases H :=
  repeat (apply elem_of_cons in H; destruct H as [H|H]);
  try (apply elem_of_nil in H; contradiction).

Lemma startStream_noop conf exhausted settings i url s :
  url ∈ activeStreams s -> startStream conf exhausted settings i url s = (tt, s, []).
Proof.
  intros H. rewrite startStream_outcome. unfold startOutcome.
  now rewrite bool_decide_eq_true_2.
Qed.

(** An iteration touches no stream but its own. *)
Lemma startStream_frame conf exhausted settings i url s v :
  v <> url ->
  streamView v (execProg (startStream conf exhausted settings i url) s) = streamView v s.
Proof.
  intros Hne. outcome_cases conf exhausted i url s; try reflexivity;
    unfold streamView, activated, withCaptureBuffer, withAnalysisBuffer,
      withoutCaptureBuffer; simpl;
    rewrite ?lookup_insert_ne, ?lookup_delete_ne by congruence;
    repeat f_equal; apply bool_decide_ext; set_solver.
Qed.

Lemma startStream_other_state conf exhausted settings i url s :
  ffmpegMonitor (execProg (startStream conf exhausted settings i url) s) = ffmpegMonitor s /\
  ffmpegProcesses (execProg (startStream conf exhausted settings i url) s) = ffmpegProcesses s.
Proof. outcome_cases conf exhausted i url s; split; reflexivity. Qed.

(** The active streams grow by the streams the iteration activates. *)
Lemma startStream_active conf exhausted settings i url s v :
  v ∈ activeStreams (execProg (startStream conf exhausted settings i url) s) <->
  v ∈ activeStreams s \/ EvActivate v ∈ traceProg (startStream conf exhausted settings i url) s.
Proof.
  outcome_cases conf exhausted i url s; simpl;
    (split; [intros H | intros [H|H]]); try set_solver;
    try (elem_cases H; try discriminate; injection H as ->; set_solver).
Qed.

Lemma failure_in (t : list Event) url e :
  e ∈ t ->
  e = EvAllocateAnalysisBuffer url (Some ResourceExhausted) \/
  e = EvAllocateCaptureBuffer url (Some ResourceExhausted) ->
  exists e, e ∈ t /\ isAllocationFailure url e.
Proof.
  intros Hin He. exists e. split; [assumption|].
  exists ResourceExhausted. assumption.
Qed.

Lemma allocation_in (t : list Event) url e err :
  e ∈ t ->
  e = EvAllocateAnalysisBuffer url err \/ e = EvAllocateCaptureBuffer url err ->
  exists e, e ∈ t /\ isAllocation url e.
Proof.
  intros Hin He. exists e. split; [assumption|]. exists err. assumption.
Qed.

Lemma log_in (t : list Event) url e :
  e ∈ t -> isFailureLog url e -> exists e', e' ∈ t /\ isFailureLog url e'.
Proof. eauto. Qed.

Ltac in_list := repeat first [apply list_elem_of_here | apply list_elem_of_further].

(** An iteration in which no allocation fails leaves its stream active. *)
Lemma startStream_started_or_failed conf exhausted settings i url s :
  url ∈ activeStreams (execProg (startStream conf exhausted settings i url) s) \/
  exists e, e ∈ traceProg (startStream conf exhausted settings i url) s /\
            isAllocationFailure url e.
Proof.
  outcome_cases conf exhausted i url s;
    try (left; first [ apply bool_decide_eq_true_1 in Hact; assumption
                     | unfold activated; simpl; set_solver ]);
    right;
    first [ eapply failure_in; [|left; reflexivity]; in_list; fail
          | eapply failure_in; [|right; reflexivity]; in_list; fail ].
Qed.

(** What an allocation failure means for the iteration it happens in. *)
Lemma startStream_failure conf exhausted settings i url s e u :
  e ∈ traceProg (startStream conf exhausted settings i url) s ->
  isAllocationFailure u e ->
  u = url /\
  (url ∉ activeStreams s) /\
  (url ∉ activeStreams (execProg (startStream conf exhausted settings i url) s)) /\
  (exists e', e' ∈ traceProg (startStream conf exhausted settings i url) s /\
              isFailureLog url e') /\
  (forall tr, EvSpawn url tr ∉ traceProg (startStream conf exhausted settings i url) s) /\
  (EvActivate url ∉ traceProg (startStream conf exhausted settings i url) s) /\
  (analysisBuffers (execProg (startStream conf exhausted settings i url) s) !! url = None \/
   captureBuffers (execProg (startStream conf exhausted settings i url) s) !! url = None).
Proof.
  intros He (err & Hf).
  outcome_cases conf exhausted i url s; elem_cases He; subst e;
    destruct Hf as [Hf|Hf]; try discriminate; injection Hf as Hu _; subst u;
    apply bool_decide_eq_false_1 in Hact;
    (split; [reflexivity|]); (split; [assumption|]); (split; [assumption|]);
    (split; [first [ eapply log_in; [|left; reflexivity]; in_list; fail
                   | eapply log_in; [|right; reflexivity]; in_list; fail ]|]);
    (split; [intros tr Hin; elem_cases Hin; discriminate|]);
    (split; [intros Hin; elem_cases Hin; discriminate|]);
    unfold withoutCaptureBuffer, withAnalysisBuffer; simpl;
    rewrite ?lookup_delete_eq; auto.
Qed.

(** An inactive stream that lacks a buffer gets an allocation attempt. *)
Lemma startStream_attempt conf exhausted settings i url s :
  url ∉ activeStreams s ->
  analysisBuffers s !! url = None \/ captureBuffers s !! url = None ->
  exists e, e ∈ traceProg (startStream conf exhausted settings i url) s /\
            isAllocation url e.
Proof.
  intros Hna Hmiss.
  outcome_cases conf exhausted i url s;
    try (apply bool_decide_eq_true_1 in Hact; contradiction);
    try (destruct Hmiss; discriminate);
    first [ eapply allocation_in; [|left; reflexivity]; in_list; fail
          | eapply allocation_in; [|right; reflexivity]; in_list; fail ].
Qed.

(** Every event of an iteration is about its stream. *)
Lemma startStream_eventUrl conf exhausted settings i url s e :
  e ∈ traceProg (startStream conf exhausted settings i url) s -> eventUrl e = Some url.
Proof. intros He. now apply (startStream_event conf exhausted settings i url s e He). Qed.

(** An iteration depends on the state through the view of its stream only. *)
Lemma startStream_local conf exhausted exhausted' settings i url s s' :
  streamView url s = streamView url s' ->
  (forall kind, exhausted i kind = exhausted' i kind) ->
  traceProg (startStream conf exhausted settings i url) s =
    traceProg (startStream conf exhausted' settings i url) s' /\
  streamView url (execProg (startStream conf exhausted settings i url) s) =
    streamView url (execProg (startStream conf exhausted' settings i url) s').
Proof.
  intros Hv He. unfold streamView in Hv. injection Hv as Hact HA HC.
  unfold traceProg, execProg. rewrite !startStream_outcome. unfold startOutcome.
  rewrite <- Hact, <- HA, <- HC, <- !He.
  destruct (bool_decide (url ∈ activeStreams s)) eqn:Hb;
    [cbn [fst snd]; split; [reflexivity|];
     unfold streamView; now rewrite Hb, <- Hact, HA, HC|].
  destruct (analysisBuffers s !! url) eqn:HAs, (captureBuffers s !! url) eqn:HCs;
    destruct (exhausted i AnalysisKind), (exhausted i CaptureKind);
    cbn [fst snd]; (split; [reflexivity|]);
    unfold streamView, activated, withCaptureBuffer, withAnalysisBuffer,
      withoutCaptureBuffer; simpl;
    rewrite ?lookup_insert_eq, ?lookup_delete_eq, ?Hb, <- ?Hact, <- ?HA, <- ?HC,
      ?HAs, ?HCs;
    repeat f_equal;
    rewrite ?bool_decide_eq_true_2 by set_solver; reflexivity.
Qed.

(** ** One iteration of the stop loop *)

Lemma foundIn_elem_of url urls : foundIn url urls = true <-> url ∈ urls.
Proof.
  induction urls as [|u urls IH]; simpl.
  - split; [discriminate | intros H; apply elem_of_nil in H; contradiction].
  - rewrite elem_of_cons. destruct (String.eqb_spec url u) as [->|Hne].
    + split; auto.
    + rewrite IH. split; [auto | intros [?|?]; [contradiction | assumption]].
Qed.

Lemma stopStream_found settings url s :
  foundIn url (RTSP_URLs settings) = true ->
  stopStream settings url s = (tt, s, []).
Proof. intros H. unfold stopStream. rewrite H. reflexivity. Qed.

Lemma stopStream_outcome settings url s :
  stopStream settings url s = stopOutcome settings url s.
Proof.
  unfold stopOutcome. prog_unfold.
  destruct (foundIn url (RTSP_URLs settings)); simpl; [reflexivity|].
  destruct (bool_decide (url ∈ ffmpegProcesses s)) eqn:Hproc;
    destruct (analysisBuffers s !! url) eqn:HA,
             (captureBuffers s !! url) eqn:HC;
    repeat (first [rewrite bool_decide_is_Some | rewrite HA | rewrite HC
                  | progress simpl]);
    reflexivity.
Qed.

Ltac stop_cases settings url s :=
  unfold traceProg, execProg in *;
  rewrite ?stopStream_outcome in *; unfold stopOutcome in *;
  destruct (foundIn url (RTSP_URLs settings)) eqn:Hfound;
  [| destruct (bool_decide (url ∈ ffmpegProcesses s)) eqn:Hproc;
     destruct (analysisBuffers s !! url) eqn:HA,
              (captureBuffers s !! url) eqn:HC ];
  cbn [fst snd isErr app] in *.

Lemma stopStream_frame settings url s v :
  v <> url ->
  streamView v (execProg (stopStream settings url) s) = streamView v s.
Proof.
  intros Hne. stop_cases settings url s; try reflexivity;
    unfold streamView; simpl;
    rewrite ?lookup_delete_ne by congruence;
    repeat f_equal; apply bool_decide_ext; set_solver.
Qed.

Lemma stopStream_monitor settings url s :
  ffmpegMonitor (execProg (stopStream settings url) s) = ffmpegMonitor s.
Proof. stop_cases settings url s; reflexivity. Qed.

Lemma stopStream_active settings url s v :
  v ∈ activeStreams (execProg (stopStream settings url) s) <->
  v ∈ activeStreams s /\ ~ (v = url /\ foundIn url (RTSP_URLs settings) = false).
Proof.
  stop_cases settings url s; simpl; set_solver.
Qed.

(** The stop loop allocates nothing and starts nothing. *)
Lemma stopStream_event settings url s e :
  e ∈ traceProg (stopStream settings url) s ->
  (forall u, ~ isAllocation u e) /\ (forall u tr, e <> EvSpawn u tr) /\
  (forall u, e <> EvActivate u).
Proof.
  intros He. stop_cases settings url s; elem_cases He; subst e;
    (split; [intros u (err & [?|?]); discriminate|]);
    split; intros u; try intros tr; discriminate.
Qed.

(** ** The stop loop *)

Section StopLoop.

Variable settings : Settings.

Lemma stopLoop_active l : forall s v,
  v ∈ activeStreams (execProg (forEach l (stopStream settings)) s) <->
  v ∈ activeStreams s /\
  ~ (v ∈ l /\ foundIn v (RTSP_URLs settings) = false).
Proof.
  induction l as [|x l IH]; intros s v.
  - simpl. rewrite elem_of_nil. tauto.
  - rewrite (proj2 (forEach_cons x l _ s)), IH, stopStream_active, elem_of_cons.
    split.
    + intros [[Hv Hx] Hl]. split; [assumption|].
      intros [[->|Hin] Hf]; tauto.
    + intros [Hv Hn]. repeat split; [assumption | |]; intros [? ?]; subst;
        apply Hn; auto.
Qed.

Lemma stopLoop_frame l : forall s v,
  foundIn v (RTSP_URLs settings) = true ->
  streamView v (execProg (forEach l (stopStream settings)) s) = streamView v s.
Proof.
  induction l as [|x l IH]; intros s v Hv; [reflexivity|].
  rewrite (proj2 (forEach_cons x l _ s)), IH by assumption.
  destruct (decide (v = x)) as [->|Hne].
  - unfold execProg. now rewrite stopStream_found.
  - now apply stopStream_frame.
Qed.

Lemma stopLoop_monitor l : forall s,
  ffmpegMonitor (execProg (forEach l (stopStream settings)) s) = ffmpegMonitor s.
Proof.
  induction l as [|x l IH]; intros s; [reflexivity|].
  now rewrite (proj2 (forEach_cons x l _ s)), IH, stopStream_monitor.
Qed.

Lemma stopLoop_event l s e :
  e ∈ traceProg (forEach l (stopStream settings)) s ->
  (forall u, ~ isAllocation u e) /\ (forall u tr, e <> EvSpawn u tr) /\
  (forall u, e <> EvActivate u).
Proof.
  revert e.
  apply (forEach_trace (fun t => forall e, e ∈ t ->
           (forall u, ~ isAllocation u e) /\ (forall u tr, e <> EvSpawn u tr) /\
           (forall u, e <> EvActivate u))).
  - intros e He. apply elem_of_nil in He. contradiction.
  - intros t1 t2 H1 H2 e He. apply elem_of_app in He as [He|He]; auto.
  - intros x s0 e He. now apply (stopStream_event settings x s0).
Qed.

Lemma stopLoop_noop l : forall s,
  (forall v, v ∈ l -> foundIn v (RTSP_URLs settings) = true) ->
  forEach l (stopStream settings) s = (tt, s, []).
Proof.
  induction l as [|x l IH]; intros s H; [reflexivity|].
  simpl forEach. unfold bind.
  rewrite stopStream_found by (apply H; left).
  rewrite IH by (intros v Hv; apply H; now right). reflexivity.
Qed.

End StopLoop.

(** ** The start loop *)

Lemma streamView_inv v s s' :
  streamView v s = streamView v s' ->
  (v ∈ activeStreams s <-> v ∈ activeStreams s') /\
  analysisBuffers s !! v = analysisBuffers s' !! v /\
  captureBuffers s !! v = captureBuffers s' !! v.
Proof.
  unfold streamView. intros [= Hb HA HC].
  split; [|split; assumption].
  rewrite <- (bool_decide_eq_true (v ∈ activeStreams s)),
    <- (bool_decide_eq_true (v ∈ activeStreams s')), Hb. reflexivity.
Qed.

Section StartLoop.

Variable conf : Conf.
Variable settings : Settings.

Lemma startLoop_noop exhausted l : forall i s,
  (forall v, v ∈ l -> v ∈ activeStreams s) ->
  forEachIndexed i l (startStream conf exhausted settings) s = (tt, s, []).
Proof.
  induction l as [|x l IH]; intros i s H; [reflexivity|].
  simpl forEachIndexed. unfold bind.
  rewrite startStream_noop by (apply H; left).
  rewrite IH by (intros v Hv; apply H; now right). reflexivity.
Qed.

Lemma startLoop_active exhausted l : forall i s v,
  v ∈ activeStreams (execProg (forEachIndexed i l (startStream conf exhausted settings)) s) <->
  v ∈ activeStreams s \/
  EvActivate v ∈ traceProg (forEachIndexed i l (startStream conf exhausted settings)) s.
Proof.
  induction l as [|x l IH]; intros i s v.
  - simpl. rewrite elem_of_nil. tauto.
  - destruct (forEachIndexed_cons i x l (startStream conf exhausted settings) s) as [-> ->].
    rewrite IH, startStream_active, elem_of_app. tauto.
Qed.

Lemma startLoop_eventUrl exhausted l : forall i s e,
  e ∈ traceProg (forEachIndexed i l (startStream conf exhausted settings)) s ->
  exists u, u ∈ l /\ eventUrl e = Some u.
Proof.
  induction l as [|x l IH]; intros i s e He.
  - apply elem_of_nil in He. contradiction.
  - rewrite (proj1 (forEachIndexed_cons i x l _ s)) in He.
    apply elem_of_app in He as [He|He].
    + exists x. split; [left | now apply startStream_eventUrl in He].
    + destruct (IH _ _ _ He) as (u & Hu & Hev). exists u. split; [now right | assumption].
Qed.

Lemma startLoop_frame exhausted l : forall i s v,
  v ∉ l ->
  streamView v (execProg (forEachIndexed i l (startStream conf exhausted settings)) s) =
  streamView v s.
Proof.
  induction l as [|x l IH]; intros i s v Hv; [reflexivity|].
  apply not_elem_of_cons in Hv as [Hne Hv].
  rewrite (proj2 (forEachIndexed_cons i x l _ s)), IH by assumption.
  now apply startStream_frame.
Qed.

Lemma startLoop_other_state exhausted l : forall i s,
  ffmpegMonitor (execProg (forEachIndexed i l (startStream conf exhausted settings)) s) =
    ffmpegMonitor s /\
  ffmpegProcesses (execProg (forEachIndexed i l (startStream conf exhausted settings)) s) =
    ffmpegProcesses s.
Proof.
  induction l as [|x l IH]; intros i s; [split; reflexivity|].
  rewrite (proj2 (forEachIndexed_cons i x l _ s)).
  destruct (IH (S i) (execProg (startStream conf exhausted settings i x) s)) as [-> ->].
  apply startStream_other_state.
Qed.

(** Without an allocation failure every stream of the list ends active. *)
Lemma startLoop_all_started exhausted l : forall i s,
  (forall e u, e ∈ traceProg (forEachIndexed i l (startStream conf exhausted settings)) s ->
               ~ isAllocationFailure u e) ->
  forall v, v ∈ l ->
    v ∈ activeStreams (execProg (forEachIndexed i l (startStream conf exhausted settings)) s).
Proof.
  induction l as [|x l IH]; intros i s Hok v Hv.
  - apply elem_of_nil in Hv. contradiction.
  - destruct (forEachIndexed_cons i x l (startStream conf exhausted settings) s) as [Ht Hs].
    rewrite Ht in Hok. rewrite Hs.
    apply elem_of_cons in Hv as [->|Hv].
    + apply startLoop_active. left.
      destruct (startStream_started_or_failed conf exhausted settings i x s)
        as [H|(e & He & Hf)]; [assumption|].
      exfalso. apply (Hok e x); [apply elem_of_app; now left | assumption].
    + apply IH; [|assumption]. intros e u He. apply Hok, elem_of_app. now right.
Qed.

(** An inactive stream of the list that lacks a buffer gets an allocation
    attempt. *)
Lemma startLoop_attempt exhausted l : forall i s u,
  u ∈ l -> u ∉ activeStreams s ->
  analysisBuffers s !! u = None \/ captureBuffers s !! u = None ->
  exists e, e ∈ traceProg (forEachIndexed i l (startStream conf exhausted settings)) s /\
            isAllocation u e.
Proof.
  induction l as [|x l IH]; intros i s u Hu Hna Hmiss.
  - apply elem_of_nil in Hu. contradiction.
  - rewrite (proj1 (forEachIndexed_cons i x l _ s)).
    destruct (decide (u = x)) as [->|Hne].
    + destruct (startStream_attempt conf exhausted settings i x s Hna Hmiss) as (e & He & Ha).
      exists e. split; [apply elem_of_app; now left | assumption].
    + apply elem_of_cons in Hu as [?|Hu]; [contradiction|].
      destruct (streamView_inv u _ _ (startStream_frame conf exhausted settings i x s u Hne))
        as (Hact & HA & HC).
      destruct (IH (S i) (execProg (startStream conf exhausted settings i x) s) u Hu)
        as (e & He & Ha).
      * rewrite Hact. assumption.
      * rewrite HA, HC. assumption.
      * exists e. split; [apply elem_of_app; now right | assumption].
Qed.

(** A stream that its iteration leaves inactive lacks a buffer. *)
Lemma startStream_inactive_missing exhausted i url s :
  url ∉ activeStreams (execProg (startStream conf exhausted settings i url) s) ->
  analysisBuffers (execProg (startStream conf exhausted settings i url) s) !! url = None \/
  captureBuffers (execProg (startStream conf exhausted settings i url) s) !! url = None.
Proof.
  intros Hna.
  destruct (startStream_started_or_failed conf exhausted settings i url s)
    as [H|(e & He & Hf)]; [contradiction|].
  now destruct (startStream_failure conf exhausted settings i url s e url He Hf)
    as (_ & _ & _ & _ & _ & _ & Hmiss).
Qed.

(** So does a stream of the list that the loop leaves inactive, however
    often the list names it. *)
Lemma startLoop_inactive_missing exhausted l : forall i s u,
  u ∈ l ->
  u ∉ activeStreams (execProg (forEachIndexed i l (startStream conf exhausted settings)) s) ->
  analysisBuffers (execProg (forEachIndexed i l (startStream conf exhausted settings)) s)
    !! u = None \/
  captureBuffers (execProg (forEachIndexed i l (startStream conf exhausted settings)) s)
    !! u = None.
Proof.
  induction l as [|x l IH]; intros i s u Hu.
  - apply elem_of_nil in Hu. contradiction.
  - rewrite (proj2 (forEachIndexed_cons i x l _ s)).
    destruct (decide (u ∈ l)) as [Hin|Hnot]; [now apply IH|].
    apply elem_of_cons in Hu as [->|Hu]; [|contradiction].
    destruct (streamView_inv x _ _
                (startLoop_frame exhausted l (S i)
                   (execProg (startStream conf exhausted settings i x) s) x Hnot))
      as (Hact & -> & ->).
    rewrite Hact. apply startStream_inactive_missing.
Qed.

End StartLoop.

Section StartLoopFailure.

Variable conf : Conf.
Variable exhausted : nat -> BufferKind -> bool.
Variable settings : Settings.

(** What an allocation failure for [u] means for the whole loop, when
    the list names each stream once. *)
Lemma startLoop_failure l : forall i s e u,
  NoDup l ->
  e ∈ traceProg (forEachIndexed i l (startStream conf exhausted settings)) s ->
  isAllocationFailure u e ->
  u ∈ l /\ (u ∉ activeStreams s) /\
  (u ∉ activeStreams (execProg (forEachIndexed i l (startStream conf exhausted settings)) s)) /\
  (exists e', e' ∈ traceProg (forEachIndexed i l (startStream conf exhausted settings)) s /\
              isFailureLog u e') /\
  (forall tr, EvSpawn u tr ∉ traceProg (forEachIndexed i l
                               (startStream conf exhausted settings)) s) /\
  (EvActivate u ∉ traceProg (forEachIndexed i l (startStream conf exhausted settings)) s) /\
  (analysisBuffers (execProg (forEachIndexed i l (startStream conf exhausted settings)) s)
     !! u = None \/
   captureBuffers (execProg (forEachIndexed i l (startStream conf exhausted settings)) s)
     !! u = None).
Proof.
  induction l as [|x l IH]; intros i s e u Hnd He Hf.
  - apply elem_of_nil in He. contradiction.
  - apply NoDup_cons in Hnd as [Hx Hnd].
    destruct (forEachIndexed_cons i x l (startStream conf exhausted settings) s) as [Ht Hs].
    rewrite Ht, Hs. rewrite Ht in He. clear Ht Hs.
    set (sx := execProg (startStream conf exhausted settings i x) s) in *.
    assert (Hrest : forall e', e' ∈ traceProg (forEachIndexed (S i) l
                      (startStream conf exhausted settings)) sx -> eventUrl e' <> Some x).
    { intros e' He' Hev. destruct (startLoop_eventUrl conf settings exhausted l _ _ _ He')
        as (u' & Hu' & Hev'). congruence. }
    apply elem_of_app in He as [He|He].
    + destruct (startStream_failure conf exhausted settings i x s e u He Hf)
        as (-> & Hna & Hna' & (e' & He' & Hlog) & Hsp & Hac & Hmiss).
      fold sx in Hna', Hmiss.
      destruct (streamView_inv x _ _
                  (startLoop_frame conf settings exhausted l (S i) sx x Hx))
        as (Hact & HA & HC).
      split; [left|]. split; [assumption|]. split; [now rewrite Hact|].
      split; [exists e'; split; [apply elem_of_app; now left | assumption]|].
      split; [|split].
      * intros tr Hin. apply elem_of_app in Hin as [Hin|Hin];
          [now apply (Hsp tr)|]. now apply (Hrest _ Hin).
      * intros Hin. apply elem_of_app in Hin as [Hin|Hin]; [contradiction|].
        now apply (Hrest _ Hin).
      * rewrite HA, HC. assumption.
    + destruct (IH (S i) sx e u Hnd He Hf)
        as (Hu & Hna & Hna' & (e' & He' & Hlog) & Hsp & Hac & Hmiss).
      assert (Hne : u <> x) by (intros ->; contradiction).
      assert (Hfirst : forall e', e' ∈ traceProg (startStream conf exhausted settings i x) s ->
                                  eventUrl e' <> Some u).
      { intros e0 He0 Hev. apply startStream_eventUrl in He0. congruence. }
      split; [now right|]. split.
      { intros Hin. apply Hna. apply startStream_active. now left. }
      split; [assumption|].
      split; [exists e'; split; [apply elem_of_app; now right | assumption]|].
      split; [|split; [|assumption]].
      * intros tr Hin. apply elem_of_app in Hin as [Hin|Hin];
          [|now apply (Hsp tr)]. now apply (Hfirst _ Hin).
      * intros Hin. apply elem_of_app in Hin as [Hin|Hin]; [|contradiction].
        now apply (Hfirst _ Hin).
Qed.

End StartLoopFailure.

Lemma eventsAbout_app v t1 t2 :
  eventsAbout v (t1 ++ t2) = eventsAbout v t1 ++ eventsAbout v t2.
Proof. apply filter_app. Qed.

Lemma eventsAbout_other v t :
  (forall e, e ∈ t -> eventUrl e <> Some v) -> eventsAbout v t = [].
Proof.
  induction t as [|e t IH]; intros H; [reflexivity|].
  unfold eventsAbout. rewrite filter_cons.
  destruct (decide (eventUrl e = Some v)) as [Heq|Hne].
  - exfalso. apply (H e); [left | assumption].
  - apply IH. intros e' He'. apply H. now right.
Qed.

Section StartLoopIsolation.

Variable conf : Conf.
Variable settings : Settings.
Variable u : string.

(** Two runs of the loop whose environments differ only in the iterations
    of [u], from states that differ only in [u], treat every other stream
    alike. *)
Lemma startLoop_isolated l : forall i s s' exhausted exhausted',
  (forall j kind, l !! j <> Some u ->
                  exhausted' (i + j)%nat kind = exhausted (i + j)%nat kind) ->
  (forall v, v <> u -> streamView v s' = streamView v s) ->
  forall v, v <> u ->
    eventsAbout v (traceProg (forEachIndexed i l (startStream conf exhausted' settings)) s') =
    eventsAbout v (traceProg (forEachIndexed i l (startStream conf exhausted settings)) s) /\
    streamView v (execProg (forEachIndexed i l (startStream conf exhausted' settings)) s') =
    streamView v (execProg (forEachIndexed i l (startStream conf exhausted settings)) s).
Proof.
  induction l as [|x l IH]; intros i s s' exhausted exhausted' Henv Hst v Hv.
  - split; [reflexivity | now apply Hst].
  - destruct (forEachIndexed_cons i x l (startStream conf exhausted settings) s) as [-> ->].
    destruct (forEachIndexed_cons i x l (startStream conf exhausted' settings) s') as [-> ->].
    rewrite !eventsAbout_app.
    set (sx := execProg (startStream conf exhausted settings i x) s).
    set (sx' := execProg (startStream conf exhausted' settings i x) s').
    assert (Henv' : forall j kind, l !! j <> Some u ->
              exhausted' (S i + j)%nat kind = exhausted (S i + j)%nat kind).
    { intros j kind Hj. replace (S i + j)%nat with (i + S j)%nat by lia.
      apply Henv. exact Hj. }
    destruct (decide (x = u)) as [->|Hxu].
    + assert (Hst' : forall w, w <> u -> streamView w sx' = streamView w sx).
      { intros w Hw. subst sx sx'. rewrite !startStream_frame by assumption.
        now apply Hst. }
      destruct (IH (S i) sx sx' exhausted exhausted' Henv' Hst' v Hv) as [-> ->].
      rewrite !(eventsAbout_other v (traceProg (startStream _ _ _ i u) _)); [easy| |];
        intros e He Hev; apply startStream_eventUrl in He; congruence.
    + assert (Hloc := startStream_local conf exhausted' exhausted settings i x s' s
                        (Hst x Hxu)).
      destruct Hloc as [Htr Hview].
      { intros kind. replace i with (i + 0)%nat by lia. apply Henv.
        simpl. congruence. }
      assert (Hst' : forall w, w <> u -> streamView w sx' = streamView w sx).
      { intros w Hw. subst sx sx'. destruct (decide (w = x)) as [->|Hwx];
          [assumption|]. rewrite !startStream_frame by assumption. now apply Hst. }
      destruct (IH (S i) sx sx' exhausted exhausted' Henv' Hst' v Hv) as [-> ->].
      rewrite Htr. split; reflexivity.
Qed.

End StartLoopIsolation.

(** ** The whole call *)

Lemma Reconfigure_empty stop conf exhausted visit settings s :
  RTSP_URLs settings = [] ->
  ReconfigureRTSPStreams stop conf exhausted visit settings s =
  if ffmpegMonitor s then (tt, setMonitor false (stop s), [EvMonitorStop])
  else (tt, s, []).
Proof.
  intros H. unfold ReconfigureRTSPStreams. rewrite H. simpl.
  unfold bind, gets, when, monitorStop, ret. destruct (ffmpegMonitor s); reflexivity.
Qed.

Lemma Reconfigure_nonempty stop conf exhausted visit settings s :
  RTSP_URLs settings <> [] ->
  traceProg (ReconfigureRTSPStreams stop conf exhausted visit settings) s =
    (if ffmpegMonitor s then [] else [EvMonitorStart]) ++
    traceProg (forEach (visit (activeStreams s)) (stopStream settings))
      (monitorEnsured s) ++
    traceProg (forEachIndexed 0 (RTSP_URLs settings) (startStream conf exhausted settings))
      (stoppedState visit settings s) /\
  execProg (ReconfigureRTSPStreams stop conf exhausted visit settings) s =
    execProg (forEachIndexed 0 (RTSP_URLs settings) (startStream conf exhausted settings))
      (stoppedState visit settings s).
Proof.
  intros H. unfold ReconfigureRTSPStreams, stoppedState, monitorEnsured.
  destruct (RTSP_URLs settings) as [|x l] eqn:E; [contradiction|].
  change (length (x :: l) =? 0)%nat with false. cbv iota.
  unfold stopRemovedStreams, startNewStreams, traceProg, execProg, bind, gets,
    when, monitorStart, ret. rewrite E.
  destruct (ffmpegMonitor s); cbn [negb fst snd app activeStreams setMonitor];
    destruct (forEach _ _ _) as [[[] s1] t1]; cbn [fst snd];
    destruct (forEachIndexed _ _ _ _) as [[[] s2] t2]; cbn [fst snd app];
    split; reflexivity.
Qed.

(** ** Idempotence *)

Lemma stoppedState_monitor visit settings s :
  ffmpegMonitor (stoppedState visit settings s) = true.
Proof.
  unfold stoppedState. rewrite stopLoop_monitor. unfold monitorEnsured.
  destruct (ffmpegMonitor s) eqn:E; [assumption | reflexivity].
Qed.

Lemma stoppedState_active visit settings s v :
  (forall X w, w ∈ X -> w ∈ visit X) ->
  v ∈ activeStreams (stoppedState visit settings s) ->
  foundIn v (RTSP_URLs settings) = true.
Proof.
  intros Hvisit. unfold stoppedState. rewrite stopLoop_active. intros [Hv Hn].
  destruct (foundIn v (RTSP_URLs settings)) eqn:E; [reflexivity|].
  exfalso. apply Hn. split; [|reflexivity]. apply Hvisit.
  unfold monitorEnsured in Hv. destruct (ffmpegMonitor s); exact Hv.
Qed.

Lemma stoppedState_view visit settings s v :
  foundIn v (RTSP_URLs settings) = true ->
  streamView v (stoppedState visit settings s) = streamView v s.
Proof.
  intros H. unfold stoppedState. rewrite stopLoop_frame by assumption.
  unfold monitorEnsured. destruct (ffmpegMonitor s); reflexivity.
Qed.

(** C2, as the code has it.  A second call with the same settings, in
    whatever environment, with whatever decoder processes the capture
    goroutines have registered in between, and in whatever order [Range]
    visits the active streams, as long as it visits exactly those:
    - when no allocation failed in the first call, the second call does
      nothing: it produces no event, so no allocation and no spawn, and
      leaves the state as it is;
    - a stream of the settings that the first call has left inactive has
      the allocation of a buffer attempted for it again. *)
Theorem Reconfigure_idempotent stop conf exhausted1 exhausted2 visit settings s processes :
  (forall X v, v ∈ visit X <-> v ∈ X) ->
  let s1 := setProcesses processes
              (execProg (ReconfigureRTSPStreams stop conf exhausted1 visit settings) s) in
  ((forall e url,
      e ∈ traceProg (ReconfigureRTSPStreams stop conf exhausted1 visit settings) s ->
      ~ isAllocationFailure url e) ->
   ReconfigureRTSPStreams stop conf exhausted2 visit settings s1 = (tt, s1, [])) /\
  (forall u,
     u ∈ RTSP_URLs settings -> u ∉ activeStreams s1 ->
     exists e,
       e ∈ traceProg (ReconfigureRTSPStreams stop conf exhausted2 visit settings) s1 /\
       isAllocation u e).
Proof.
  intros Hvisit s1. split.
  - intros Hok.
    destruct (RTSP_URLs settings) as [|x l] eqn:E.
    { subst s1. unfold execProg. rewrite !Reconfigure_empty by assumption.
      destruct (ffmpegMonitor s) eqn:Hm;
        cbn [fst snd setProcesses ffmpegMonitor setMonitor];
        [reflexivity | now rewrite Hm]. }
    assert (Hne : RTSP_URLs settings <> []) by (rewrite E; discriminate).
    destruct (Reconfigure_nonempty stop conf exhausted1 visit settings s Hne) as [Ht Hs].
    set (ss := stoppedState visit settings s) in *.
    assert (Hmon : ffmpegMonitor s1 = true).
    { subst s1. cbn [setProcesses ffmpegMonitor]. rewrite Hs.
      rewrite (proj1 (startLoop_other_state conf settings exhausted1 _ _ _)).
      apply stoppedState_monitor. }
    assert (Hall : forall v, v ∈ RTSP_URLs settings -> v ∈ activeStreams s1).
    { intros v Hv. subst s1. cbn [setProcesses activeStreams]. rewrite Hs.
      apply startLoop_all_started; [|assumption].
      intros e u He. apply Hok. rewrite Ht, !elem_of_app. auto. }
    assert (Hfound : forall v, v ∈ visit (activeStreams s1) ->
                               foundIn v (RTSP_URLs settings) = true).
    { intros v Hv. apply Hvisit in Hv. subst s1.
      cbn [setProcesses activeStreams] in Hv. rewrite Hs in Hv.
      apply startLoop_active in Hv as [Hv|Hv].
      - apply stoppedState_active in Hv; [assumption|]. intros X w. apply Hvisit.
      - apply startLoop_eventUrl in Hv as (u & Hu & Hev). injection Hev as ->.
        now apply foundIn_elem_of. }
    unfold ReconfigureRTSPStreams. rewrite E.
    change (length (x :: l) =? 0)%nat with false. cbv iota.
    unfold stopRemovedStreams, startNewStreams, bind, gets, when, ret.
    rewrite Hmon. cbn [negb].
    rewrite stopLoop_noop by assumption.
    rewrite startLoop_noop by assumption. reflexivity.
  - intros u Hu Hna.
    assert (Hne : RTSP_URLs settings <> []).
    { intros E. rewrite E in Hu. apply elem_of_nil in Hu. contradiction. }
    destruct (Reconfigure_nonempty stop conf exhausted1 visit settings s Hne) as [_ Hs].
    destruct (Reconfigure_nonempty stop conf exhausted2 visit settings s1 Hne) as [Ht2 _].
    assert (Hmiss : analysisBuffers s1 !! u = None \/ captureBuffers s1 !! u = None).
    { subst s1. cbn [setProcesses analysisBuffers captureBuffers activeStreams] in *.
      rewrite Hs in *. now apply startLoop_inactive_missing. }
    assert (Hfound : foundIn u (RTSP_URLs settings) = true)
      by now apply foundIn_elem_of.
    destruct (streamView_inv u _ _ (stoppedState_view visit settings s1 u Hfound))
      as (Hact & HA & HC).
    destruct (startLoop_attempt conf settings exhausted2 (RTSP_URLs settings) 0
                (stoppedState visit settings s1) u Hu) as (e & He & Ha).
    + now rewrite Hact.
    + now rewrite HA, HC.
    + exists e. split; [rewrite Ht2, !elem_of_app; auto | assumption].
Qed.

(** Both halves at work on two cameras.  After a first call in which
    nothing failed, a second call in which the first reservation would
    fail does nothing; after a first call in which the reservation for the
    first camera failed, a second call attempts it again. *)
Lemma Reconfigure_idempotent_witness :
  (let s1 := setProcesses {["rtsp://a/live"; "rtsp://b/live"]}
               (execProg (ReconfigureRTSPStreams monitorOnly sampleConf neverExhausted
                            elements twoCameras) oneStream) in
   ReconfigureRTSPStreams monitorOnly sampleConf firstExhausted elements twoCameras s1 =
     (tt, s1, [])) /\
  (let s1 := setProcesses {["rtsp://b/live"]}
               (execProg (ReconfigureRTSPStreams monitorOnly sampleConf firstExhausted
                            elements twoCameras) oneStream) in
   exists e,
     e ∈ traceProg (ReconfigureRTSPStreams monitorOnly sampleConf firstExhausted elements
                      twoCameras) s1 /\
     isAllocation "rtsp://a/live" e).
Proof.
  split.
  - apply (Reconfigure_idempotent monitorOnly sampleConf neverExhausted firstExhausted
             elements twoCameras oneStream).
    + intros X v. apply elem_of_elements.
    + intros e url He (err & Hf). vm_compute in He.
      elem_cases He; subst e; destruct Hf; discriminate.
  - apply (Reconfigure_idempotent monitorOnly sampleConf firstExhausted firstExhausted
             elements twoCameras oneStream {["rtsp://b/live"]}).
    + intros X v. apply elem_of_elements.
    + cbn. in_list.
    + vm_compute. discriminate.
Defined.

(** After a call in which the allocation for the first camera failed, a
    second call with the same settings, in which the environment grants
    the reservations, allocates both of its buffers and spawns its capture
    goroutine. *)
Lemma Reconfigure_second_call_allocates :
  let s1 := execProg (ReconfigureRTSPStreams monitorOnly sampleConf firstExhausted elements twoCameras)
              noStreams in
  let trace2 := traceProg (ReconfigureRTSPStreams monitorOnly sampleConf neverExhausted elements twoCameras)
                  s1 in
  trace2 = [EvAllocateAnalysisBuffer "rtsp://a/live" None;
            EvAllocateCaptureBuffer "rtsp://a/live" None;
            EvActivate "rtsp://a/live"; EvSpawn "rtsp://a/live" "tcp"] /\
  ~ (forall e, e ∈ trace2 ->
               (forall url, ~ isAllocation url e) /\
               (forall url transport, e <> EvSpawn url transport)).
Proof.
  assert (H : traceProg (ReconfigureRTSPStreams monitorOnly sampleConf neverExhausted elements twoCameras)
                (execProg (ReconfigureRTSPStreams monitorOnly sampleConf firstExhausted elements twoCameras)
                   noStreams) =
              [EvAllocateAnalysisBuffer "rtsp://a/live" None;
               EvAllocateCaptureBuffer "rtsp://a/live" None;
               EvActivate "rtsp://a/live"; EvSpawn "rtsp://a/live" "tcp"])
    by (vm_compute; reflexivity).
  cbv zeta. rewrite H. split; [reflexivity|].
  intros Hclaim.
  destruct (Hclaim (EvSpawn "rtsp://a/live" "tcp")) as [_ Hsp]; [in_list|].
  now apply (Hsp "rtsp://a/live" "tcp").
Qed.

(** ** Isolation of an allocation failure *)

Lemma allocation_in_start_trace stop conf exhausted visit settings s e u :
  e ∈ traceProg (ReconfigureRTSPStreams stop conf exhausted visit settings) s ->
  isAllocation u e ->
  RTSP_URLs settings <> [] /\
  e ∈ traceProg (forEachIndexed 0 (RTSP_URLs settings) (startStream conf exhausted settings))
        (stoppedState visit settings s).
Proof.
  intros He Ha.
  destruct (RTSP_URLs settings) as [|x l] eqn:E.
  { exfalso. unfold traceProg in He. rewrite Reconfigure_empty in He by assumption.
    destruct Ha as (err & Ha).
    destruct (ffmpegMonitor s); cbn [snd] in He; elem_cases He; subst e;
      destruct Ha; discriminate. }
  assert (Hne : RTSP_URLs settings <> []) by (rewrite E; discriminate).
  split; [discriminate|]. rewrite <- E.
  rewrite (proj1 (Reconfigure_nonempty stop conf exhausted visit settings s Hne)) in He.
  apply elem_of_app in He as [He|He].
  { exfalso. destruct Ha as (err & Ha).
    destruct (ffmpegMonitor s); elem_cases He; subst e; destruct Ha; discriminate. }
  apply elem_of_app in He as [He|He]; [|assumption].
  exfalso. destruct (stopLoop_event settings _ _ _ He) as (Hno & _).
  now apply (Hno u).
Qed.

Lemma failure_is_allocation u e : isAllocationFailure u e -> isAllocation u e.
Proof. intros (err & H). exists (Some err). assumption. Qed.

Lemma not_in_monitor_part (s : Streams) e :
  e ∈ (if ffmpegMonitor s then [] else [EvMonitorStart]) ->
  eventUrl e = None.
Proof. destruct (ffmpegMonitor s); intros He; elem_cases He; now subst e. Qed.

(** C3.  The settings name each stream once, and in a call the allocation
    of a buffer for the source [u] fails.  Then
    - the failure is logged and [u] is not started: no activation and no
      spawn for it, it is not among the active streams afterwards;
    - the other sources are treated as if nothing had happened to [u]: in
      a call whose environment differs only in the iteration of [u], the
      events about any other source and its state afterwards are the same;
    - the next call with these settings attempts an allocation for [u]
      again, whatever its environment and whatever decoder processes are
      registered by then. *)
Theorem Reconfigure_failure_isolated stop conf exhausted visit settings s u :
  NoDup (RTSP_URLs settings) ->
  let trace := traceProg (ReconfigureRTSPStreams stop conf exhausted visit settings) s in
  let s1 := execProg (ReconfigureRTSPStreams stop conf exhausted visit settings) s in
  (exists e, e ∈ trace /\ isAllocationFailure u e) ->
  ((exists e, e ∈ trace /\ isFailureLog u e) /\
   (EvActivate u ∉ trace) /\ (forall transport, EvSpawn u transport ∉ trace) /\
   (u ∉ activeStreams s1)) /\
  (forall exhausted' v,
     v <> u ->
     (forall i kind, RTSP_URLs settings !! i <> Some u ->
                     exhausted' i kind = exhausted i kind) ->
     eventsAbout v (traceProg (ReconfigureRTSPStreams stop conf exhausted' visit settings) s) =
       eventsAbout v trace /\
     streamView v (execProg (ReconfigureRTSPStreams stop conf exhausted' visit settings) s) =
       streamView v s1) /\
  (forall exhausted2 processes,
     exists e,
       e ∈ traceProg (ReconfigureRTSPStreams stop conf exhausted2 visit settings)
             (setProcesses processes s1) /\
       isAllocation u e).
Proof.
  intros Hnd trace s1 (e & He & Hf).
  destruct (allocation_in_start_trace stop conf exhausted visit settings s e u He
              (failure_is_allocation u e Hf)) as [Hne Hstart].
  destruct (Reconfigure_nonempty stop conf exhausted visit settings s Hne) as [Ht Hs].
  destruct (startLoop_failure conf exhausted settings _ 0 _ e u Hnd Hstart Hf)
    as (Hu & Hna & Hna' & (e' & He' & Hlog) & Hsp & Hac & Hmiss).
  subst trace s1. rewrite Ht, Hs.
  split; [|split].
  - split; [exists e'; split; [rewrite !elem_of_app; auto | assumption]|].
    split; [|split; [|assumption]]; [intros Hin | intros tr Hin];
      apply elem_of_app in Hin as [Hin|Hin];
      try (apply not_in_monitor_part in Hin; discriminate);
      (apply elem_of_app in Hin as [Hin|Hin];
         [|first [contradiction | now apply (Hsp tr)]]);
      destruct (stopLoop_event settings _ _ _ Hin) as (_ & Hs1 & Hs2);
      first [now apply (Hs2 u) | now apply (Hs1 u tr)].
  - intros exhausted' v Hv Henv.
    destruct (Reconfigure_nonempty stop conf exhausted' visit settings s Hne) as [-> ->].
    rewrite !eventsAbout_app.
    destruct (startLoop_isolated conf settings u (RTSP_URLs settings) 0
                (stoppedState visit settings s) (stoppedState visit settings s)
                exhausted exhausted' Henv (fun _ _ => eq_refl) v Hv) as [-> ->].
    split; reflexivity.
  - intros exhausted2 processes.
    set (s1 := execProg (forEachIndexed 0 (RTSP_URLs settings)
                           (startStream conf exhausted settings)) (stoppedState visit settings s)) in *.
    destruct (Reconfigure_nonempty stop conf exhausted2 visit settings
                (setProcesses processes s1) Hne) as [Ht2 _].
    assert (Hfound : foundIn u (RTSP_URLs settings) = true)
      by now apply foundIn_elem_of.
    destruct (streamView_inv u _ _
                (stoppedState_view visit settings (setProcesses processes s1) u Hfound))
      as (Hact & HA & HC).
    destruct (startLoop_attempt conf settings exhausted2 (RTSP_URLs settings) 0
                (stoppedState visit settings (setProcesses processes s1)) u Hu)
      as (e2 & He2 & Ha2).
    + rewrite Hact. exact Hna'.
    + rewrite HA, HC. exact Hmiss.
    + exists e2. split; [rewrite Ht2, !elem_of_app; auto | assumption].
Qed.

Lemma Reconfigure_failure_isolated_witness :
  let trace := traceProg (ReconfigureRTSPStreams monitorOnly sampleConf firstExhausted elements twoCameras)
                 oneStream in
  let s1 := execProg (ReconfigureRTSPStreams monitorOnly sampleConf firstExhausted elements twoCameras)
              oneStream in
  ((exists e, e ∈ trace /\ isFailureLog "rtsp://a/live" e) /\
   (EvActivate "rtsp://a/live" ∉ trace) /\
   (forall transport, EvSpawn "rtsp://a/live" transport ∉ trace) /\
   ("rtsp://a/live" ∉ activeStreams s1)) /\
  (forall exhausted' v,
     v <> "rtsp://a/live" ->
     (forall i kind, RTSP_URLs twoCameras !! i <> Some "rtsp://a/live" ->
                     exhausted' i kind = firstExhausted i kind) ->
     eventsAbout v (traceProg (ReconfigureRTSPStreams monitorOnly sampleConf exhausted' elements twoCameras)
                      oneStream) =
       eventsAbout v trace /\
     streamView v (execProg (ReconfigureRTSPStreams monitorOnly sampleConf exhausted' elements twoCameras)
                     oneStream) =
       streamView v s1) /\
  (forall exhausted2 processes,
     exists e,
       e ∈ traceProg (ReconfigureRTSPStreams monitorOnly sampleConf exhausted2 elements twoCameras)
             (setProcesses processes s1) /\
       isAllocation "rtsp://a/live" e).
Proof.
  apply (Reconfigure_failure_isolated monitorOnly sampleConf firstExhausted elements twoCameras
           oneStream "rtsp://a/live").
  - repeat constructor; intros H; elem_cases H; discriminate.
  - exists (EvAllocateAnalysisBuffer "rtsp://a/live" (Some ResourceExhausted)).
    split; [vm_compute; in_list | exists ResourceExhausted; left; reflexivity].
Defined.

(** When the settings name a camera twice and the reservation fails in
    its first iteration, the failure is logged, and the second iteration
    of the same call starts the camera all the same: it is activated and
    its capture goroutine is spawned.  The next call finds it active and
    attempts nothing for it, whatever its environment. *)
Lemma Reconfigure_duplicate_url_started :
  let trace := traceProg (ReconfigureRTSPStreams monitorOnly sampleConf firstExhausted
                            elements sameCameraTwice) noStreams in
  let s1 := execProg (ReconfigureRTSPStreams monitorOnly sampleConf firstExhausted
                        elements sameCameraTwice) noStreams in
  trace = [EvMonitorStart;
           EvAllocateAnalysisBuffer "rtsp://a/live" (Some ResourceExhausted);
           EvLog (LogInitAnalysisFailed "rtsp://a/live");
           EvAllocateAnalysisBuffer "rtsp://a/live" None;
           EvAllocateCaptureBuffer "rtsp://a/live" None;
           EvActivate "rtsp://a/live"; EvSpawn "rtsp://a/live" "tcp"] /\
  (exists e, e ∈ trace /\ isAllocationFailure "rtsp://a/live" e) /\
  ~ ((EvActivate "rtsp://a/live" ∉ trace) /\
     (forall transport, EvSpawn "rtsp://a/live" transport ∉ trace) /\
     ("rtsp://a/live"%string ∉ activeStreams s1)) /\
  (forall exhausted2,
     traceProg (ReconfigureRTSPStreams monitorOnly sampleConf exhausted2 elements
                  sameCameraTwice) s1 = []) /\
  ~ (forall exhausted2,
       exists e,
         e ∈ traceProg (ReconfigureRTSPStreams monitorOnly sampleConf exhausted2 elements
                          sameCameraTwice) s1 /\
         isAllocation "rtsp://a/live" e).
Proof.
  assert (Ht : traceProg (ReconfigureRTSPStreams monitorOnly sampleConf firstExhausted
                            elements sameCameraTwice) noStreams =
               [EvMonitorStart;
                EvAllocateAnalysisBuffer "rtsp://a/live" (Some ResourceExhausted);
                EvLog (LogInitAnalysisFailed "rtsp://a/live");
                EvAllocateAnalysisBuffer "rtsp://a/live" None;
                EvAllocateCaptureBuffer "rtsp://a/live" None;
                EvActivate "rtsp://a/live"; EvSpawn "rtsp://a/live" "tcp"])
    by (vm_compute; reflexivity).
  assert (Hnext : forall exhausted2,
            traceProg (ReconfigureRTSPStreams monitorOnly sampleConf exhausted2 elements
                         sameCameraTwice)
              (execProg (ReconfigureRTSPStreams monitorOnly sampleConf firstExhausted
                           elements sameCameraTwice) noStreams) = [])
    by (intros exhausted2; vm_compute; reflexivity).
  cbv zeta. rewrite Ht. split; [reflexivity|]. split; [|split; [|split]].
  - exists (EvAllocateAnalysisBuffer "rtsp://a/live" (Some ResourceExhausted)).
    split; [in_list | exists ResourceExhausted; left; reflexivity].
  - intros (Hact & _). apply Hact. in_list.
  - exact Hnext.
  - intros Hretry. destruct (Hretry neverExhausted) as (e & He & _).
    rewrite Hnext in He. apply elem_of_nil in He. contradiction.
Qed.

(** * More about the level registry *)

(** ** What [initializeLevelsData] creates *)

Lemma addRTSPSources_notin isAuthenticated clock urls (s : string) : forall i r,
  s ∉ urls ->
  levels (addRTSPSources isAuthenticated clock i urls r) !! s = levels r !! s /\
  lastUpdateTime (addRTSPSources isAuthenticated clock i urls r) !! s =
    lastUpdateTime r !! s /\
  lastNonZeroTime (addRTSPSources isAuthenticated clock i urls r) !! s =
    lastNonZeroTime r !! s.
Proof.
  induction urls as [|url urls IH]; intros i r Hs; [now repeat split|].
  apply not_elem_of_cons in Hs as [Hne Hs]. cbn [addRTSPSources].
  destruct (IH (S i) (addRTSPSource isAuthenticated (clock (S i)) i url r) Hs)
    as (-> & -> & ->).
  unfold addRTSPSource. cbn [levels lastUpdateTime lastNonZeroTime].
  rewrite !lookup_insert_ne by congruence. now repeat split.
Qed.

(** The entry of a configured URL is the one written for its last
    occurrence in the list. *)
Lemma addRTSPSources_in isAuthenticated clock urls (s : string) : forall i r,
  s ∈ urls ->
  exists j,
    urls !! j = Some s /\ (forall k, (j < k)%nat -> urls !! k <> Some s) /\
    levels (addRTSPSources isAuthenticated clock i urls r) !! s =
      Some {| Level := 0; Clipping := false; Source := s;
              Name := if isAuthenticated then cleanRTSPUrl s
                      else cameraName (i + j) |} /\
    lastUpdateTime (addRTSPSources isAuthenticated clock i urls r) !! s =
      Some (clock (S (i + j))) /\
    lastNonZeroTime (addRTSPSources isAuthenticated clock i urls r) !! s =
      Some (clock (S (i + j))).
Proof.
  induction urls as [|url urls IH]; intros i r Hs.
  { apply elem_of_nil in Hs. contradiction. }
  cbn [addRTSPSources].
  destruct (decide (s ∈ urls)) as [Hin|Hnot].
  - destruct (IH (S i) (addRTSPSource isAuthenticated (clock (S i)) i url r) Hin)
      as (j & Hj & Hlast & Hl & Hu & Hn).
    exists (S j). replace (i + S j)%nat with (S i + j)%nat by lia.
    split; [exact Hj|]. split; [|now repeat split].
    intros [|k] Hk; [lia|]. apply Hlast. lia.
  - apply elem_of_cons in Hs as [->|Hs]; [|contradiction].
    destruct (addRTSPSources_notin isAuthenticated clock urls url (S i)
                (addRTSPSource isAuthenticated (clock (S i)) i url r) Hnot)
      as (-> & -> & ->).
    exists 0%nat. rewrite Nat.add_0_r. split; [reflexivity|]. split.
    + intros [|k] Hk; [lia|]. cbn. intros Hk'. apply Hnot.
      now apply list_elem_of_lookup_2 in Hk'.
    + unfold addRTSPSource. cbn [levels lastUpdateTime lastNonZeroTime].
      rewrite !lookup_insert_eq. now repeat split.
Qed.

Lemma Audio_Source_set settings :
  negb (String.eqb (Audio_Source settings) "") = true <-> Audio_Source settings <> "".
Proof.
  rewrite negb_true_iff. destruct (String.eqb_spec (Audio_Source settings) "");
    split; congruence.
Qed.

(** The registry of a new connection before the loop over the URLs. *)
Lemma initializeLevelsData_unfold settings isAuthenticated clock :
  initializeLevelsData settings isAuthenticated clock =
  addRTSPSources isAuthenticated clock 0 (RTSP_URLs settings)
    (if negb (String.eqb (Audio_Source settings) "") then
       {| levels := {["malgo"%string :=
                       {| Level := 0; Clipping := false; Source := "malgo";
                          Name := if negb isAuthenticated then "audio-source-1"%string
                                  else Audio_Source settings |}]};
          lastUpdateTime := {["malgo"%string := clock O]};
          lastNonZeroTime := {["malgo"%string := clock O]} |}
     else {| levels := ∅; lastUpdateTime := ∅; lastNonZeroTime := ∅ |}).
Proof. unfold initializeLevelsData. destruct (negb _); reflexivity. Qed.

(** The entry of a source in the registry of a new connection. *)
Lemma initializeLevelsData_lookup settings isAuthenticated clock (s : string) :
  let r := initializeLevelsData settings isAuthenticated clock in
  ((s ∈ RTSP_URLs settings) /\
   exists j,
     RTSP_URLs settings !! j = Some s /\
     (forall k, (j < k)%nat -> RTSP_URLs settings !! k <> Some s) /\
     levels r !! s =
       Some {| Level := 0; Clipping := false; Source := s;
               Name := if isAuthenticated then cleanRTSPUrl s else cameraName j |} /\
     lastUpdateTime r !! s = Some (clock (S j)) /\
     lastNonZeroTime r !! s = Some (clock (S j))) \/
  ((s ∉ RTSP_URLs settings) /\ s = "malgo"%string /\ Audio_Source settings <> "" /\
   levels r !! s =
     Some {| Level := 0; Clipping := false; Source := "malgo";
             Name := if isAuthenticated then Audio_Source settings
                     else "audio-source-1"%string |} /\
   lastUpdateTime r !! s = Some (clock O) /\
   lastNonZeroTime r !! s = Some (clock O)) \/
  ((s ∉ RTSP_URLs settings) /\ (s <> "malgo"%string \/ Audio_Source settings = "") /\
   levels r !! s = None /\ lastUpdateTime r !! s = None /\
   lastNonZeroTime r !! s = None).
Proof.
  intros r. subst r. rewrite initializeLevelsData_unfold.
  match goal with |- context [addRTSPSources _ _ _ _ ?r] => set (r0 := r) end.
  destruct (decide (s ∈ RTSP_URLs settings)) as [Hin|Hnot].
  - left. split; [assumption|].
    destruct (addRTSPSources_in isAuthenticated clock (RTSP_URLs settings) s 0 r0 Hin)
      as (j & Hj & Hlast & Hl & Hu & Hn).
    exists j. cbn [Nat.add] in *. now repeat split.
  - right.
    destruct (addRTSPSources_notin isAuthenticated clock (RTSP_URLs settings) s 0 r0 Hnot)
      as (-> & -> & ->).
    subst r0.
    destruct (negb (String.eqb (Audio_Source settings) "")) eqn:E;
      cbn [levels lastUpdateTime lastNonZeroTime].
    + apply Audio_Source_set in E. destruct (decide (s = "malgo"%string)) as [->|Hne].
      * left. rewrite !lookup_singleton_eq.
        destruct isAuthenticated; cbn [negb]; now repeat split.
      * right. rewrite !lookup_singleton_ne by congruence. split; [assumption|].
        split; [now left|]. now repeat split.
    + right. rewrite !lookup_empty. split; [assumption|]. split; [|now repeat split].
      right. apply negb_false_iff in E. now apply String.eqb_eq in E.
Qed.

(** X1.  [initializeLevelsData] creates an entry for exactly the configured
    sources: every URL of the settings, and ["malgo"] when an audio device
    is configured.  Each entry is at level 0, not clipping, and carries
    its key as [Source]; the two time maps have the same keys and hold the
    same instant for each of them. *)
Theorem initializeLevelsData_sources settings isAuthenticated clock (s : string) :
  let r := initializeLevelsData settings isAuthenticated clock in
  (is_Some (levels r !! s) <->
     s ∈ RTSP_URLs settings \/ (s = "malgo"%string /\ Audio_Source settings <> "")) /\
  (forall d, levels r !! s = Some d ->
             Level d = 0 /\ Clipping d = false /\ Source d = s) /\
  (is_Some (lastUpdateTime r !! s) <-> is_Some (levels r !! s)) /\
  lastNonZeroTime r !! s = lastUpdateTime r !! s.
Proof.
  intros r.
  destruct (initializeLevelsData_lookup settings isAuthenticated clock s)
    as [(Hin & j & _ & _ & Hl & Hu & Hn)
       |[(Hnot & -> & Hsrc & Hl & Hu & Hn) | (Hnot & Hno & Hl & Hu & Hn)]];
    fold r in Hl, Hu, Hn; rewrite Hl, Hu, Hn.
  - split; [split; eauto|]. split; [intros d [= <-]; now repeat split|].
    split; [split; eauto | reflexivity].
  - split; [split; eauto|]. split; [intros d [= <-]; now repeat split|].
    split; [split; eauto | reflexivity].
  - split.
    { split; [intros [? ?]; discriminate|]. intros [?|[? ?]]; [contradiction|].
      destruct Hno; contradiction. }
    split; [intros d; discriminate|].
    split; [split; intros [? ?]; discriminate | reflexivity].
Qed.

(** X2.  The display names [initializeLevelsData] gives.  An RTSP source is
    named by [cleanRTSPUrl] for an authenticated client, and ["camera-N"]
    otherwise, where N counts from 1 and is the position of the last
    occurrence of the URL in the settings.  The audio device is named by
    the configured source for an authenticated client and
    ["audio-source-1"] otherwise; a URL that is literally ["malgo"] takes
    the entry over. *)
Theorem initializeLevelsData_names settings isAuthenticated clock (s : string) d :
  levels (initializeLevelsData settings isAuthenticated clock) !! s = Some d ->
  (exists j,
     RTSP_URLs settings !! j = Some s /\
     (forall k, (j < k)%nat -> RTSP_URLs settings !! k <> Some s) /\
     Name d = if isAuthenticated then cleanRTSPUrl s else cameraName j) \/
  ((s ∉ RTSP_URLs settings) /\ s = "malgo"%string /\
   Name d = if isAuthenticated then Audio_Source settings
            else "audio-source-1"%string).
Proof.
  intros Hd.
  destruct (initializeLevelsData_lookup settings isAuthenticated clock s)
    as [(Hin & j & Hj & Hlast & Hl & _)
       |[(Hnot & -> & Hsrc & Hl & _) | (Hnot & Hno & Hl & _)]];
    cbv zeta in Hl; rewrite Hl in Hd; [| |discriminate]; injection Hd as <-.
  - left. exists j. now repeat split.
  - right. now repeat split.
Qed.

Lemma initializeLevelsData_names_witness :
  let settings := {| Audio_Source := "hw:0";
                     RTSP_URLs := ["rtsp://u:p@cam/live"; "rtsp://b/x";
                                   "rtsp://u:p@cam/live"];
                     RTSP_Transport := "tcp" |} in
  let d := {| Level := 0; Clipping := false; Source := "rtsp://u:p@cam/live";
              Name := "camera-3" |} in
  (exists j,
     RTSP_URLs settings !! j = Some "rtsp://u:p@cam/live"%string /\
     (forall k, (j < k)%nat ->
                RTSP_URLs settings !! k <> Some "rtsp://u:p@cam/live"%string) /\
     Name d = cameraName j) \/
  (("rtsp://u:p@cam/live"%string ∉ RTSP_URLs settings) /\
   "rtsp://u:p@cam/live"%string = "malgo"%string /\
   Name d = "audio-source-1"%string).
Proof.
  intros settings d.
  apply (initializeLevelsData_names settings false (fun _ => 0)
           "rtsp://u:p@cam/live" d).
  vm_compute. reflexivity.
Defined.

(** ** What [updateAudioLevels] writes *)

Lemma Time_Sub_refl now : Time_Sub now now = 0.
Proof. unfold Time_Sub, minDuration, maxDuration. rewrite Z.sub_diag. reflexivity. Qed.

Lemma Time_Sub_mono now now' t : now <= now' -> Time_Sub now t <= Time_Sub now' t.
Proof. unfold Time_Sub. lia. Qed.

Lemma Time_Sub_below now t threshold :
  0 <= threshold -> now - t <= threshold -> (threshold <? Time_Sub now t) = false.
Proof.
  intros H0 H. apply Z.ltb_ge. unfold Time_Sub, minDuration, maxDuration. lia.
Qed.

(** X3.  [updateAudioLevels] stores the level it is given.  For a level that
    is not negative and a threshold that is not negative, the entry of the
    source holds the incoming level, clipping flag and source, whatever
    the registry held before: the branch that zeroes the level of an
    inactive source never changes what is stored.  The last update time of
    the source is [now], its last non-zero time is [now] when the level is
    positive and is left alone otherwise, and no other source is touched. *)
Theorem updateAudioLevels_stores_level
    settings audioData r isAuthenticated threshold now :
  0 <= Level audioData -> 0 <= threshold ->
  let r' := updateAudioLevels settings audioData r isAuthenticated threshold now in
  (exists d, levels r' !! Source audioData = Some d /\
             Level d = Level audioData /\ Clipping d = Clipping audioData /\
             Source d = Source audioData) /\
  lastUpdateTime r' !! Source audioData = Some now /\
  (0 < Level audioData -> lastNonZeroTime r' !! Source audioData = Some now) /\
  (Level audioData = 0 -> lastNonZeroTime r' = lastNonZeroTime r) /\
  (forall s, s <> Source audioData ->
             levels r' !! s = levels r !! s /\
             lastUpdateTime r' !! s = lastUpdateTime r !! s /\
             lastNonZeroTime r' !! s = lastNonZeroTime r !! s).
Proof.
  intros Hlevel Hth r'. subst r'. unfold updateAudioLevels.
  set (name := if String.eqb (Source audioData) "malgo" then _ else _).
  set (data := setName name audioData).
  change (Source data) with (Source audioData).
  change (Level data) with (Level audioData).
  cbn [levels lastUpdateTime lastNonZeroTime].
  split; [|split; [|split; [|split]]].
  - destruct (Z.ltb_spec 0 (Level audioData)) as [Hpos|Hzero].
    + assert (Hact : isSourceInactive (Source audioData) now
                       (<[Source audioData := now]> (lastUpdateTime r))
                       (<[Source audioData := now]> (lastNonZeroTime r))
                       threshold = false).
      { unfold isSourceInactive. rewrite !lookup_insert_eq, Time_Sub_refl.
        destruct (Z.ltb_spec threshold 0); [lia | reflexivity]. }
      rewrite Hact. cbn [negb]. rewrite lookup_insert_eq.
      exists data. now repeat split.
    + assert (Hz : Level audioData = 0) by lia.
      destruct (negb _); rewrite lookup_insert_eq; eexists; (split; [reflexivity|]);
        cbn [setLevel Level Clipping Source]; subst data; cbn; now repeat split.
  - apply lookup_insert_eq.
  - intros Hpos. apply Z.ltb_lt in Hpos. rewrite Hpos. apply lookup_insert_eq.
  - intros Hz. rewrite Hz. reflexivity.
  - intros s Hs. split; [|split].
    + destruct (negb _); apply lookup_insert_ne; congruence.
    + apply lookup_insert_ne; congruence.
    + destruct (0 <? Level audioData); [apply lookup_insert_ne; congruence | reflexivity].
Qed.

Lemma updateAudioLevels_stores_level_witness :
  let settings := {| Audio_Source := "hw:0"; RTSP_URLs := ["rtsp://u:p@cam/live"];
                     RTSP_Transport := "tcp" |} in
  let audioData := {| Level := 40; Clipping := true;
                      Source := "rtsp://u:p@cam/live"; Name := "" |} in
  let r := initializeLevelsData settings false (fun _ => 0) in
  let r' := updateAudioLevels settings audioData r false inactivityThreshold
              (60 * time_Second) in
  (exists d, levels r' !! Source audioData = Some d /\
             Level d = Level audioData /\ Clipping d = Clipping audioData /\
             Source d = Source audioData) /\
  lastUpdateTime r' !! Source audioData = Some (60 * time_Second) /\
  (0 < Level audioData ->
   lastNonZeroTime r' !! Source audioData = Some (60 * time_Second)) /\
  (Level audioData = 0 -> lastNonZeroTime r' = lastNonZeroTime r) /\
  (forall s, s <> Source audioData ->
             levels r' !! s = levels r !! s /\
             lastUpdateTime r' !! s = lastUpdateTime r !! s /\
             lastNonZeroTime r' !! s = lastNonZeroTime r !! s).
Proof.
  intros settings audioData r.
  apply (updateAudioLevels_stores_level settings audioData r false
           inactivityThreshold (60 * time_Second)).
  - simpl. lia.
  - vm_compute. discriminate.
Defined.

(** The entry [updateAudioLevels] writes, whatever its level. *)
Lemma updateAudioLevels_entry settings audioData r isAuthenticated threshold now :
  exists d,
    levels (updateAudioLevels settings audioData r isAuthenticated threshold now)
      !! Source audioData = Some d /\
    Name d =
      if String.eqb (Source audioData) "malgo" then
        if isAuthenticated then Audio_Source settings else "audio-source-1"%string
      else
        if isAuthenticated then cleanRTSPUrl (Source audioData)
        else cameraNameOf (RTSP_URLs settings) 0 (Source audioData) (Name audioData).
Proof.
  unfold updateAudioLevels. cbn [levels].
  set (name := if String.eqb (Source audioData) "malgo" then _ else _).
  change (Source (setName name audioData)) with (Source audioData).
  destruct (negb _); rewrite lookup_insert_eq; eexists; (split; [reflexivity|]);
    reflexivity.
Qed.

(** The loop of [updateAudioLevels] names a camera by the first position
    of its URL. *)
Lemma cameraNameOf_first urls (s name : string) : forall i j,
  urls !! j = Some s -> (forall k, (k < j)%nat -> urls !! k <> Some s) ->
  cameraNameOf urls i s name = cameraName (i + j).
Proof.
  induction urls as [|url urls IH]; intros i j Hj Hfirst; [discriminate|].
  cbn [cameraNameOf]. destruct (String.eqb_spec url s) as [->|Hne].
  - destruct j as [|j]; [now rewrite Nat.add_0_r|].
    exfalso. apply (Hfirst 0%nat); [lia | reflexivity].
  - destruct j as [|j]; [cbn in Hj; congruence|].
    replace (i + S j)%nat with (S i + j)%nat by lia.
    apply IH; [exact Hj|]. intros k Hk. apply (Hfirst (S k)). lia.
Qed.

Lemma cameraNameOf_missing urls (s name : string) : forall i,
  s ∉ urls -> cameraNameOf urls i s name = name.
Proof.
  induction urls as [|url urls IH]; intros i Hs; [reflexivity|].
  apply not_elem_of_cons in Hs as [Hne Hs]. cbn [cameraNameOf].
  destruct (String.eqb_spec url s); [congruence | now apply IH].
Qed.

(** X4.  An update does not rename a configured source.  When the settings
    name each URL once and none of them is ["malgo"], the entry that
    [updateAudioLevels] writes for a source carries the display name that
    [initializeLevelsData] gave it, for an authenticated client and for an
    unauthenticated one, whatever name came with the audio data. *)
Theorem updateAudioLevels_keeps_name
    settings isAuthenticated clock audioData r threshold now d0 :
  NoDup (RTSP_URLs settings) ->
  "malgo"%string ∉ RTSP_URLs settings ->
  levels (initializeLevelsData settings isAuthenticated clock)
    !! Source audioData = Some d0 ->
  exists d,
    levels (updateAudioLevels settings audioData r isAuthenticated threshold now)
      !! Source audioData = Some d /\
    Name d = Name d0.
Proof.
  intros Hnd Hmalgo Hd0.
  destruct (updateAudioLevels_entry settings audioData r isAuthenticated threshold now)
    as (d & Hd & Hname).
  exists d. split; [assumption|]. rewrite Hname. clear Hd Hname.
  destruct (initializeLevelsData_lookup settings isAuthenticated clock (Source audioData))
    as [(Hin & j & Hj & Hlast & Hl & _)
       |[(Hnot & Hs & Hsrc & Hl & _) | (Hnot & Hno & Hl & _)]];
    cbv zeta in Hl; rewrite Hl in Hd0; [| |discriminate]; injection Hd0 as <-;
    cbn [Name].
  - destruct (String.eqb_spec (Source audioData) "malgo") as [E|_].
    { rewrite E in Hin. contradiction. }
    destruct isAuthenticated; [reflexivity|].
    rewrite (cameraNameOf_first _ _ _ 0 j Hj); [reflexivity|].
    intros k Hk Hk'. assert (k = j) by (eapply NoDup_lookup; eauto). lia.
  - rewrite Hs. cbn [String.eqb Ascii.eqb Bool.eqb]. reflexivity.
Qed.

Lemma updateAudioLevels_keeps_name_witness :
  let settings := {| Audio_Source := "hw:0";
                     RTSP_URLs := ["rtsp://u:p@cam/live"; "rtsp://b/x"];
                     RTSP_Transport := "tcp" |} in
  let audioData := {| Level := 40; Clipping := false;
                      Source := "rtsp://b/x"; Name := "raw name" |} in
  let d0 := {| Level := 0; Clipping := false; Source := "rtsp://b/x";
               Name := "camera-2" |} in
  exists d,
    levels (updateAudioLevels settings audioData
              (initializeLevelsData settings false (fun _ => 0)) false
              inactivityThreshold (3 * time_Second))
      !! Source audioData = Some d /\
    Name d = Name d0.
Proof.
  intros settings audioData d0.
  apply (updateAudioLevels_keeps_name settings false (fun _ => 0) audioData
           (initializeLevelsData settings false (fun _ => 0))
           inactivityThreshold (3 * time_Second) d0).
  - repeat constructor; intros H; repeat (apply elem_of_cons in H as [H|H]; [discriminate|]);
      now apply elem_of_nil in H.
  - intros H; repeat (apply elem_of_cons in H as [H|H]; [discriminate|]);
      now apply elem_of_nil in H.
  - vm_compute. reflexivity.
Defined.

(** ** Activity *)

(** Inactivity is lasting: a source that is inactive at some instant is
    inactive at every later instant, as long as no update comes in. *)
Lemma isSourceInactive_monotone source now now' lu lnz threshold :
  now <= now' ->
  isSourceInactive source now lu lnz threshold = true ->
  isSourceInactive source now' lu lnz threshold = true.
Proof.
  intros Hle. unfold isSourceInactive.
  destruct (lu !! source) as [t|]; [|discriminate].
  destruct (lnz !! source) as [t'|]; [|discriminate].
  rewrite !orb_true_iff, !Z.ltb_lt.
  pose proof (Time_Sub_mono now now' t Hle).
  pose proof (Time_Sub_mono now now' t' Hle). lia.
Qed.

Lemma updateAudioLevels_times settings audioData r isAuthenticated threshold now :
  let r' := updateAudioLevels settings audioData r isAuthenticated threshold now in
  lastUpdateTime r' !! Source audioData = Some now /\
  (0 < Level audioData -> lastNonZeroTime r' !! Source audioData = Some now).
Proof.
  unfold updateAudioLevels. cbn [lastUpdateTime lastNonZeroTime].
  set (name := if String.eqb (Source audioData) "malgo" then _ else _).
  change (Source (setName name audioData)) with (Source audioData).
  change (Level (setName name audioData)) with (Level audioData).
  split; [apply lookup_insert_eq|].
  intros Hpos. apply Z.ltb_lt in Hpos. rewrite Hpos. apply lookup_insert_eq.
Qed.

(** X5.  A positive level keeps its source active for the length of the
    threshold: after [updateAudioLevels] has stored a positive level at
    [now], the source is not inactive at any instant up to
    [now + threshold], and [checkSourceActivity] at such an instant leaves
    its entry as it is. *)
Theorem updateAudioLevels_keeps_active
    settings audioData r isAuthenticated threshold now now' :
  0 < Level audioData -> 0 <= threshold -> now' - now <= threshold ->
  let r' := updateAudioLevels settings audioData r isAuthenticated threshold now in
  isSourceInactive (Source audioData) now' (lastUpdateTime r') (lastNonZeroTime r')
    threshold = false /\
  fst (checkSourceActivity (levels r') (lastUpdateTime r') (lastNonZeroTime r')
         threshold now') !! Source audioData =
    levels r' !! Source audioData.
Proof.
  intros Hpos Hth Hnow r'.
  assert (Hact : isSourceInactive (Source audioData) now' (lastUpdateTime r')
                   (lastNonZeroTime r') threshold = false).
  { destruct (updateAudioLevels_times settings audioData r isAuthenticated
                threshold now) as (Hu & Hn).
    fold r' in Hu, Hn. unfold isSourceInactive. rewrite Hu, (Hn Hpos).
    rewrite Time_Sub_below by assumption. reflexivity. }
  split; [assumption|].
  rewrite checkSourceActivity_lookup. unfold checkedEntry. rewrite Hact.
  destruct (levels r' !! Source audioData); reflexivity.
Qed.

Lemma updateAudioLevels_keeps_active_witness :
  let settings := {| Audio_Source := "hw:0"; RTSP_URLs := [];
                     RTSP_Transport := "tcp" |} in
  let audioData := {| Level := 7; Clipping := false; Source := "malgo"; Name := "" |} in
  let r' := updateAudioLevels settings audioData
              (initializeLevelsData settings true (fun _ => 0)) true
              inactivityThreshold (100 * time_Second) in
  isSourceInactive (Source audioData) (115 * time_Second)
    (lastUpdateTime r') (lastNonZeroTime r') inactivityThreshold = false /\
  fst (checkSourceActivity (levels r') (lastUpdateTime r') (lastNonZeroTime r')
         inactivityThreshold (115 * time_Second)) !! Source audioData =
    levels r' !! Source audioData.
Proof.
  intros settings audioData.
  apply (updateAudioLevels_keeps_active settings audioData
           (initializeLevelsData settings true (fun _ => 0)) true
           inactivityThreshold (100 * time_Second) (115 * time_Second)).
  - simpl. lia.
  - vm_compute. discriminate.
  - vm_compute. discriminate.
Defined.

(** The flag of the loop of [checkSourceActivity] is set exactly when an
    entry of the map calls for a change. *)
Lemma checkSourceActivity_flag now lu lnz threshold
    (base m : gmap string AudioLevelData) :
  snd (map_fold (checkSource now lu lnz threshold) (base, false) m) = true <->
  exists s d, m !! s = Some d /\
              isSourceInactive s now lu lnz threshold = true /\ Level d <> 0.
Proof.
  apply (map_fold_weak_ind (fun (r : gmap string AudioLevelData * bool) m =>
    snd r = true <->
    exists s d, m !! s = Some d /\
                isSourceInactive s now lu lnz threshold = true /\ Level d <> 0)).
  - split; [discriminate|]. intros (s & d & Hd & _). rewrite lookup_empty in Hd.
    discriminate.
  - intros i x m' r Hi IH. unfold checkSource.
    destruct (isSourceInactive i now lu lnz threshold && negb (Level x =? 0)) eqn:E.
    + cbn [snd]. split; [intros _|reflexivity].
      apply andb_true_iff in E as [E1 E2]. apply negb_true_iff, Z.eqb_neq in E2.
      exists i, x. rewrite lookup_insert_eq. now repeat split.
    + rewrite IH. split.
      * intros (s & d & Hd & Hin & Hl). exists s, d.
        rewrite lookup_insert_ne by congruence. now repeat split.
      * intros (s & d & Hd & Hin & Hl).
        destruct (decide (i = s)) as [->|Hne].
        { rewrite lookup_insert_eq in Hd. injection Hd as ->.
          rewrite Hin in E. apply Z.eqb_neq in Hl. rewrite Hl in E. discriminate. }
        rewrite lookup_insert_ne in Hd by assumption. eauto.
Qed.

Lemma checkedEntry_changed now lu lnz threshold s d :
  checkedEntry now lu lnz threshold s d <> d <->
  isSourceInactive s now lu lnz threshold = true /\ Level d <> 0.
Proof.
  unfold checkedEntry.
  destruct (isSourceInactive s now lu lnz threshold); cbn [andb].
  - destruct (Z.eqb_spec (Level d) 0) as [Hz|Hnz]; cbn [negb].
    + split; [congruence | tauto].
    + split; [tauto|]. intros _ H. apply Hnz. rewrite <- H. reflexivity.
  - split; [congruence|]. intros [? _]; discriminate.
Qed.

Lemma checkSourceActivity_unchanged lv lu lnz threshold now :
  snd (checkSourceActivity lv lu lnz threshold now) = false ->
  fst (checkSourceActivity lv lu lnz threshold now) = lv.
Proof.
  intros Hflag. apply map_eq. intros s. rewrite checkSourceActivity_lookup.
  destruct (lv !! s) as [d|] eqn:Hd; [|reflexivity].
  cbn [fmap option_fmap option_map]. f_equal. unfold checkedEntry.
  destruct (isSourceInactive s now lu lnz threshold && negb (Level d =? 0)) eqn:E;
    [|reflexivity].
  exfalso. apply andb_true_iff in E as [E1 E2].
  apply negb_true_iff, Z.eqb_neq in E2.
  apply not_true_iff_false in Hflag. apply Hflag.
  unfold checkSourceActivity. apply checkSourceActivity_flag. eauto.
Qed.

(** X6.  The result of [checkSourceActivity] tells whether it changed
    anything: it is [true] exactly when the map of levels after the call
    differs from the map before. *)
Theorem checkSourceActivity_updated lv lu lnz threshold now :
  snd (checkSourceActivity lv lu lnz threshold now) = true <->
  fst (checkSourceActivity lv lu lnz threshold now) <> lv.
Proof.
  split.
  - unfold checkSourceActivity at 1. rewrite checkSourceActivity_flag.
    intros (s & d & Hd & Hin & Hl) Heq.
    assert (H : fst (checkSourceActivity lv lu lnz threshold now) !! s = Some d)
      by (rewrite Heq; assumption).
    rewrite checkSourceActivity_lookup, Hd in H.
    cbn [fmap option_fmap option_map] in H. injection H as H.
    revert H. apply checkedEntry_changed. now split.
  - intros Hne. apply not_false_iff_true. intros Hflag. apply Hne.
    now apply checkSourceActivity_unchanged.
Qed.

(** X7.  [checkSourceActivity] changes nothing but levels, and a level only
    to 0: the map keeps its keys, every entry keeps its name, source and
    clipping flag, and its level either stays or, for an inactive source,
    becomes 0. *)
Theorem checkSourceActivity_only_zeroes lv lu lnz threshold now (s : string) :
  match lv !! s, fst (checkSourceActivity lv lu lnz threshold now) !! s with
  | Some d, Some d' =>
      Name d' = Name d /\ Source d' = Source d /\ Clipping d' = Clipping d /\
      (d' = d \/
       (Level d' = 0 /\ Level d <> 0 /\
        isSourceInactive s now lu lnz threshold = true))
  | None, None => True
  | _, _ => False
  end.
Proof.
  rewrite checkSourceActivity_lookup.
  destruct (lv !! s) as [d|]; cbn [fmap option_fmap option_map]; [|exact I].
  unfold checkedEntry.
  destruct (isSourceInactive s now lu lnz threshold); cbn [andb];
    [|now repeat split; left].
  destruct (Z.eqb_spec (Level d) 0); cbn [negb]; [now repeat split; left|].
  cbn [setLevel Name Source Clipping Level]. repeat split. now right.
Qed.

(** X8.  Checking twice at the same instant changes nothing the second time,
    and the second call returns [false]. *)
Theorem checkSourceActivity_idempotent lv lu lnz threshold now :
  let lv' := fst (checkSourceActivity lv lu lnz threshold now) in
  checkSourceActivity lv' lu lnz threshold now = (lv', false).
Proof.
  intros lv'.
  assert (Hflag : snd (checkSourceActivity lv' lu lnz threshold now) = false).
  { apply not_true_is_false. unfold checkSourceActivity at 1.
    rewrite checkSourceActivity_flag. intros (s & d & Hd & Hin & Hl).
    subst lv'. rewrite checkSourceActivity_lookup in Hd.
    destruct (lv !! s) as [d0|]; [|discriminate].
    cbn [fmap option_fmap option_map] in Hd. injection Hd as <-.
    unfold checkedEntry in Hl. rewrite Hin in Hl. cbn [andb] in Hl.
    destruct (Z.eqb_spec (Level d0) 0); cbn [negb] in Hl; [contradiction|].
    now apply Hl. }
  assert (Hsame : fst (checkSourceActivity lv' lu lnz threshold now) = lv')
    by now apply checkSourceActivity_unchanged.
  destruct (checkSourceActivity lv' lu lnz threshold now) as [a b].
  cbn [fst snd] in *. congruence.
Qed.

(** * More about [cleanRTSPUrl] *)

Lemma hostPart_cons a (s : string) :
  hostPart (String a s) = if Ascii.eqb a "/" then EmptyString else String a (hostPart s).
Proof.
  unfold hostPart. cbn [findByte]. destruct (Ascii.eqb a "/"); [reflexivity|].
  destruct (findByte "/" s) as [j|]; reflexivity.
Qed.

Lemma hostPart_no_slash (s : string) i : String.get i (hostPart s) <> Some "/"%char.
Proof.
  revert i. induction s as [|a s IH]; intros i; [destruct i; discriminate|].
  rewrite hostPart_cons. destruct (Ascii.eqb_spec a "/") as [->|Hne].
  - destruct i; discriminate.
  - destruct i as [|i]; cbn [String.get]; [congruence | apply IH].
Qed.

Lemma hostPart_length (s : string) : (String.length (hostPart s) <= String.length s)%nat.
Proof.
  induction s as [|a s IH]; [reflexivity|]. rewrite hostPart_cons.
  destruct (Ascii.eqb a "/"); cbn [String.length]; lia.
Qed.

Lemma substring_length_le n m (s : string) :
  (String.length (String.substring n m s) <= m)%nat.
Proof.
  revert n m. induction s as [|a s IH]; intros [|n] [|m]; cbn; try lia.
  - specialize (IH 0%nat m). lia.
  - apply (IH n 0%nat).
  - apply (IH n (S m)).
Qed.

Lemma get_append_ge (pre s : string) i :
  String.get (String.length pre + i) (pre +:+ s) = String.get i s.
Proof. induction pre as [|c pre IH]; str_simpl; auto. Qed.

Lemma string_split n : forall s : string,
  (n <= String.length s)%nat ->
  exists pre rest, s = pre +:+ rest /\ String.length pre = n.
Proof.
  induction n as [|n IH]; intros s Hn.
  - exists EmptyString, s. split; reflexivity.
  - destruct s as [|a s]; [cbn in Hn; lia|].
    destruct (IH s) as (pre & rest & -> & Hlen); [cbn in Hn; lia|].
    exists (String a pre), rest. split; [reflexivity | cbn; congruence].
Qed.

Lemma findByte_lt c (s : string) k : findByte c s = Some k -> (k < String.length s)%nat.
Proof.
  revert k. induction s as [|a s IH]; intros k; [discriminate|].
  cbn [findByte String.length]. destruct (Ascii.eqb a c).
  - intros [= <-]. lia.
  - destruct (findByte c s) as [j|]; [|discriminate]. intros [= <-].
    specialize (IH j eq_refl). lia.
Qed.

Lemma findByte_None c (s : string) :
  findByte c s = None <-> ~ In c (list_ascii_of_string s).
Proof.
  induction s as [|a s IH]; cbn [findByte list_ascii_of_string In]; [tauto|].
  destruct (Ascii.eqb_spec a c) as [->|Hne].
  - split; [discriminate | tauto].
  - destruct (findByte c s); cbn [option_map].
    + split; [discriminate|]. intros H. exfalso.
      assert (Hn : ~ In c (list_ascii_of_string s)) by tauto.
      apply IH in Hn. discriminate.
    + split; [|reflexivity]. intros _ [?|?]; [contradiction|].
      now apply (proj1 IH).
Qed.

Lemma indexByteFrom_short c (url : string) start :
  (String.length url <= start)%nat -> indexByteFrom c url start = None.
Proof.
  intros H. unfold indexByteFrom.
  replace (String.length url - start)%nat with 0%nat by lia. reflexivity.
Qed.

(** What [cleanRTSPUrl] computes, for a URL of at least seven bytes. *)
Lemma cleanRTSPUrl_split (pre rest : string) :
  String.length pre = 7%nat ->
  cleanRTSPUrl (pre +:+ rest) =
  match findByte "@" rest with
  | Some k =>
      "rtsp://" +:+
        hostPart (String.substring (k + 1) (String.length rest - (k + 1)) rest)
  | None => pre +:+ hostPart rest
  end.
Proof.
  intros Hpre. unfold cleanRTSPUrl.
  change (String.length "rtsp://") with 7%nat. rewrite <- Hpre.
  rewrite (indexByteFrom_append "@" pre rest).
  assert (Hslash : forall p r : string, String.length p = String.length pre ->
            match indexByteFrom "/" (p +:+ r) (String.length pre) with
            | Some slashIndex => String.substring 0 slashIndex (p +:+ r)
            | None => p +:+ r
            end = p +:+ hostPart r).
  { intros p r Hp. rewrite <- Hp. rewrite (indexByteFrom_append "/" p r).
    unfold hostPart. destruct (findByte "/" r) as [j|]; cbn [option_map];
      [|reflexivity].
    apply substring_append_keep. }
  destruct (findByte "@" rest) as [k|] eqn:Hk; cbn [option_map].
  - assert (Hlt := findByte_lt _ _ _ Hk).
    replace (String.substring (String.length pre + k + 1) _ (pre +:+ rest))
      with (String.substring (k + 1) (String.length rest - (k + 1)) rest).
    { apply Hslash. rewrite Hpre. reflexivity. }
    rewrite length_append.
    replace (String.length pre + String.length rest - (String.length pre + k + 1))%nat
      with (String.length rest - (k + 1))%nat by lia.
    replace (String.length pre + k + 1)%nat with (String.length pre + (k + 1))%nat
      by lia.
    generalize (k + 1)%nat (String.length rest - (k + 1))%nat. clear.
    intros n m. induction pre as [|c pre IH]; str_simpl; auto.
  - apply Hslash. reflexivity.
Qed.

(** X9.  The scheme is not looked at: [cleanRTSPUrl] skips the first seven
    bytes whatever they are.  A URL with no ['@'] after them is cut at the
    first ['/'] after them, and keeps its first seven bytes. *)
Theorem cleanRTSPUrl_no_credentials (pre rest : string) :
  String.length pre = 7%nat ->
  ~ In "@"%char (list_ascii_of_string rest) ->
  cleanRTSPUrl (pre +:+ rest) = pre +:+ hostPart rest.
Proof.
  intros Hpre Hno. rewrite cleanRTSPUrl_split by assumption.
  apply findByte_None in Hno. rewrite Hno. reflexivity.
Qed.

Lemma cleanRTSPUrl_no_credentials_witness :
  cleanRTSPUrl "http://192.168.1.10:554/stream1" = "http://192.168.1.10:554"%string.
Proof.
  apply (cleanRTSPUrl_no_credentials "http://" "192.168.1.10:554/stream1").
  - reflexivity.
  - cbn. intros H. repeat (destruct H as [H|H]; [discriminate|]). exact H.
Defined.

(** X10.  The shape of what [cleanRTSPUrl] returns: it is never longer than
    the URL, a URL of at most seven bytes is returned as it is, and from
    the eighth byte on the result holds no ['/']. *)
Theorem cleanRTSPUrl_shape (url : string) :
  (String.length (cleanRTSPUrl url) <= String.length url)%nat /\
  ((String.length url <= 7)%nat -> cleanRTSPUrl url = url) /\
  (forall i, (7 <= i)%nat -> String.get i (cleanRTSPUrl url) <> Some "/"%char).
Proof.
  destruct (le_gt_dec (String.length url) 7) as [Hshort|Hlong].
  - assert (Hid : cleanRTSPUrl url = url).
    { unfold cleanRTSPUrl. change (String.length "rtsp://") with 7%nat.
      rewrite (indexByteFrom_short "@" url 7) by assumption.
      rewrite (indexByteFrom_short "/" url 7) by assumption. reflexivity. }
    rewrite Hid. split; [lia|]. split; [reflexivity|].
    intros i Hi. assert (Hnone : String.get i url = None).
    { clear -Hshort Hi. revert i Hi Hshort.
      induction url as [|a url IH]; intros i Hi Hlen; [reflexivity|].
      destruct i as [|i]; [lia|]. cbn [String.get].
      destruct (le_gt_dec (String.length url) i) as [Hle|Hgt].
      - clear -Hle. revert i Hle. induction url as [|b url IH]; intros i Hle;
          [destruct i; reflexivity|].
        destruct i as [|i]; [cbn in Hle; lia|]. apply IH. cbn in Hle. lia.
      - cbn in Hlen. lia. }
    rewrite Hnone. discriminate.
  - destruct (string_split 7 url) as (pre & rest & -> & Hpre); [lia|].
    rewrite cleanRTSPUrl_split by assumption. rewrite length_append, Hpre.
    split; [|split].
    + destruct (findByte "@" rest) as [k|] eqn:Hk.
      * assert (Hlt := findByte_lt _ _ _ Hk).
        rewrite length_append. change (String.length "rtsp://") with 7%nat.
        pose proof (hostPart_length
                      (String.substring (k + 1) (String.length rest - (k + 1)) rest)).
        pose proof (substring_length_le (k + 1) (String.length rest - (k + 1)) rest).
        lia.
      * rewrite length_append, Hpre. pose proof (hostPart_length rest). lia.
    + intros H. exfalso. rewrite length_append, Hpre in Hlong. lia.
    + intros i Hi. replace i with (7 + (i - 7))%nat by lia.
      destruct (findByte "@" rest) as [k|].
      * change 7%nat with (String.length "rtsp://") at 1.
        rewrite get_append_ge. apply hostPart_no_slash.
      * rewrite <- Hpre at 1. rewrite get_append_ge. apply hostPart_no_slash.
Qed.

(** * The connection of a client *)

Section HandlerFacts.

Variable settings : Settings.
Variable clock : nat -> Time.
Variable write : nat -> option string.

Ltac sse_cases :=
  repeat match goal with
    | |- context [write ?n] => destruct (write n) eqn:?
    | |- context [if ?b then _ else _] => destruct b eqn:?
    | |- context [checkSourceActivity ?a ?b ?c ?d ?e] =>
        destruct (checkSourceActivity a b c d e) as [? ?] eqn:?
    end; cbn [fst snd sse_connections sse_out sse_tick sse_writes conn_registry].

(** A turn of the loop leaves the registered connections alone, and
    only adds to what has been written. *)
Lemma sseTurn_world clientIP ev c w :
  let '(c', w', result) := sseTurn settings clock write clientIP ev c w in
  sse_connections w' = sse_connections w /\
  exists added, sse_out w' = sse_out w ++ added /\
    forall lv, OutLevels lv ∈ added -> lv = levels (conn_registry c').
Proof.
  destruct ev as [| |audioData isAuthenticated| |];
    unfold sseTurn, sendLevelsUpdate, writeResponse, time_Now, output;
    cbn [fst snd sse_connections sse_out sse_tick sse_writes];
    sse_cases;
    (split; [reflexivity|]);
    rewrite <- ?app_assoc;
    (eexists; split; [first [reflexivity | symmetry; apply app_nil_r]|]);
    intros lv Hin;
    repeat (first [apply elem_of_app in Hin as [Hin|Hin]
                  | apply elem_of_cons in Hin as [Hin|Hin]
                  | apply elem_of_nil in Hin; contradiction]);
    try discriminate; try (injection Hin as ->; reflexivity).
Qed.

Lemma sseLoop_world clientIP events : forall c w,
  let '(c', w', result) := sseLoop settings clock write clientIP events c w in
  sse_connections w' = sse_connections w /\
  exists added, sse_out w' = sse_out w ++ added.
Proof.
  induction events as [|ev events IH]; intros c w; cbn [sseLoop].
  - split; [reflexivity|]. exists []. symmetry. apply app_nil_r.
  - pose proof (sseTurn_world clientIP ev c w) as Hturn.
    destruct (sseTurn settings clock write clientIP ev c w) as [[c1 w1] [result|]].
    + destruct Hturn as (Hc & added & Ho & _). split; [assumption | eauto].
    + destruct Hturn as (Hc & added & Ho & _).
      specialize (IH c1 w1).
      destruct (sseLoop settings clock write clientIP events c1 w1) as [[c2 w2] r2].
      destruct IH as (Hc2 & added2 & Ho2). split; [congruence|].
      exists (added ++ added2). rewrite Ho2, Ho. symmetry. apply app_assoc.
Qed.

Lemma updateAudioLevels_levelsOk audioData r isAuthenticated threshold now :
  0 <= Level audioData <= 100 ->
  levelsOk settings (levels r) ->
  levelsOk settings (levels (updateAudioLevels settings audioData r isAuthenticated
                      threshold now)).
Proof.
  intros Hrange [Hlv Hcfg]. unfold updateAudioLevels. cbn [levels].
  set (name := if String.eqb (Source audioData) "malgo" then _ else _).
  change (Source (setName name audioData)) with (Source audioData).
  split.
  - intros s d. destruct (decide (Source audioData = s)) as [<-|Hne].
    + destruct (negb _); rewrite lookup_insert_eq; intros [= <-]; cbn; lia.
    + destruct (negb _); rewrite lookup_insert_ne by assumption; apply Hlv.
  - intros s Hs. destruct (negb _); apply is_Some_insert; right; now apply Hcfg.
Qed.

Lemma checkSourceActivity_levelsOk lv lu lnz threshold now :
  levelsOk settings lv ->
  levelsOk settings (fst (checkSourceActivity lv lu lnz threshold now)).
Proof.
  intros [Hlv Hcfg]. split.
  - intros s d. rewrite checkSourceActivity_lookup.
    destruct (lv !! s) as [d0|] eqn:E; [|discriminate].
    cbn [fmap option_fmap option_map]. intros [= <-]. specialize (Hlv s d0 E).
    unfold checkedEntry. destruct (_ && _); cbn; lia.
  - intros s Hs. rewrite checkSourceActivity_lookup. apply fmap_is_Some.
    now apply Hcfg.
Qed.

Lemma sseTurn_levelsOk clientIP ev c w :
  selectInRange ev ->
  levelsOk settings (levels (conn_registry c)) ->
  levelsOk settings (levels (conn_registry
                      (fst (fst (sseTurn settings clock write clientIP ev c w))))).
Proof.
  intros Hev Hok. destruct ev as [| |audioData isAuthenticated| |];
    cbn [selectInRange] in Hev.
  - exact Hok.
  - exact Hok.
  - assert (H : forall now, levelsOk settings (levels (updateAudioLevels settings audioData
                       (conn_registry c) isAuthenticated inactivityThreshold now)))
      by (intros now; now apply updateAudioLevels_levelsOk).
    unfold sseTurn, sendLevelsUpdate, writeResponse, time_Now, output;
      cbn [fst snd sse_connections sse_out sse_tick sse_writes];
      sse_cases; apply H.
  - pose proof (checkSourceActivity_levelsOk (levels (conn_registry c))
                  (lastUpdateTime (conn_registry c)) (lastNonZeroTime (conn_registry c))
                  inactivityThreshold (clock (sse_tick w)) Hok) as H.
    unfold sseTurn, sendLevelsUpdate, writeResponse, time_Now, output;
      cbn [fst snd sse_connections sse_out sse_tick sse_writes].
    destruct (checkSourceActivity _ _ _ _ _) as [lv updated]. cbn [fst] in H.
    sse_cases; exact H.
  - unfold sseTurn, writeResponse, time_Now, output;
      cbn [fst snd sse_connections sse_out sse_tick sse_writes];
      sse_cases; exact Hok.
Qed.

Lemma sseLoop_levelsOk clientIP events : forall c w,
  Forall selectInRange events ->
  levelsOk settings (levels (conn_registry c)) ->
  let '(c', w', result) := sseLoop settings clock write clientIP events c w in
  exists added, sse_out w' = sse_out w ++ added /\
    forall lv, OutLevels lv ∈ added -> levelsOk settings lv.
Proof.
  induction events as [|ev events IH]; intros c w Hev Hok; cbn [sseLoop].
  - exists []. split; [symmetry; apply app_nil_r|].
    intros lv H. apply elem_of_nil in H. contradiction.
  - apply Forall_cons in Hev as [Hev Hrest].
    pose proof (sseTurn_world clientIP ev c w) as Hturn.
    pose proof (sseTurn_levelsOk clientIP ev c w Hev Hok) as Hok1.
    destruct (sseTurn settings clock write clientIP ev c w) as [[c1 w1] [result|]];
      cbn [fst] in Hok1; destruct Hturn as (_ & added & Ho & Hlv).
    + exists added. split; [assumption|]. intros lv Hin.
      rewrite (Hlv lv Hin). exact Hok1.
    + specialize (IH c1 w1 Hrest Hok1).
      destruct (sseLoop settings clock write clientIP events c1 w1) as [[c2 w2] r2].
      destruct IH as (added2 & Ho2 & Hlv2).
      exists (added ++ added2). split; [rewrite Ho2, Ho; symmetry; apply app_assoc|].
      intros lv Hin. apply elem_of_app in Hin as [Hin|Hin]; [|now apply Hlv2].
      rewrite (Hlv lv Hin). exact Hok1.
Qed.

Lemma initializeLevelsData_levelsOk isAuthenticated clk :
  levelsOk settings (levels (initializeLevelsData settings isAuthenticated clk)).
Proof.
  split.
  - intros s d Hd.
    destruct (initializeLevelsData_lookup settings isAuthenticated clk s)
      as [(_ & j & _ & _ & Hl & _)|[(_ & _ & _ & Hl & _) | (_ & _ & Hl & _)]];
      cbv zeta in Hl; rewrite Hl in Hd; [| |discriminate]; injection Hd as <-;
      cbn; lia.
  - intros s Hs.
    destruct (initializeLevelsData_lookup settings isAuthenticated clk s)
      as [(_ & j & _ & _ & Hl & _)|[(_ & _ & _ & Hl & _) | (Hnot & Hno & _)]].
    + cbv zeta in Hl. rewrite Hl. eauto.
    + cbv zeta in Hl. rewrite Hl. eauto.
    + destruct Hs as [Hs|[Hs1 Hs2]]; [contradiction|]. destruct Hno; contradiction.
Qed.

(** X11.  The registration of a client.  The handler never touches the
    registration of another address.  A client that is registered already
    is refused with status 429 and nothing else happens: the registration
    stays as it was.  A client that was not registered is registered, with
    the instant the handler read first, for as long as the handler waits
    in its loop, and is not registered any more once the handler has
    returned, whatever made it return. *)
Theorem AudioLevelSSE_registration clientIP isAuthenticated events w :
  let w' := fst (AudioLevelSSE settings clock write clientIP isAuthenticated events w) in
  let result :=
    snd (AudioLevelSSE settings clock write clientIP isAuthenticated events w) in
  (forall ip, ip <> clientIP ->
              sse_connections w' !! ip = sse_connections w !! ip) /\
  match sse_connections w !! clientIP with
  | Some _ =>
      result = Some None /\ sse_connections w' = sse_connections w /\
      sse_out w' =
        sse_out w ++ [OutLog (LogRejectedDuplicate clientIP); OutNoContent 429]
  | None =>
      match result with
      | Some _ => sse_connections w' = sse_connections w
      | None => sse_connections w' !! clientIP = Some (clock (sse_tick w))
      end
  end.
Proof.
  intros w' result. subst w' result. unfold AudioLevelSSE, time_Now.
  cbn [sse_connections sse_tick sse_writes sse_out].
  destruct (sse_connections w !! clientIP) as [t|] eqn:Hreg.
  { cbn. now repeat split. }
  unfold sseCleanup, sendLevelsUpdate, writeResponse, output, setConnections.
  cbn [sse_connections sse_tick sse_writes sse_out].
  destruct (write (sse_writes w)) as [cause|] eqn:Hw;
    cbn [fst snd sse_connections sse_tick sse_writes sse_out].
  { rewrite delete_insert_id by assumption. split; reflexivity. }
  match goal with |- context [sseLoop _ _ _ _ _ ?c ?w0] =>
    pose proof (sseLoop_world clientIP events c w0) as Hloop;
    destruct (sseLoop settings clock write clientIP events c w0) as [[c2 w2] [r|]]
  end; destruct Hloop as (Hc & _); cbn [sse_connections] in Hc;
    cbn [fst snd sse_connections].
  - rewrite Hc, delete_insert_id by assumption. split; reflexivity.
  - rewrite Hc. split; [|apply lookup_insert_eq].
    intros ip Hne. apply lookup_insert_ne. congruence.
Qed.

(** One connection for each client.  While the handler of a client has
    not returned, a second call for the same address is refused with
    status 429: it returns at once, writes nothing else, and leaves the
    registration of the first call in place. *)
Corollary AudioLevelSSE_one_per_client
    clientIP isAuthenticated events isAuthenticated' events' w :
  sse_connections w !! clientIP = None ->
  snd (AudioLevelSSE settings clock write clientIP isAuthenticated events w) = None ->
  let w1 := fst (AudioLevelSSE settings clock write clientIP isAuthenticated events w) in
  let w2 := fst (AudioLevelSSE settings clock write clientIP isAuthenticated' events' w1) in
  snd (AudioLevelSSE settings clock write clientIP isAuthenticated' events' w1) =
    Some None /\
  sse_out w2 = sse_out w1 ++ [OutLog (LogRejectedDuplicate clientIP); OutNoContent 429] /\
  sse_connections w2 = sse_connections w1 /\
  sse_connections w2 !! clientIP = Some (clock (sse_tick w)).
Proof.
  intros Hfree Hrun w1 w2.
  assert (Hreg : sse_connections w1 !! clientIP = Some (clock (sse_tick w))).
  { subst w1. revert Hrun. unfold AudioLevelSSE, time_Now.
    cbn [sse_connections sse_tick sse_writes sse_out]. rewrite Hfree.
    unfold sseCleanup, sendLevelsUpdate, writeResponse, output, setConnections.
    cbn [sse_connections sse_tick sse_writes sse_out].
    destruct (write (sse_writes w)); [discriminate|].
    match goal with |- context [sseLoop _ _ _ _ _ ?c ?w0] =>
      pose proof (sseLoop_world clientIP events c w0) as Hloop;
      destruct (sseLoop settings clock write clientIP events c w0) as [[c2 w2'] [r|]]
    end; [discriminate|].
    destruct Hloop as (Hc & _). cbn [fst snd sse_connections] in *. intros _.
    rewrite Hc. apply lookup_insert_eq. }
  subst w2. unfold AudioLevelSSE at 1 2 3 4, time_Now.
  cbn [sse_connections sse_tick sse_writes sse_out]. rewrite Hreg.
  cbn [fst snd output sse_connections sse_out]. now repeat split.
Qed.

(** X12.  What the client is sent.  When the levels that arrive are within 0
    to 100, every set of levels the handler sends holds a level within 0
    to 100 for each of its sources, and has an entry for every configured
    source: entries are added, never dropped. *)
Theorem AudioLevelSSE_levels_sent clientIP isAuthenticated events w :
  Forall selectInRange events ->
  let w' := fst (AudioLevelSSE settings clock write clientIP isAuthenticated events w) in
  exists added,
    sse_out w' = sse_out w ++ added /\
    forall lv, OutLevels lv ∈ added ->
      (forall s d, lv !! s = Some d -> 0 <= Level d <= 100) /\
      (forall s, configuredSource settings s -> is_Some (lv !! s)).
Proof.
  intros Hev w'. subst w'. unfold AudioLevelSSE, time_Now.
  cbn [sse_connections sse_tick sse_writes sse_out].
  destruct (sse_connections w !! clientIP) as [t|] eqn:Hreg.
  { cbn. eexists. split; [reflexivity|]. intros lv Hin.
    repeat (first [apply elem_of_app in Hin as [Hin|Hin]
                  | apply elem_of_cons in Hin as [Hin|Hin]
                  | apply elem_of_nil in Hin; contradiction]);
    discriminate. }
  unfold sseCleanup, sendLevelsUpdate, writeResponse, output, setConnections.
  cbn [sse_connections sse_tick sse_writes sse_out].
  destruct (write (sse_writes w)) as [cause|] eqn:Hw;
    cbn [fst snd sse_connections sse_tick sse_writes sse_out].
  { rewrite <- !app_assoc. eexists. split; [reflexivity|]. intros lv Hin.
    repeat (first [apply elem_of_app in Hin as [Hin|Hin]
                  | apply elem_of_cons in Hin as [Hin|Hin]
                  | apply elem_of_nil in Hin; contradiction]);
    discriminate. }
  set (r := initializeLevelsData settings isAuthenticated _).
  assert (Hok : levelsOk settings (levels r)) by apply initializeLevelsData_levelsOk.
  match goal with |- context [sseLoop _ _ _ _ _ ?c ?w0] =>
    pose proof (sseLoop_levelsOk clientIP events c w0 Hev Hok) as Hloop;
    destruct (sseLoop settings clock write clientIP events c w0) as [[c2 w2] [res|]]
  end; destruct Hloop as (added & Ho & Hlv); cbn [sse_out] in Ho;
    cbn [fst snd sse_out]; rewrite Ho, <- !app_assoc;
    (eexists; split; [reflexivity|]); intros lv Hin;
    repeat (first [apply elem_of_app in Hin as [Hin|Hin]
                  | apply elem_of_cons in Hin as [Hin|Hin]
                  | apply elem_of_nil in Hin; contradiction]);
    try discriminate;
    first [ injection Hin as ->; exact Hok | now apply Hlv ].
Qed.

End HandlerFacts.

Lemma AudioLevelSSE_levels_sent_witness :
  let events := [SelAudio {| Level := 40; Clipping := false;
                             Source := "rtsp://a/live"; Name := "" |} true;
                 SelActivity; SelTimeout] in
  let w' := fst (AudioLevelSSE twoCameras secondsClock neverFails "10.0.0.5" true
                   events emptyWorld) in
  exists added,
    sse_out w' = sse_out emptyWorld ++ added /\
    forall lv, OutLevels lv ∈ added ->
      (forall s d, lv !! s = Some d -> 0 <= Level d <= 100) /\
      (forall s, configuredSource twoCameras s -> is_Some (lv !! s)).
Proof.
  intros events.
  apply (AudioLevelSSE_levels_sent twoCameras secondsClock neverFails
           "10.0.0.5" true events emptyWorld).
  repeat constructor; cbn; lia.
Defined.

(** * The capture devices *)

(** ** [hexToASCII] *)

Lemma string_pair_ind (P : string -> Prop) :
  P EmptyString ->
  (forall p, P (String p EmptyString)) ->
  (forall p q rest, P rest -> P (String p (String q rest))) ->
  forall s, P s.
Proof.
  intros H0 H1 H2.
  assert (H : forall s, P s /\ forall p, P (String p s)).
  { induction s as [|a s [IH1 IH2]]; [split; auto|].
    split; [apply IH2|]. intros p. apply H2, IH1. }
  intros s. apply H.
Qed.

Lemma hex_DecodeString_pair p q rest :
  hex_DecodeString (String p (String q rest)) =
  match fromHexChar p, fromHexChar q with
  | None, _ => (EmptyString, Some (InvalidByteError p))
  | Some _, None => (EmptyString, Some (InvalidByteError q))
  | Some a, Some b =>
      (String (ascii_of_N (a * 16 + b)) (fst (hex_DecodeString rest)),
       snd (hex_DecodeString rest))
  end.
Proof.
  cbn [hex_DecodeString]. destruct (fromHexChar p), (fromHexChar q); try reflexivity.
  destruct (hex_DecodeString rest); reflexivity.
Qed.

Lemma hexToASCII_decode hexStr :
  hexToASCII hexStr =
  match snd (hex_DecodeString hexStr) with
  | Some e => (EmptyString, Some e)
  | None => (fst (hex_DecodeString hexStr), None)
  end.
Proof. unfold hexToASCII. destruct (hex_DecodeString hexStr) as [b [e|]]; reflexivity. Qed.

Lemma hex_DecodeString_ok hexStr :
  (snd (hex_DecodeString hexStr) = None <->
   Nat.Even (String.length hexStr) /\
   Forall (fun c => is_Some (fromHexChar c)) (list_ascii_of_string hexStr)) /\
  (snd (hex_DecodeString hexStr) = None ->
   String.length hexStr = (2 * String.length (fst (hex_DecodeString hexStr)))%nat).
Proof.
  induction hexStr as [|p|p q rest [IH1 IH2]] using string_pair_ind.
  - split; [|reflexivity]. split; [|reflexivity]. intros _. split; [exists 0%nat; reflexivity|].
    constructor.
  - cbn [hex_DecodeString]. split.
    + split.
      * destruct (fromHexChar p); discriminate.
      * intros [[k Hk] _]. cbn in Hk. lia.
    + destruct (fromHexChar p); discriminate.
  - rewrite hex_DecodeString_pair.
    cbn [String.length list_ascii_of_string]. rewrite !Forall_cons.
    destruct (fromHexChar p) as [a|] eqn:Hp.
    2:{ split; [|discriminate]. split; [discriminate|].
        intros (_ & [x Hx] & _). discriminate. }
    destruct (fromHexChar q) as [b|] eqn:Hq.
    2:{ split; [|discriminate]. split; [discriminate|].
        intros (_ & _ & [x Hx] & _). discriminate. }
    cbn [fst snd String.length]. split.
    + rewrite IH1. split.
      * intros [[k Hk] Hall]. split; [exists (S k); lia|]. now repeat split; eauto.
      * intros [[k Hk] (_ & _ & Hall)]. split; [|assumption].
        exists (k - 1)%nat. lia.
    + intros H. specialize (IH2 H). lia.
Qed.

(** X13.  [hexToASCII] succeeds exactly on the strings of even length made of
    hexadecimal digits, of either case.  The text it returns then has half
    the length of the input; when it fails it returns the empty text. *)
Theorem hexToASCII_ok (hexStr : string) :
  ((exists out, hexToASCII hexStr = (out, None)) <->
   Nat.Even (String.length hexStr) /\
   Forall (fun c => is_Some (fromHexChar c)) (list_ascii_of_string hexStr)) /\
  (forall out, hexToASCII hexStr = (out, None) ->
               String.length hexStr = (2 * String.length out)%nat) /\
  (forall out e, hexToASCII hexStr = (out, Some e) -> out = EmptyString).
Proof.
  rewrite hexToASCII_decode.
  destruct (hex_DecodeString_ok hexStr) as [H1 H2].
  destruct (snd (hex_DecodeString hexStr)) as [e|] eqn:E.
  - split; [|split].
    + rewrite <- H1. split; [intros [out H]|]; discriminate.
    + intros out H. discriminate.
    + intros out e' [= <- _]. reflexivity.
  - split; [|split].
    + rewrite <- H1. split; [reflexivity | eauto].
    + intros out [= <-]. now apply H2.
    + intros out e H. discriminate.
Qed.

Lemma hex_byte_round_trip (v : ascii) :
  fromHexChar (hexDigit (N_of_ascii v / 16)) = Some (N_of_ascii v / 16)%N /\
  fromHexChar (hexDigit (N_of_ascii v mod 16)) = Some (N_of_ascii v mod 16)%N /\
  ascii_of_N (N_of_ascii v / 16 * 16 + N_of_ascii v mod 16) = v.
Proof. destruct v as [[] [] [] [] [] [] [] []]; vm_compute; repeat split. Qed.

(** X14.  Decoding undoes encoding: [hexToASCII] gives back every text from
    its hexadecimal form. *)
Theorem hexToASCII_round_trip (bytes : string) :
  hexToASCII (hex_EncodeToString bytes) = (bytes, None).
Proof.
  rewrite hexToASCII_decode.
  assert (H : hex_DecodeString (hex_EncodeToString bytes) = (bytes, None)).
  { induction bytes as [|v rest IH]; [reflexivity|].
    cbn [hex_EncodeToString]. rewrite hex_DecodeString_pair.
    destruct (hex_byte_round_trip v) as (-> & -> & ->). rewrite IH. reflexivity. }
  rewrite H. reflexivity.
Qed.

(** ** [ListAudioSources] *)

Lemma listDevices_spec infos : forall i0,
  (forall i name id,
     {| adi_Index := i; adi_Name := name; adi_ID := id |} ∈ fst (listDevices i0 infos) <->
     exists k info,
       i = (i0 + k)%nat /\ infos !! k = Some info /\ name = dev_Name info /\
       hexToASCII (dev_ID info) = (id, None) /\
       strings_Contains name "Discard all samples" = false) /\
  Forall (fun d => (i0 <= adi_Index d)%nat) (fst (listDevices i0 infos)) /\
  (forall a b da db,
     (a < b)%nat -> fst (listDevices i0 infos) !! a = Some da ->
     fst (listDevices i0 infos) !! b = Some db ->
     (adi_Index da < adi_Index db)%nat).
Proof.
  induction infos as [|info rest IH]; intros i0.
  - cbn. split; [|split; [constructor | intros a b da db _ Ha; discriminate]].
    intros i name id. split; [intros H; apply elem_of_nil in H; contradiction|].
    intros (k & d & _ & Hk & _). discriminate.
  - destruct (IH (S i0)) as (IHin & IHle & IHsorted). cbn [listDevices].
    destruct (listDevices (S i0) rest) as [devices logs] eqn:E. cbn [fst] in *.
    assert (Hrest : forall i name id,
              (exists k d, i = (S i0 + k)%nat /\ rest !! k = Some d /\ name = dev_Name d /\
                 hexToASCII (dev_ID d) = (id, None) /\
                 strings_Contains name "Discard all samples" = false) <->
              (exists k d, i = (i0 + k)%nat /\ (info :: rest) !! k = Some d /\
                 name = dev_Name d /\ hexToASCII (dev_ID d) = (id, None) /\
                 strings_Contains name "Discard all samples" = false /\ k <> 0%nat)).
    { intros i name id. split.
      - intros (k & d & -> & Hk & Hrest). exists (S k), d.
        split; [lia|]. split; [exact Hk|]. destruct Hrest as (? & ? & ?).
        now repeat split.
      - intros (k & d & -> & Hk & Hn & Hh & Hc & Hk0). destruct k as [|k]; [lia|].
        exists k, d. split; [lia|]. now repeat split. }
    assert (Hle : Forall (fun d => (i0 <= adi_Index d)%nat) devices).
    { eapply Forall_impl; [exact IHle|]. cbn. intros; lia. }
    destruct (strings_Contains (dev_Name info) "Discard all samples") eqn:Hdisc;
      [|destruct (hexToASCII (dev_ID info)) as [decodedID [err|]] eqn:Hhex];
      cbn [fst].
    + split; [|split; assumption]. intros i name id. rewrite IHin, Hrest.
      split; [intros (k & d & H1 & H2 & H3 & H4 & H5 & _); eauto 10|].
      intros (k & d & -> & Hk & -> & Hh & Hc). exists k, d.
      repeat split; try assumption. intros ->. cbn in Hk. injection Hk as <-.
      congruence.
    + split; [|split; assumption]. intros i name id. rewrite IHin, Hrest.
      split; [intros (k & d & H1 & H2 & H3 & H4 & H5 & _); eauto 10|].
      intros (k & d & -> & Hk & -> & Hh & Hc). exists k, d.
      repeat split; try assumption. intros ->. cbn in Hk. injection Hk as <-.
      congruence.
    + split; [|split].
      * intros i name id. rewrite elem_of_cons, IHin, Hrest. split.
        { intros [[= -> -> ->]|(k & d & H1 & H2 & H3 & H4 & H5 & _)]; [|eauto 10].
          exists 0%nat, info. rewrite Nat.add_0_r. now repeat split. }
        { intros (k & d & -> & Hk & -> & Hh & Hc). destruct k as [|k].
          - left. cbn in Hk. injection Hk as <-. rewrite Nat.add_0_r.
            rewrite Hhex in Hh. now injection Hh as <-.
          - right. exists (S k), d. now repeat split. }
      * constructor; [cbn; lia | assumption].
      * intros a b da db Hab Ha Hb. destruct b as [|b]; [lia|].
        cbn in Hb. destruct a as [|a].
        { cbn in Ha. injection Ha as <-. cbn [adi_Index].
          rewrite Forall_forall in IHle.
          assert (Hdb : db ∈ devices) by (eapply list_elem_of_lookup_2; exact Hb).
          specialize (IHle db Hdb). lia. }
        cbn in Ha. apply (IHsorted a b da db); [lia | assumption | assumption].
Qed.

(** X15.  [ListAudioSources] lists the capture devices whose name does not
    contain ["Discard all samples"] and whose ID decodes, with the decoded
    ID.  The index of an entry is the position of the device in the list
    of the library, not in the result, so the indices increase along the
    result and may have gaps. *)
Theorem ListAudioSources_devices (malgo : Malgo) ctx infos :
  malgo [] = inr ctx ->
  ctx_Devices ctx = inr infos ->
  let devices := fst (fst (ListAudioSources malgo)) in
  snd (fst (ListAudioSources malgo)) = None /\
  (forall i name id,
     {| adi_Index := i; adi_Name := name; adi_ID := id |} ∈ devices <->
     exists info,
       infos !! i = Some info /\ name = dev_Name info /\
       hexToASCII (dev_ID info) = (id, None) /\
       strings_Contains name "Discard all samples" = false) /\
  (forall a b da db,
     (a < b)%nat -> devices !! a = Some da -> devices !! b = Some db ->
     (adi_Index da < adi_Index db)%nat).
Proof.
  intros Hctx Hdev devices. subst devices. unfold ListAudioSources.
  rewrite Hctx, Hdev.
  destruct (listDevices_spec infos 0) as (Hin & _ & Hsorted).
  destruct (listDevices 0 infos) as [devices logs]. cbn [fst snd] in *.
  split; [reflexivity|]. split; [|assumption].
  intros i name id. rewrite Hin. split.
  - intros (k & info & -> & H). exists info. exact H.
  - intros (info & H). exists i, info. split; [reflexivity | exact H].
Qed.

Lemma ListAudioSources_devices_witness :
  let malgo := sampleMalgo [nullDevice; brokenDevice; cardDevice] in
  let devices := fst (fst (ListAudioSources malgo)) in
  snd (fst (ListAudioSources malgo)) = None /\
  (forall i name id,
     {| adi_Index := i; adi_Name := name; adi_ID := id |} ∈ devices <->
     exists info,
       [nullDevice; brokenDevice; cardDevice] !! i = Some info /\
       name = dev_Name info /\
       hexToASCII (dev_ID info) = (id, None) /\
       strings_Contains name "Discard all samples" = false) /\
  (forall a b da db,
     (a < b)%nat -> devices !! a = Some da -> devices !! b = Some db ->
     (adi_Index da < adi_Index db)%nat).
Proof.
  intros malgo.
  apply (ListAudioSources_devices malgo
           (sampleContext [nullDevice; brokenDevice; cardDevice])
           [nullDevice; brokenDevice; cardDevice]); reflexivity.
Defined.

(** ** [SetAudioDevice] *)

Lemma findDeviceIndex_no_match GOOS deviceName index0 infos : forall i,
  (forall info decodedID,
     info ∈ infos -> hexToASCII (dev_ID info) = (decodedID, None) ->
     matchesDeviceSettings GOOS decodedID info deviceName = false) ->
  fst (findDeviceIndex GOOS deviceName index0 i infos) = index0.
Proof.
  induction infos as [|info rest IH]; intros i H; [reflexivity|].
  cbn [findDeviceIndex].
  assert (Hrest : fst (findDeviceIndex GOOS deviceName index0 (S i) rest) = index0).
  { apply IH. intros d id Hd. apply H. now right. }
  destruct (hexToASCII (dev_ID info)) as [decodedID [err|]] eqn:Hhex.
  - destruct (findDeviceIndex _ _ _ _ rest). exact Hrest.
  - rewrite (H info decodedID) by (first [left | assumption]). exact Hrest.
Qed.

Lemma findDeviceIndex_first_match GOOS deviceName index0 infos : forall i k info decodedID,
  infos !! k = Some info ->
  hexToASCII (dev_ID info) = (decodedID, None) ->
  matchesDeviceSettings GOOS decodedID info deviceName = true ->
  (forall j info' id',
     (j < k)%nat -> infos !! j = Some info' ->
     hexToASCII (dev_ID info') = (id', None) ->
     matchesDeviceSettings GOOS id' info' deviceName = false) ->
  fst (findDeviceIndex GOOS deviceName index0 i infos) = (i + k)%nat.
Proof.
  induction infos as [|d rest IH]; intros i k info decodedID Hk Hhex Hm Hfirst;
    [discriminate|].
  cbn [findDeviceIndex]. destruct k as [|k].
  - cbn in Hk. injection Hk as ->. rewrite Hhex, Hm. cbn. lia.
  - assert (Hrest : fst (findDeviceIndex GOOS deviceName index0 (S i) rest) =
                    (S i + k)%nat).
    { apply (IH (S i) k info decodedID Hk Hhex Hm).
      intros j d' id' Hj Hd'. apply (Hfirst (S j)); [lia | exact Hd']. }
    replace (i + S k)%nat with (S i + k)%nat by lia.
    destruct (hexToASCII (dev_ID d)) as [id [err|]] eqn:Hd.
    + destruct (findDeviceIndex _ _ _ _ rest). exact Hrest.
    + rewrite (Hfirst 0%nat d id) by (first [lia | reflexivity | assumption]).
      exact Hrest.
Qed.

(** X16.  When no device matches the name, [SetAudioDevice] takes the first
    device of the list: [index] is still 0 after the search, and the check
    that follows refuses it only when the list is empty.  The error
    "invalid device index" is the answer for an empty list, not for a name
    that was not found. *)
Theorem SetAudioDevice_no_match GOOS (malgo : Malgo) deviceName ctx infos :
  malgo [] = inr ctx ->
  ctx_Devices ctx = inr infos ->
  (forall info decodedID,
     info ∈ infos -> hexToASCII (dev_ID info) = (decodedID, None) ->
     matchesDeviceSettings GOOS decodedID info deviceName = false) ->
  fst (SetAudioDevice GOOS malgo deviceName) =
  match infos with
  | [] => (EmptyString, Some ErrInvalidDeviceIndex)
  | first :: _ =>
      match ctx_InitDevice ctx first with
      | Some err => (EmptyString, Some (ErrInitializeDevice err))
      | None => (dev_Name first, None)
      end
  end.
Proof.
  intros Hctx Hdev Hno. unfold SetAudioDevice. rewrite Hctx, Hdev.
  pose proof (findDeviceIndex_no_match GOOS deviceName 0 infos 0 Hno) as Hidx.
  destruct (findDeviceIndex GOOS deviceName 0 0 infos) as [index logs].
  cbn [fst] in Hidx. subst index.
  destruct infos as [|first rest]; [reflexivity|]. cbn [lookup list_lookup].
  destruct (ctx_InitDevice ctx first); reflexivity.
Qed.

Lemma SetAudioDevice_no_match_witness :
  fst (SetAudioDevice "linux" (sampleMalgo [cardDevice; nullDevice]) "hw:5,0") =
  (dev_Name cardDevice, None).
Proof.
  apply (SetAudioDevice_no_match "linux" (sampleMalgo [cardDevice; nullDevice])
           "hw:5,0" (sampleContext [cardDevice; nullDevice])
           [cardDevice; nullDevice]).
  - reflexivity.
  - reflexivity.
  - intros info decodedID Hin.
    apply elem_of_cons in Hin as [->|Hin];
      [|apply elem_of_cons in Hin as [->|Hin];
        [|apply elem_of_nil in Hin; contradiction]];
      vm_compute; intros [= <-]; reflexivity.
Defined.

(** X17.  [SetAudioDevice] takes the first device that matches the name, among
    the devices whose ID decodes, and returns its name if the library can
    initialise it. *)
Theorem SetAudioDevice_first_match
    GOOS (malgo : Malgo) deviceName ctx infos k info decodedID :
  malgo [] = inr ctx ->
  ctx_Devices ctx = inr infos ->
  infos !! k = Some info ->
  hexToASCII (dev_ID info) = (decodedID, None) ->
  matchesDeviceSettings GOOS decodedID info deviceName = true ->
  (forall j info' id',
     (j < k)%nat -> infos !! j = Some info' ->
     hexToASCII (dev_ID info') = (id', None) ->
     matchesDeviceSettings GOOS id' info' deviceName = false) ->
  fst (SetAudioDevice GOOS malgo deviceName) =
  match ctx_InitDevice ctx info with
  | Some err => (EmptyString, Some (ErrInitializeDevice err))
  | None => (dev_Name info, None)
  end.
Proof.
  intros Hctx Hdev Hk Hhex Hm Hfirst. unfold SetAudioDevice. rewrite Hctx, Hdev.
  pose proof (findDeviceIndex_first_match GOOS deviceName 0 infos 0 k info decodedID
                Hk Hhex Hm Hfirst) as Hidx.
  destruct (findDeviceIndex GOOS deviceName 0 0 infos) as [index logs].
  cbn [fst Nat.add] in Hidx. subst index. rewrite Hk.
  destruct (ctx_InitDevice ctx info); reflexivity.
Qed.

Lemma SetAudioDevice_first_match_witness :
  fst (SetAudioDevice "linux" (sampleMalgo [brokenDevice; nullDevice; cardDevice])
         ":0,0") =
  (dev_Name cardDevice, None).
Proof.
  apply (SetAudioDevice_first_match "linux"
           (sampleMalgo [brokenDevice; nullDevice; cardDevice]) ":0,0"
           (sampleContext [brokenDevice; nullDevice; cardDevice])
           [brokenDevice; nullDevice; cardDevice] 2 cardDevice ":0,0").
  - reflexivity.
  - reflexivity.
  - reflexivity.
  - vm_compute. reflexivity.
  - vm_compute. reflexivity.
  - intros j info' id' Hj. destruct j as [|[|j]]; [| |lia];
      intros [= <-]; vm_compute; intros [= <-]; reflexivity.
Defined.

(** ** [ValidateAudioDevice] and [selectCaptureSource] *)

(** X18.  What [ValidateAudioDevice] does to the settings.  It changes nothing
    but the audio source.  When it returns no error the settings are as
    before.  When the configured device is not found the source is kept
    (it was not empty) and the error names it.  In every other case of an
    error the source is cleared; the error for a device that failed its
    test is made after that and names the empty source. *)
Theorem ValidateAudioDevice_settings GOOS (malgo : Malgo) settings settings' err :
  ValidateAudioDevice GOOS malgo settings = (settings', err) ->
  RTSP_URLs settings' = RTSP_URLs settings /\
  RTSP_Transport settings' = RTSP_Transport settings /\
  match err with
  | None => settings' = settings
  | Some (ErrDeviceNotFound source) =>
      settings' = settings /\ source = Audio_Source settings /\ source <> EmptyString
  | Some (ErrHardwareTestFailed source) =>
      source = EmptyString /\ Audio_Source settings' = EmptyString
  | Some _ => Audio_Source settings' = EmptyString
  end.
Proof.
  unfold ValidateAudioDevice.
  destruct (String.eqb_spec (Audio_Source settings) "") as [Hempty|Hset].
  { intros [= <- <-]. now repeat split. }
  destruct (malgo [backendOf GOOS]) as [e|ctx]; [intros [= <- <-]; now repeat split|].
  destruct (ctx_Devices ctx) as [e|infos]; [intros [= <- <-]; now repeat split|].
  destruct (length (getHardwareDevices GOOS infos) =? 0)%nat;
    [intros [= <- <-]; now repeat split|].
  destruct (validateLoop GOOS ctx (Audio_Source settings) infos) as [[|]|];
    intros [= <- <-]; now repeat split.
Qed.

Lemma ValidateAudioDevice_settings_witness :
  let settings := {| Audio_Source := "USB"; RTSP_URLs := []; RTSP_Transport := "tcp" |} in
  let settings' := setAudioSource "" settings in
  RTSP_URLs settings' = RTSP_URLs settings /\
  RTSP_Transport settings' = RTSP_Transport settings /\
  (EmptyString = EmptyString /\ Audio_Source settings' = EmptyString).
Proof.
  intros settings settings'.
  apply (ValidateAudioDevice_settings "linux"
           (fun _ => inr {| ctx_Devices := inr [cardDevice];
                            ctx_InitDevice := fun _ => Some "busy"%string;
                            ctx_Start := fun _ => None; ctx_Uninit := None |})
           settings settings' (Some (ErrHardwareTestFailed ""))).
  vm_compute. reflexivity.
Defined.

Lemma selectLoop_found GOOS ctx audioSource infos : forall i source out,
  selectLoop GOOS ctx audioSource i infos = (Some source, out) ->
  exists k info,
    infos !! k = Some info /\
    source = {| cs_Name := dev_Name info; cs_ID := cs_ID source;
                cs_Pointer := dev_Pointer info |} /\
    hexToASCII (dev_ID info) = (cs_ID source, None) /\
    matchesDeviceSettings GOOS (cs_ID source) info audioSource = true /\
    TestCaptureDevice ctx info = true /\
    forall j info' id',
      (j < k)%nat -> infos !! j = Some info' ->
      hexToASCII (dev_ID info') = (id', None) ->
      matchesDeviceSettings GOOS id' info' audioSource = true ->
      TestCaptureDevice ctx info' = false.
Proof.
  induction infos as [|d rest IH]; intros i source out H; [discriminate|].
  cbn [selectLoop] in H.
  assert (Hskip : forall found out',
            selectLoop GOOS ctx audioSource (S i) rest = (found, out') ->
            found = Some source ->
            (forall id', hexToASCII (dev_ID d) = (id', None) ->
                         matchesDeviceSettings GOOS id' d audioSource = true ->
                         TestCaptureDevice ctx d = false) ->
            exists k info,
              (d :: rest) !! k = Some info /\
              source = {| cs_Name := dev_Name info; cs_ID := cs_ID source;
                          cs_Pointer := dev_Pointer info |} /\
              hexToASCII (dev_ID info) = (cs_ID source, None) /\
              matchesDeviceSettings GOOS (cs_ID source) info audioSource = true /\
              TestCaptureDevice ctx info = true /\
              forall j info' id',
                (j < k)%nat -> (d :: rest) !! j = Some info' ->
                hexToASCII (dev_ID info') = (id', None) ->
                matchesDeviceSettings GOOS id' info' audioSource = true ->
                TestCaptureDevice ctx info' = false).
  { intros found out' E -> Hd.
    destruct (IH (S i) source out' E) as (k & info & Hk & Hs & Hh & Hm & Ht & Hfirst).
    exists (S k), info. repeat split; try assumption.
    intros [|j] info' id' Hj Hj' Hh' Hm'.
    - cbn in Hj'. injection Hj' as <-. now apply (Hd id').
    - apply (Hfirst j info' id'); [lia | assumption..]. }
  destruct (hexToASCII (dev_ID d)) as [decodedID [err|]] eqn:Hhex.
  - destruct (selectLoop GOOS ctx audioSource (S i) rest) as [found out'] eqn:E.
    injection H as -> _. apply (Hskip _ _ eq_refl eq_refl). intros id'; discriminate.
  - destruct (matchesDeviceSettings GOOS decodedID d audioSource) eqn:Hm.
    + destruct (TestCaptureDevice ctx d) eqn:Ht.
      * injection H as <- _. exists 0%nat, d. cbn [cs_ID].
        repeat split; try assumption; try reflexivity. intros j ? ? Hj. lia.
      * destruct (selectLoop GOOS ctx audioSource (S i) rest) as [found out'] eqn:E.
        injection H as -> _. apply (Hskip _ _ eq_refl eq_refl).
        intros; first [assumption | reflexivity].
    + destruct (selectLoop GOOS ctx audioSource (S i) rest) as [found out'] eqn:E.
      injection H as -> _. apply (Hskip _ _ eq_refl eq_refl).
      intros id' [= <-]. congruence.
Qed.

Lemma selectLoop_none GOOS ctx audioSource infos : forall i out,
  selectLoop GOOS ctx audioSource i infos = (None, out) ->
  forall info id,
    info ∈ infos -> hexToASCII (dev_ID info) = (id, None) ->
    matchesDeviceSettings GOOS id info audioSource = true ->
    TestCaptureDevice ctx info = false.
Proof.
  induction infos as [|d rest IH]; intros i out H info id Hin Hh Hm.
  { apply elem_of_nil in Hin. contradiction. }
  cbn [selectLoop] in H.
  destruct (hexToASCII (dev_ID d)) as [decodedID [err|]] eqn:Hhex.
  - destruct (selectLoop GOOS ctx audioSource (S i) rest) as [found out'] eqn:E.
    injection H as -> _. apply elem_of_cons in Hin as [->|Hin]; [congruence|].
    now apply (IH _ _ E info id).
  - destruct (matchesDeviceSettings GOOS decodedID d audioSource) eqn:Hmd.
    + destruct (TestCaptureDevice ctx d) eqn:Ht; [discriminate|].
      destruct (selectLoop GOOS ctx audioSource (S i) rest) as [found out'] eqn:E.
      injection H as -> _. apply elem_of_cons in Hin as [->|Hin]; [assumption|].
      now apply (IH _ _ E info id).
    + destruct (selectLoop GOOS ctx audioSource (S i) rest) as [found out'] eqn:E.
      injection H as -> _. apply elem_of_cons in Hin as [->|Hin].
      * rewrite Hhex in Hh. injection Hh as <-. congruence.
      * now apply (IH _ _ E info id).
Qed.

(** X19.  [selectCaptureSource] returns the first device that matches the
    configured source and passes the test, among the devices whose ID
    decodes, with the decoded ID; a matching device that fails the test is
    passed over.  It fails for lack of a working device exactly when no
    device does all three. *)
Theorem selectCaptureSource_selects GOOS (malgo : Malgo) settings ctx infos :
  malgo [backendOf GOOS] = inr ctx ->
  ctx_Devices ctx = inr infos ->
  match fst (selectCaptureSource GOOS malgo settings) with
  | (source, None) =>
      exists k info,
        infos !! k = Some info /\
        source = {| cs_Name := dev_Name info; cs_ID := cs_ID source;
                    cs_Pointer := dev_Pointer info |} /\
        hexToASCII (dev_ID info) = (cs_ID source, None) /\
        matchesDeviceSettings GOOS (cs_ID source) info (Audio_Source settings) = true /\
        TestCaptureDevice ctx info = true /\
        forall j info' id',
          (j < k)%nat -> infos !! j = Some info' ->
          hexToASCII (dev_ID info') = (id', None) ->
          matchesDeviceSettings GOOS id' info' (Audio_Source settings) = true ->
          TestCaptureDevice ctx info' = false
  | (source, Some err) =>
      source = noCaptureSource /\
      err = ErrNoWorkingDevice (Audio_Source settings) /\
      forall info id,
        info ∈ infos -> hexToASCII (dev_ID info) = (id, None) ->
        matchesDeviceSettings GOOS id info (Audio_Source settings) = true ->
        TestCaptureDevice ctx info = false
  end.
Proof.
  intros Hctx Hdev. unfold selectCaptureSource. rewrite Hctx, Hdev.
  destruct (selectLoop GOOS ctx (Audio_Source settings) 0 infos)
    as [[source|] out] eqn:E; cbn [fst].
  - exact (selectLoop_found _ _ _ _ _ _ _ E).
  - split; [reflexivity|]. split; [reflexivity|].
    exact (selectLoop_none _ _ _ _ _ _ E).
Qed.

Lemma selectCaptureSource_selects_witness :
  let GOOS := "linux"%string in
  let settings := {| Audio_Source := "USB"; RTSP_URLs := []; RTSP_Transport := "tcp" |} in
  let infos := [brokenDevice; nullDevice; cardDevice] in
  let ctx := sampleContext infos in
  let source := {| cs_Name := "USB Audio"; cs_ID := ":0,0"; cs_Pointer := 4096 |} in
  exists k info,
    infos !! k = Some info /\
    source = {| cs_Name := dev_Name info; cs_ID := cs_ID source;
                cs_Pointer := dev_Pointer info |} /\
    hexToASCII (dev_ID info) = (cs_ID source, None) /\
    matchesDeviceSettings GOOS (cs_ID source) info (Audio_Source settings) = true /\
    TestCaptureDevice ctx info = true /\
    forall j info' id',
      (j < k)%nat -> infos !! j = Some info' ->
      hexToASCII (dev_ID info') = (id', None) ->
      matchesDeviceSettings GOOS id' info' (Audio_Source settings) = true ->
      TestCaptureDevice ctx info' = false.
Proof.
  intros GOOS settings infos ctx source.
  apply (selectCaptureSource_selects GOOS (sampleMalgo infos) settings ctx infos);
    reflexivity.
Defined.

Lemma validateLoop_select GOOS ctx audioSource infos : forall i,
  validateLoop GOOS ctx audioSource infos = Some true ->
  exists source out,
    selectLoop GOOS ctx audioSource i infos = (Some source, out).
Proof.
  induction infos as [|d rest IH]; intros i H; [discriminate|].
  cbn [validateLoop] in H. cbn [selectLoop].
  destruct (hexToASCII (dev_ID d)) as [decodedID [err|]] eqn:Hhex.
  - destruct (IH (S i) H) as (source & out & ->). eauto.
  - destruct (matchesDeviceSettings GOOS decodedID d audioSource) eqn:Hm.
    + injection H as ->. eauto.
    + destruct (IH (S i) H) as (source & out & ->). eauto.
Qed.

(** X20.  A device that [ValidateAudioDevice] accepts is one that
    [selectCaptureSource] can select: when the validation of a configured
    source returns no error, the selection, asked of the same library,
    returns a source and no error. *)
Theorem ValidateAudioDevice_then_select GOOS (malgo : Malgo) settings settings' :
  Audio_Source settings <> EmptyString ->
  ValidateAudioDevice GOOS malgo settings = (settings', None) ->
  exists source out,
    selectCaptureSource GOOS malgo settings' = (source, None, out).
Proof.
  intros Hset. unfold ValidateAudioDevice, selectCaptureSource.
  destruct (String.eqb_spec (Audio_Source settings) "") as [?|_]; [contradiction|].
  destruct (malgo [backendOf GOOS]) as [e|ctx]; [discriminate|].
  destruct (ctx_Devices ctx) as [e|infos]; [discriminate|].
  destruct (length (getHardwareDevices GOOS infos) =? 0)%nat; [discriminate|].
  destruct (validateLoop GOOS ctx (Audio_Source settings) infos) as [[|]|] eqn:E;
    [|discriminate..].
  intros [= <-].
  destruct (validateLoop_select GOOS ctx (Audio_Source settings) infos 0 E)
    as (source & out & Hsel).
  rewrite Hsel. eauto.
Qed.

Lemma ValidateAudioDevice_then_select_witness :
  let settings := {| Audio_Source := "USB"; RTSP_URLs := []; RTSP_Transport := "tcp" |} in
  exists source out,
    selectCaptureSource "linux" (sampleMalgo [brokenDevice; nullDevice; cardDevice])
      settings = (source, None, out).
Proof.
  intros settings.
  apply (ValidateAudioDevice_then_select "linux"
           (sampleMalgo [brokenDevice; nullDevice; cardDevice]) settings settings).
  - discriminate.
  - vm_compute. reflexivity.
Defined.

(** * More about [ReconfigureRTSPStreams] *)

(** ** A stream that leaves the settings *)

Lemma stopStream_removed settings url s :
  foundIn url (RTSP_URLs settings) = false ->
  streamView url (execProg (stopStream settings url) s) = (false, None, None) /\
  (url ∉ ffmpegProcesses (execProg (stopStream settings url) s)) /\
  EvDeactivate url ∈ traceProg (stopStream settings url) s.
Proof.
  intros Hnf. stop_cases settings url s; [discriminate| | | | | | | |];
    (split; [unfold streamView; cbn [activeStreams analysisBuffers
               captureBuffers]; rewrite !lookup_delete_eq;
             rewrite bool_decide_eq_false_2 by set_solver; reflexivity|]);
    (split; [cbn [ffmpegProcesses];
             first [ set_solver
                   | now apply bool_decide_eq_false_1 in Hproc ]
            | in_list]).
Qed.

Lemma stopStream_processes settings url s v :
  v ∈ ffmpegProcesses (execProg (stopStream settings url) s) -> v ∈ ffmpegProcesses s.
Proof. stop_cases settings url s; cbn [ffmpegProcesses]; set_solver. Qed.

Lemma stopStream_processes_other settings url s v :
  v <> url ->
  (v ∈ ffmpegProcesses (execProg (stopStream settings url) s) <-> v ∈ ffmpegProcesses s).
Proof. intros Hne. stop_cases settings url s; cbn [ffmpegProcesses]; set_solver. Qed.

Lemma stopStream_eventUrl settings url s e v :
  e ∈ traceProg (stopStream settings url) s -> eventUrl e = Some v -> v = url.
Proof.
  intros He. stop_cases settings url s; elem_cases He; subst e; cbn [eventUrl];
    congruence.
Qed.

Lemma stopLoop_removed settings l (u : string) :
  foundIn u (RTSP_URLs settings) = false ->
  forall s,
    (u ∈ l \/ (streamView u s = (false, None, None) /\ u ∉ ffmpegProcesses s)) ->
    streamView u (execProg (forEach l (stopStream settings)) s) = (false, None, None) /\
    (u ∉ ffmpegProcesses (execProg (forEach l (stopStream settings)) s)).
Proof.
  intros Hnf. induction l as [|x l IH]; intros s H.
  - destruct H as [H|H]; [apply elem_of_nil in H; contradiction | exact H].
  - rewrite (proj2 (forEach_cons x l _ s)). apply IH.
    destruct (decide (u = x)) as [->|Hne].
    + right. destruct (stopStream_removed settings x s Hnf) as (Hv & Hp & _).
      now split.
    + destruct H as [H|[Hv Hp]].
      * left. apply elem_of_cons in H as [?|?]; [contradiction | assumption].
      * right. split.
        { now rewrite stopStream_frame. }
        { intros Hin. apply Hp. now apply stopStream_processes in Hin. }
Qed.

Lemma stopLoop_deactivates settings l (u : string) :
  foundIn u (RTSP_URLs settings) = false -> u ∈ l ->
  forall s, EvDeactivate u ∈ traceProg (forEach l (stopStream settings)) s.
Proof.
  intros Hnf. induction l as [|x l IH]; intros Hu s.
  - apply elem_of_nil in Hu. contradiction.
  - rewrite (proj1 (forEach_cons x l _ s)), elem_of_app.
    apply elem_of_cons in Hu as [->|Hu].
    + left. now apply stopStream_removed.
    + right. now apply IH.
Qed.

(** X22.  A stream that is active and is no longer in the settings is stopped
    by the call, when the settings still name some URL: afterwards it is
    not active, it has neither buffer and no decoder process, and the
    call has taken it out of the active streams.  This holds in whatever
    order the call visits the active streams, as long as it visits all of
    them. *)
Theorem Reconfigure_removes_stream stop conf exhausted visit settings s (u : string) :
  RTSP_URLs settings <> [] ->
  (forall (X : gset string) v, v ∈ X -> v ∈ visit X) ->
  u ∈ activeStreams s ->
  u ∉ RTSP_URLs settings ->
  let s' := execProg (ReconfigureRTSPStreams stop conf exhausted visit settings) s in
  (u ∉ activeStreams s') /\
  analysisBuffers s' !! u = None /\ captureBuffers s' !! u = None /\
  (u ∉ ffmpegProcesses s') /\
  EvDeactivate u ∈ traceProg (ReconfigureRTSPStreams stop conf exhausted visit settings) s.
Proof.
  intros Hne Hvisit Hact Hgone s'. subst s'.
  destruct (Reconfigure_nonempty stop conf exhausted visit settings s Hne) as [-> ->].
  assert (Hnf : foundIn u (RTSP_URLs settings) = false).
  { apply not_true_is_false. now rewrite foundIn_elem_of. }
  assert (Hin : u ∈ visit (activeStreams (monitorEnsured s))).
  { apply Hvisit. unfold monitorEnsured. destruct (ffmpegMonitor s); exact Hact. }
  assert (Hvis : visit (activeStreams s) = visit (activeStreams (monitorEnsured s))).
  { unfold monitorEnsured. destruct (ffmpegMonitor s); reflexivity. }
  destruct (stopLoop_removed settings (visit (activeStreams s)) u Hnf
              (monitorEnsured s)) as [Hview Hproc].
  { left. now rewrite Hvis. }
  fold (stoppedState visit settings s) in Hview, Hproc.
  pose proof (startLoop_frame conf settings exhausted (RTSP_URLs settings) 0
                (stoppedState visit settings s) u Hgone) as Hframe.
  rewrite Hview in Hframe. unfold streamView in Hframe.
  injection Hframe as Hb HA HC. apply bool_decide_eq_false_1 in Hb.
  split; [|split; [|split; [|split]]]; [assumption..| |].
  - rewrite (proj2 (startLoop_other_state conf settings exhausted _ _ _)).
    exact Hproc.
  - rewrite !elem_of_app. right. left. rewrite Hvis.
    now apply stopLoop_deactivates.
Qed.

Lemma Reconfigure_removes_stream_witness :
  let s' := execProg (ReconfigureRTSPStreams monitorOnly sampleConf neverExhausted elements
                        twoCameras) oneStream in
  ("rtsp://old/live"%string ∉ activeStreams s') /\
  analysisBuffers s' !! "rtsp://old/live"%string = None /\
  captureBuffers s' !! "rtsp://old/live"%string = None /\
  ("rtsp://old/live"%string ∉ ffmpegProcesses s') /\
  EvDeactivate "rtsp://old/live" ∈
    traceProg (ReconfigureRTSPStreams monitorOnly sampleConf neverExhausted elements twoCameras)
      oneStream.
Proof.
  apply (Reconfigure_removes_stream monitorOnly sampleConf neverExhausted elements twoCameras
           oneStream "rtsp://old/live").
  - discriminate.
  - intros X v. apply elem_of_elements.
  - cbn. set_solver.
  - intros H. cbn in H. elem_cases H; discriminate.
Defined.

(** ** A stream that stays in the settings *)

Lemma stopLoop_eventUrl settings l : forall s e v,
  e ∈ traceProg (forEach l (stopStream settings)) s ->
  eventUrl e = Some v -> foundIn v (RTSP_URLs settings) = false.
Proof.
  induction l as [|x l IH]; intros s e v He Hev.
  - apply elem_of_nil in He. contradiction.
  - rewrite (proj1 (forEach_cons x l _ s)) in He.
    apply elem_of_app in He as [He|He]; [|now apply (IH _ _ _ He)].
    assert (v = x) as -> by now apply (stopStream_eventUrl settings x s e).
    destruct (foundIn x (RTSP_URLs settings)) eqn:E; [|reflexivity].
    unfold traceProg in He. rewrite stopStream_found in He by assumption.
    apply elem_of_nil in He. contradiction.
Qed.

Lemma stopLoop_processes settings l (u : string) :
  foundIn u (RTSP_URLs settings) = true ->
  forall s,
    u ∈ ffmpegProcesses (execProg (forEach l (stopStream settings)) s) <->
    u ∈ ffmpegProcesses s.
Proof.
  intros Hf. induction l as [|x l IH]; intros s; [reflexivity|].
  rewrite (proj2 (forEach_cons x l _ s)), IH.
  destruct (decide (u = x)) as [->|Hne].
  - unfold execProg. now rewrite stopStream_found.
  - now apply stopStream_processes_other.
Qed.

Lemma startLoop_running conf exhausted settings l (u : string) : forall i s,
  u ∈ activeStreams s ->
  streamView u (execProg (forEachIndexed i l (startStream conf exhausted settings)) s) =
    streamView u s /\
  forall e, e ∈ traceProg (forEachIndexed i l (startStream conf exhausted settings)) s ->
            eventUrl e <> Some u.
Proof.
  induction l as [|x l IH]; intros i s Hu.
  - split; [reflexivity|]. intros e He. apply elem_of_nil in He. contradiction.
  - destruct (forEachIndexed_cons i x l (startStream conf exhausted settings) s)
      as [-> ->].
    assert (Hx : streamView u (execProg (startStream conf exhausted settings i x) s) =
                 streamView u s /\
                 forall e, e ∈ traceProg (startStream conf exhausted settings i x) s ->
                           eventUrl e <> Some u).
    { destruct (decide (u = x)) as [->|Hne].
      - unfold execProg, traceProg. rewrite startStream_noop by assumption.
        split; [reflexivity|]. intros e He. apply elem_of_nil in He. contradiction.
      - split; [now apply startStream_frame|].
        intros e He Hev. apply startStream_eventUrl in He. congruence. }
    destruct Hx as [Hview Hev].
    assert (Hu' : u ∈ activeStreams (execProg (startStream conf exhausted settings i x) s)).
    { apply (streamView_inv u _ _ Hview). assumption. }
    destruct (IH (S i) _ Hu') as [Hview' Hev'].
    split; [now rewrite Hview'|].
    intros e He. apply elem_of_app in He as [He|He]; auto.
Qed.

(** X23.  A stream that is active and is still in the settings is left alone:
    the call produces no event about it, neither of its loops changes
    whether it is active or what buffers it has, and its decoder process
    is kept. *)
Theorem Reconfigure_keeps_stream stop conf exhausted visit settings s (u : string) :
  u ∈ RTSP_URLs settings ->
  u ∈ activeStreams s ->
  let s' := execProg (ReconfigureRTSPStreams stop conf exhausted visit settings) s in
  eventsAbout u (traceProg (ReconfigureRTSPStreams stop conf exhausted visit settings) s) = [] /\
  streamView u s' = streamView u s /\
  (u ∈ ffmpegProcesses s' <-> u ∈ ffmpegProcesses s).
Proof.
  intros Hu Hact s'. subst s'.
  assert (Hne : RTSP_URLs settings <> []).
  { intros E. rewrite E in Hu. apply elem_of_nil in Hu. contradiction. }
  destruct (Reconfigure_nonempty stop conf exhausted visit settings s Hne) as [-> ->].
  assert (Hf : foundIn u (RTSP_URLs settings) = true) by now apply foundIn_elem_of.
  assert (Hview : streamView u (stoppedState visit settings s) = streamView u s)
    by now apply stoppedState_view.
  assert (Hact' : u ∈ activeStreams (stoppedState visit settings s)).
  { apply (streamView_inv u _ _ Hview). assumption. }
  destruct (startLoop_running conf exhausted settings (RTSP_URLs settings) u 0
              (stoppedState visit settings s) Hact') as [Hview' Hev].
  split; [|split].
  - apply eventsAbout_other. intros e He Heu.
    apply elem_of_app in He as [He|He].
    { apply not_in_monitor_part in He. congruence. }
    apply elem_of_app in He as [He|He]; [|now apply (Hev e)].
    apply (stopLoop_eventUrl settings _ _ _ _ He) in Heu. congruence.
  - now rewrite Hview'.
  - rewrite (proj2 (startLoop_other_state conf settings exhausted _ _ _)).
    unfold stoppedState. rewrite stopLoop_processes by assumption.
    unfold monitorEnsured. destruct (ffmpegMonitor s); reflexivity.
Qed.

Lemma Reconfigure_keeps_stream_witness :
  let settings := {| Audio_Source := "";
                     RTSP_URLs := ["rtsp://old/live"; "rtsp://b/live"];
                     RTSP_Transport := "tcp" |} in
  let s' := execProg (ReconfigureRTSPStreams monitorOnly sampleConf neverExhausted elements
                        settings) oneStream in
  eventsAbout "rtsp://old/live"
    (traceProg (ReconfigureRTSPStreams monitorOnly sampleConf neverExhausted elements settings)
       oneStream) = [] /\
  streamView "rtsp://old/live" s' = streamView "rtsp://old/live" oneStream /\
  ("rtsp://old/live"%string ∈ ffmpegProcesses s' <->
   "rtsp://old/live"%string ∈ ffmpegProcesses oneStream).
Proof.
  intros settings.
  apply (Reconfigure_keeps_stream monitorOnly sampleConf neverExhausted elements settings
           oneStream "rtsp://old/live").
  - cbn. in_list.
  - cbn. set_solver.
Defined.

(** ** The streams that are active after a call *)

Lemma startLoop_started_or_failed conf exhausted settings l (v : string) : forall i s,
  v ∈ l ->
  v ∈ activeStreams (execProg (forEachIndexed i l (startStream conf exhausted settings)) s) \/
  exists e, e ∈ traceProg (forEachIndexed i l (startStream conf exhausted settings)) s /\
            isAllocationFailure v e.
Proof.
  induction l as [|x l IH]; intros i s Hv.
  - apply elem_of_nil in Hv. contradiction.
  - destruct (forEachIndexed_cons i x l (startStream conf exhausted settings) s)
      as [-> ->].
    apply elem_of_cons in Hv as [->|Hv].
    + destruct (startStream_started_or_failed conf exhausted settings i x s)
        as [H|(e & He & Hf)].
      * left. apply startLoop_active. now left.
      * right. exists e. split; [apply elem_of_app; now left | assumption].
    + destruct (IH (S i) (execProg (startStream conf exhausted settings i x) s) Hv)
        as [H|(e & He & Hf)]; [now left|].
      right. exists e. split; [apply elem_of_app; now right | assumption].
Qed.

(** X24.  After a call with settings that name at least one URL, and each URL
    once, the active streams are the URLs of the settings for which no
    allocation failed in the call.  This holds in whatever order the call
    visits the streams that were active, as long as it visits all of
    them. *)
Theorem Reconfigure_active_streams stop conf exhausted visit settings s (v : string) :
  RTSP_URLs settings <> [] ->
  NoDup (RTSP_URLs settings) ->
  (forall (X : gset string) w, w ∈ X -> w ∈ visit X) ->
  let trace := traceProg (ReconfigureRTSPStreams stop conf exhausted visit settings) s in
  let s' := execProg (ReconfigureRTSPStreams stop conf exhausted visit settings) s in
  v ∈ activeStreams s' <->
  v ∈ RTSP_URLs settings /\ ~ exists e, e ∈ trace /\ isAllocationFailure v e.
Proof.
  intros Hne Hnd Hvisit trace s'.
  destruct (Reconfigure_nonempty stop conf exhausted visit settings s Hne) as [Ht Hs].
  subst trace s'. rewrite Hs. split.
  - intros Hv. split.
    + apply startLoop_active in Hv as [Hv|Hv].
      * apply stoppedState_active in Hv; [|assumption]. now apply foundIn_elem_of.
      * apply startLoop_eventUrl in Hv as (u & Hu & Hev). now injection Hev as ->.
    + intros (e & He & Hf).
      destruct (allocation_in_start_trace stop conf exhausted visit settings s e v He
                  (failure_is_allocation v e Hf)) as [_ Hstart].
      destruct (startLoop_failure conf exhausted settings _ 0 _ e v Hnd Hstart Hf)
        as (_ & _ & Hna & _).
      contradiction.
  - intros [Hv Hok].
    destruct (startLoop_started_or_failed conf exhausted settings (RTSP_URLs settings)
                v 0 (stoppedState visit settings s) Hv) as [H|(e & He & Hf)];
      [assumption|].
    exfalso. apply Hok. exists e. split; [|assumption].
    rewrite Ht, !elem_of_app. auto.
Qed.

Lemma Reconfigure_active_streams_witness :
  let trace := traceProg (ReconfigureRTSPStreams monitorOnly sampleConf firstExhausted elements
                            twoCameras) oneStream in
  let s' := execProg (ReconfigureRTSPStreams monitorOnly sampleConf firstExhausted elements
                        twoCameras) oneStream in
  "rtsp://b/live"%string ∈ activeStreams s' <->
  "rtsp://b/live"%string ∈ RTSP_URLs twoCameras /\
  ~ exists e, e ∈ trace /\ isAllocationFailure "rtsp://b/live" e.
Proof.
  apply (Reconfigure_active_streams monitorOnly sampleConf firstExhausted elements twoCameras
           oneStream "rtsp://b/live").
  - discriminate.
  - repeat constructor; intros H; elem_cases H; discriminate.
  - intros X w. apply elem_of_elements.
Defined.

(** ** The buffers after a failed start *)

(** X25.  When the analysis buffer of a stream has just been reserved and the
    reservation of its capture buffer fails, the iteration calls
    [RemoveCaptureBuffer], not [RemoveAnalysisBuffer]: the stream is not
    started, and the analysis buffer reserved in this iteration stays
    reserved.  The next attempt to start the stream finds it and reserves
    the capture buffer only. *)
Theorem startStream_capture_failure conf exhausted settings i (url : string) s :
  url ∉ activeStreams s ->
  analysisBuffers s !! url = None ->
  captureBuffers s !! url = None ->
  exhausted i AnalysisKind = false ->
  exhausted i CaptureKind = true ->
  let trace := traceProg (startStream conf exhausted settings i url) s in
  let s' := execProg (startStream conf exhausted settings i url) s in
  analysisBuffers s' !! url = Some (BufferSize conf * 3) /\
  captureBuffers s' !! url = None /\
  (url ∉ activeStreams s') /\
  (forall err, EvRemoveAnalysisBuffer url err ∉ trace) /\
  (exists err, EvRemoveCaptureBuffer url err ∈ trace) /\
  forall exhausted' j,
    exhausted' j CaptureKind = false ->
    traceProg (startStream conf exhausted' settings j url) s' =
      [EvAllocateCaptureBuffer url None; EvActivate url;
       EvSpawn url (RTSP_Transport settings)].
Proof.
  intros Hna HA HC HeA HeC trace s'. subst trace s'.
  unfold traceProg, execProg. rewrite startStream_outcome. unfold startOutcome.
  rewrite bool_decide_eq_false_2 by assumption. rewrite HA, HC, HeA, HeC.
  cbn [fst snd].
  assert (HA' : analysisBuffers (withoutCaptureBuffer url (withAnalysisBuffer conf url s))
                  !! url = Some (BufferSize conf * 3)).
  { cbn. apply lookup_insert_eq. }
  assert (HC' : captureBuffers (withoutCaptureBuffer url (withAnalysisBuffer conf url s))
                  !! url = None).
  { cbn. apply lookup_delete_eq. }
  split; [assumption|]. split; [assumption|]. split; [exact Hna|].
  split; [intros err H; elem_cases H; discriminate|].
  split; [exists (Some NotFound); in_list|].
  intros exhausted' j Hj. rewrite startStream_outcome. unfold startOutcome.
  rewrite bool_decide_eq_false_2 by exact Hna. rewrite HA', HC', Hj. reflexivity.
Qed.

Lemma startStream_capture_failure_witness :
  let exhausted := fun (i : nat) kind =>
                     match kind with CaptureKind => true | AnalysisKind => false end in
  let url := "rtsp://a/live"%string in
  let trace := traceProg (startStream sampleConf exhausted twoCameras 0 url) noStreams in
  let s' := execProg (startStream sampleConf exhausted twoCameras 0 url) noStreams in
  analysisBuffers s' !! url = Some (BufferSize sampleConf * 3) /\
  captureBuffers s' !! url = None /\
  (url ∉ activeStreams s') /\
  (forall err, EvRemoveAnalysisBuffer url err ∉ trace) /\
  (exists err, EvRemoveCaptureBuffer url err ∈ trace) /\
  forall exhausted' j,
    exhausted' j CaptureKind = false ->
    traceProg (startStream sampleConf exhausted' twoCameras j url) s' =
      [EvAllocateCaptureBuffer url None; EvActivate url;
       EvSpawn url (RTSP_Transport twoCameras)].
Proof.
  intros exhausted url.
  apply (startStream_capture_failure sampleConf exhausted twoCameras 0 url noStreams).
  - cbn. set_solver.
  - reflexivity.
  - reflexivity.
  - reflexivity.
  - reflexivity.
Defined.

(** * Authorization codes and access tokens *)

(** X26.  An authorization code is good for one exchange.  Once
    [ExchangeAuthCode] has got past its check of the code, whether it then
    returns a token or fails for lack of random bytes, the code is gone:
    every later exchange of it is refused as invalid and changes nothing. *)
Theorem ExchangeAuthCode_single_use code now1 rand now2 s token err s' :
  ExchangeAuthCode code now1 rand now2 s = (token, err, s') ->
  err <> Some ErrInvalidAuthCode ->
  forall now1' rand' now2',
    ExchangeAuthCode code now1' rand' now2' s' =
      (EmptyString, Some ErrInvalidAuthCode, s').
Proof.
  unfold ExchangeAuthCode at 1.
  destruct (authCodes s !! code) as [ac|]; [|intros [= _ <- _]; congruence].
  destruct (Time_After now1 (ac_ExpiresAt ac)); [intros [= _ <- _]; congruence|].
  intros H _ now1' rand' now2'.
  assert (Hgone : authCodes s' !! code = None).
  { destruct rand as [e|bytes]; injection H as _ _ <-; cbn; apply lookup_delete_eq. }
  unfold ExchangeAuthCode. rewrite Hgone. reflexivity.
Qed.

Lemma ExchangeAuthCode_single_use_witness :
  let s := snd (GenerateAuthCode (inr "0123456789abcdef0123456789abcdef"%string)
                  0 newServer) in
  let code := base64_URLEncoding_EncodeToString "0123456789abcdef0123456789abcdef" in
  let s' := snd (ExchangeAuthCode code time_Second
                   (inr "fedcba9876543210fedcba9876543210"%string)
                   time_Second s) in
  ExchangeAuthCode code (2 * time_Second)
    (inr "00000000000000000000000000000000"%string) (2 * time_Second) s' =
  (EmptyString, Some ErrInvalidAuthCode, s').
Proof.
  intros s code s'.
  apply (ExchangeAuthCode_single_use code time_Second
           (inr "fedcba9876543210fedcba9876543210"%string) time_Second s
           (base64_URLEncoding_EncodeToString "fedcba9876543210fedcba9876543210")
           None s').
  - vm_compute. reflexivity.
  - discriminate.
Defined.

(** X27.  From code to token.  A code that [GenerateAuthCode] has issued can
    be exchanged up to and including the instant it expires, the length of
    [AuthCodeExp] after it was issued.  The token obtained is the encoding
    of the random bytes, and [ValidateAccessToken] accepts it at the
    instants before its expiry, the length of [AccessTokenExp] after the
    exchange, and at no other. *)
Theorem auth_code_round_trip bytes now0 s code s1 now1 bytes' now2 :
  GenerateAuthCode (inr bytes) now0 s = (code, None, s1) ->
  now1 <= now0 + AuthCodeExp s ->
  exists s2,
    ExchangeAuthCode code now1 (inr bytes') now2 s1 =
      (base64_URLEncoding_EncodeToString bytes', None, s2) /\
    forall t,
      ValidateAccessToken (base64_URLEncoding_EncodeToString bytes') t s2 =
        (t <? now2 + AccessTokenExp s).
Proof.
  unfold GenerateAuthCode. intros [= <- <-] Hnow.
  unfold ExchangeAuthCode. cbn [authCodes setAuthCodes].
  rewrite lookup_insert_eq. cbn [ac_ExpiresAt]. unfold Time_After, Time_Add.
  destruct (Z.ltb_spec (now0 + AuthCodeExp s) now1) as [?|_]; [lia|].
  eexists. split; [reflexivity|].
  intros t. unfold ValidateAccessToken. cbn [accessTokens setAccessTokens].
  rewrite lookup_insert_eq. reflexivity.
Qed.

Lemma auth_code_round_trip_witness :
  exists s2,
    ExchangeAuthCode
      (base64_URLEncoding_EncodeToString "0123456789abcdef0123456789abcdef")
      (600 * time_Second) (inr "fedcba9876543210fedcba9876543210"%string)
      (601 * time_Second)
      (snd (GenerateAuthCode (inr "0123456789abcdef0123456789abcdef"%string)
              0 newServer)) =
      (base64_URLEncoding_EncodeToString "fedcba9876543210fedcba9876543210",
       None, s2) /\
    forall t,
      ValidateAccessToken
        (base64_URLEncoding_EncodeToString "fedcba9876543210fedcba9876543210") t s2 =
        (t <? 601 * time_Second + AccessTokenExp newServer).
Proof.
  apply (auth_code_round_trip "0123456789abcdef0123456789abcdef" 0 newServer
           (base64_URLEncoding_EncodeToString "0123456789abcdef0123456789abcdef")
           (snd (GenerateAuthCode (inr "0123456789abcdef0123456789abcdef"%string)
                   0 newServer))).
  - reflexivity.
  - vm_compute. discriminate.
Defined.

Lemma cleanup_lookup_token now (m : gmap string AccessToken) (token : string) :
  filter (fun kv => Time_After now (at_ExpiresAt (snd kv)) = false) m !! token =
  match m !! token with
  | Some a => if Time_After now (at_ExpiresAt a) then None else Some a
  | None => None
  end.
Proof.
  destruct (m !! token) as [a|] eqn:E.
  - destruct (Time_After now (at_ExpiresAt a)) eqn:Ha.
    + apply map_lookup_filter_None. right. intros a' Ha'. cbn.
      rewrite E in Ha'. injection Ha' as <-. congruence.
    + apply map_lookup_filter_Some. split; [assumption|]. exact Ha.
  - apply map_lookup_filter_None. now left.
Qed.

Lemma cleanup_lookup_code now (m : gmap string AuthCode) (code : string) :
  filter (fun kv => Time_After now (ac_ExpiresAt (snd kv)) = false) m !! code =
  match m !! code with
  | Some a => if Time_After now (ac_ExpiresAt a) then None else Some a
  | None => None
  end.
Proof.
  destruct (m !! code) as [a|] eqn:E.
  - destruct (Time_After now (ac_ExpiresAt a)) eqn:Ha.
    + apply map_lookup_filter_None. right. intros a' Ha'. cbn.
      rewrite E in Ha'. injection Ha' as <-. congruence.
    + apply map_lookup_filter_Some. split; [assumption|]. exact Ha.
  - apply map_lookup_filter_None. now left.
Qed.

(** X28.  The cleanup is not felt.  From the instant of a cleanup on,
    [ValidateAccessToken] answers for every token as it would have without
    the cleanup, and [ExchangeAuthCode] returns for every code the token or
    the error it would have returned without it: only what had expired is
    deleted. *)
Theorem authCleanup_unnoticed now s t :
  now <= t ->
  (forall token,
     ValidateAccessToken token t (authCleanup now s) = ValidateAccessToken token t s) /\
  (forall code rand t2,
     fst (ExchangeAuthCode code t rand t2 (authCleanup now s)) =
     fst (ExchangeAuthCode code t rand t2 s)).
Proof.
  intros Ht. split.
  - intros token. unfold ValidateAccessToken, authCleanup. cbn [accessTokens].
    rewrite cleanup_lookup_token.
    destruct (accessTokens s !! token) as [a|]; [|reflexivity].
    unfold Time_After, Time_Before.
    destruct (Z.ltb_spec (at_ExpiresAt a) now); [|reflexivity].
    symmetry. apply Z.ltb_ge. lia.
  - intros code rand t2. unfold ExchangeAuthCode, authCleanup. cbn [authCodes].
    rewrite cleanup_lookup_code.
    destruct (authCodes s !! code) as [a|]; [|reflexivity].
    unfold Time_After.
    destruct (Z.ltb_spec (ac_ExpiresAt a) now) as [Hexp|Hok].
    + assert (H : (ac_ExpiresAt a <? t) = true) by (apply Z.ltb_lt; lia).
      rewrite H. reflexivity.
    + destruct (ac_ExpiresAt a <? t); [reflexivity|].
      destruct rand; reflexivity.
Qed.

Lemma authCleanup_unnoticed_witness :
  let s := snd (GenerateAuthCode (inr "0123456789abcdef0123456789abcdef"%string)
                  0 newServer) in
  (forall token,
     ValidateAccessToken token (700 * time_Second) (authCleanup (650 * time_Second) s) =
     ValidateAccessToken token (700 * time_Second) s) /\
  (forall code rand t2,
     fst (ExchangeAuthCode code (700 * time_Second) rand t2
            (authCleanup (650 * time_Second) s)) =
     fst (ExchangeAuthCode code (700 * time_Second) rand t2 s)).
Proof.
  intros s.
  apply (authCleanup_unnoticed (650 * time_Second) s (700 * time_Second)).
  vm_compute. discriminate.
Defined.

(** * More about [calculateAudioLevel] *)

(** X29.  Clipping is reported exactly when a sample is at an end of the
    16-bit range, whatever the level comes to; the source and the name
    are passed through.  Nothing of this depends on the logarithm. *)
Theorem calculateAudioLevel_clipping_exact
    (Log10 : float -> float) samples source name :
  let r := calculateAudioLevel Log10 samples source name in
  (Clipping r = true <->
   Exists (fun sample => sample = 32767 \/ sample = -32768) (pcmSamples samples)) /\
  Source r = source /\ Name r = name.
Proof.
  intros r. subst r. rewrite calculateAudioLevel_unfold. cbv zeta.
  assert (Hex : existsb isExtreme (pcmSamples samples) = true <->
                Exists (fun sample => sample = 32767 \/ sample = -32768)
                  (pcmSamples samples)).
  { rewrite List.existsb_exists, List.Exists_exists.
    split; intros (s & Hin & Hs); exists s; (split; [assumption|]).
    - unfold isExtreme in Hs. apply orb_true_iff in Hs.
      rewrite !Z.eqb_eq in Hs. exact Hs.
    - unfold isExtreme. apply orb_true_iff. rewrite !Z.eqb_eq. exact Hs. }
  destruct (Z.of_nat (length samples / 2) =? 0) eqn:Hc; cbn [Clipping Source Name].
  - split; [|split; reflexivity]. split; [discriminate|].
    intros H. apply Z.eqb_eq in Hc. rewrite <- pcmSamples_length in Hc.
    destruct (pcmSamples samples); [inversion H | discriminate].
  - split; [|split; reflexivity].
    rewrite sampleLoop_isClipping. cbn [isClipping loopInit orb]. exact Hex.
Qed.

(** * The local subnet *)

Lemma land_ff (a : ascii) : ascii_of_N (N.land (N_of_ascii a) (N_of_ascii ffByte)) = a.
Proof. destruct a as [[] [] [] [] [] [] [] []]; reflexivity. Qed.

Lemma land_zero (a : ascii) :
  ascii_of_N (N.land (N_of_ascii a) (N_of_ascii zeroByte)) = zeroByte.
Proof. destruct a as [[] [] [] [] [] [] [] []]; reflexivity. Qed.

Lemma string_length_4 (s : string) :
  String.length s = 4%nat ->
  exists a b c d, s = String a (String b (String c (String d EmptyString))).
Proof.
  destruct s as [|a [|b [|c [|d [|e s]]]]]; try discriminate. eauto.
Qed.

Lemma substring_length_exact n m : forall s : string,
  (n + m <= String.length s)%nat -> String.length (String.substring n m s) = m.
Proof.
  induction n as [|n IHn]; intros s H.
  - revert s H. induction m as [|m IHm]; intros s H.
    + destruct s; reflexivity.
    + destruct s as [|a s]; [cbn in H; lia|]. cbn. f_equal. apply IHm. cbn in H. lia.
  - destruct s as [|a s]; [cbn in H; lia|]. cbn. apply IHn. cbn in H. lia.
Qed.

(** [To4] gives nil or four bytes. *)
Lemma IP_To4_cases (ip : string) :
  IP_To4 ip = EmptyString \/
  exists a b c d, IP_To4 ip = String a (String b (String c (String d EmptyString))).
Proof.
  unfold IP_To4, IPv4len, IPv6len.
  destruct (Nat.eqb_spec (String.length ip) 4) as [H4|_].
  { right. now apply string_length_4. }
  destruct (Nat.eqb_spec (String.length ip) 16) as [H16|_]; [|now left].
  destruct (String.eqb _ _); [|now left].
  right. apply string_length_4. apply substring_length_exact. lia.
Qed.

Lemma getIPv4Subnet_nil (ip : string) :
  IP_To4 ip = EmptyString -> getIPv4Subnet ip = EmptyString.
Proof. intros H. unfold getIPv4Subnet. rewrite H. destruct ip; reflexivity. Qed.

Lemma getIPv4Subnet_ipv4 (ip : string) a b c d :
  IP_To4 ip = String a (String b (String c (String d EmptyString))) ->
  getIPv4Subnet ip = String a (String b (String c (String zeroByte EmptyString))).
Proof.
  intros H. unfold getIPv4Subnet. rewrite H.
  destruct ip as [|x ip]; [discriminate|].
  unfold IP_Mask. cbn. rewrite !land_ff, land_zero. reflexivity.
Qed.

Lemma IP_IsLoopback_ipv4 (ip : string) a b c d :
  IP_To4 ip = String a (String b (String c (String d EmptyString))) ->
  IP_IsLoopback ip = (N_of_ascii a =? 127)%N.
Proof. intros H. unfold IP_IsLoopback. rewrite H. reflexivity. Qed.

Lemma anyLocalSubnet_spec a b c (addrs : list Addr) :
  anyLocalSubnet (String a (String b (String c (String zeroByte EmptyString)))) addrs
    = true <->
  exists ip mask x,
    IPNetAddr ip mask ∈ addrs /\
    IP_To4 ip = String a (String b (String c (String x EmptyString))) /\
    N_of_ascii a <> 127%N.
Proof.
  induction addrs as [|addr addrs IH]; cbn [anyLocalSubnet].
  - split; [discriminate|]. intros (ip & mask & x & H & _).
    apply elem_of_nil in H. contradiction.
  - assert (Hrest : (exists ip mask x,
                       IPNetAddr ip mask ∈ addrs /\
                       IP_To4 ip = String a (String b (String c (String x EmptyString))) /\
                       N_of_ascii a <> 127%N) ->
                    exists ip mask x,
                       IPNetAddr ip mask ∈ addr :: addrs /\
                       IP_To4 ip = String a (String b (String c (String x EmptyString))) /\
                       N_of_ascii a <> 127%N).
    { intros (ip & mask & x & H & H'). exists ip, mask, x. split; [now right | exact H']. }
    destruct addr as [ip mask|].
    2:{ rewrite IH. split; [exact Hrest|].
        intros (ip & mask & x & H & H'). apply elem_of_cons in H as [H|H];
          [discriminate | eauto 6]. }
    destruct (IP_To4_cases ip) as [Hnil|(a' & b' & c' & d' & H4)].
    + assert (Hskip : (if IP_IsLoopback ip
                       then anyLocalSubnet
                              (String a (String b (String c (String zeroByte EmptyString))))
                              addrs
                       else match getIPv4Subnet ip with
                            | EmptyString =>
                                anyLocalSubnet
                                  (String a (String b (String c (String zeroByte EmptyString))))
                                  addrs
                            | String _ _ as serverSubnet =>
                                if IP_Equal
                                     (String a (String b (String c (String zeroByte EmptyString))))
                                     serverSubnet
                                then true
                                else anyLocalSubnet
                                       (String a (String b (String c (String zeroByte EmptyString))))
                                       addrs
                            end) =
                      anyLocalSubnet
                        (String a (String b (String c (String zeroByte EmptyString))))
                        addrs).
      { rewrite (getIPv4Subnet_nil ip Hnil). destruct (IP_IsLoopback ip); reflexivity. }
      rewrite Hskip, IH. split; [exact Hrest|].
      intros (ip' & mask' & x & H & H' & Ha). apply elem_of_cons in H as [H|H].
      * injection H as -> ->. congruence.
      * eauto 6.
    + rewrite (IP_IsLoopback_ipv4 ip a' b' c' d' H4).
      rewrite (getIPv4Subnet_ipv4 ip a' b' c' d' H4).
      destruct (N.eqb_spec (N_of_ascii a') 127) as [Hlo|Hnlo].
      * rewrite IH. split; [exact Hrest|].
        intros (ip' & mask' & x & H & H' & Ha). apply elem_of_cons in H as [H|H].
        { injection H as -> ->. rewrite H4 in H'. injection H' as -> _ _ _.
          contradiction. }
        { eauto 6. }
      * unfold IP_Equal. cbn [String.length Nat.eqb].
        destruct (String.eqb_spec
                    (String a (String b (String c (String zeroByte EmptyString))))
                    (String a' (String b' (String c' (String zeroByte EmptyString)))))
          as [Heq|Hneq].
        { injection Heq as -> -> ->. split; [intros _|reflexivity].
          exists ip, mask, d'. split; [left|]. now split. }
        { rewrite IH. split; [exact Hrest|].
          intros (ip' & mask' & x & H & H' & Ha). apply elem_of_cons in H as [H|H].
          - injection H as -> ->. rewrite H4 in H'. injection H' as -> -> -> _.
            contradiction.
          - eauto 6. }
Qed.

(** X30.  A client counts as local exactly when its address is an IPv4
    address (or an IPv4-mapped one) that has its first three bytes in
    common with the IPv4 address of some interface, and that first byte is
    not 127.  The mask of the interface is not looked at: the subnet is
    taken to be the /24 of the address.  When the addresses of the
    interfaces cannot be read, no client is local. *)
Theorem IsInLocalSubnet_spec interfaceAddrs (clientIP : string) :
  IsInLocalSubnet interfaceAddrs clientIP = true <->
  exists addrs a b c d ip mask x,
    interfaceAddrs = inr addrs /\
    IP_To4 clientIP = String a (String b (String c (String d EmptyString))) /\
    IPNetAddr ip mask ∈ addrs /\
    IP_To4 ip = String a (String b (String c (String x EmptyString))) /\
    N_of_ascii a <> 127%N.
Proof.
  assert (Hgen : IsInLocalSubnet interfaceAddrs clientIP =
                 match interfaceAddrs with
                 | inl _ => false
                 | inr addrs =>
                     match getIPv4Subnet clientIP with
                     | EmptyString => false
                     | String _ _ as clientSubnet => anyLocalSubnet clientSubnet addrs
                     end
                 end).
  { unfold IsInLocalSubnet. destruct clientIP; [|reflexivity].
    destruct interfaceAddrs; reflexivity. }
  rewrite Hgen. destruct interfaceAddrs as [err|addrs].
  { split; [discriminate|]. intros (addrs & a & b & c & d & ip & mask & x & H & _).
    discriminate. }
  destruct (IP_To4_cases clientIP) as [Hnil|(a & b & c & d & H4)].
  - rewrite (getIPv4Subnet_nil clientIP Hnil). split; [discriminate|].
    intros (addrs' & a & b & c & d & ip & mask & x & _ & H & _). congruence.
  - rewrite (getIPv4Subnet_ipv4 clientIP a b c d H4), anyLocalSubnet_spec. split.
    + intros (ip & mask & x & Hin & Hip & Ha).
      exists addrs, a, b, c, d, ip, mask, x. now repeat split.
    + intros (addrs' & a' & b' & c' & d' & ip & mask & x & [= <-] & Hc & Hin & Hip & Ha).
      rewrite H4 in Hc. injection Hc as <- <- <- <-. eauto 6.
Qed.
